(** * Batch orchestration engine of the websec-stand backend

    A shallow embedding of [backend/scripts/batch_manager.js] and the
    properties of its scheduler, process supervisor, findings extractor,
    report synthesizer and event bus.

    Conventions of the embedding.
    - A JavaScript string is a [string]: a sequence of code units, here
      restricted to the code units below 256.
    - A synchronous function that may throw returns a [Completion].
    - [Date.now()], [Math.random()] and [new Date().toISOString()] are
      readings of the environment and are passed in explicitly.
    - An [async] function is cut at its [await] points into synchronous
      segments; the segments of all live tasks interleave through the
      step relation [Engine.step]. *)

From Stdlib Require Import Ascii String ZArith Lia.
From stdpp Require Import gmap strings list pretty.

Open Scope Z_scope.

(** ** JavaScript primitives used by the source *)

Module Js.

(** Abrupt and normal completion of a synchronous call. *)
Inductive Completion (A : Type) : Type :=
| Normal (a : A)
| Throw (message : string).
Arguments Normal {A} a.
Arguments Throw {A} message.

Definition bind {A B} (c : Completion A) (k : A -> Completion B) : Completion B :=
  match c with
  | Normal a => k a
  | Throw e => Throw e
  end.

(** [WhiteSpace] and [LineTerminator] code units: what [trim] strips and
    what the regular expression class [\s] accepts. *)
Definition isWhiteSpace (c : ascii) : bool :=
  match c with
  | "009" | "010" | "011" | "012" | "013" | " " | "160" => true
  | _ => false
  end%char.

Definition isLineTerminator (c : ascii) : bool :=
  match c with
  | "010" | "013" => true
  | _ => false
  end%char.

Definition isDigit (c : ascii) : bool :=
  match c with
  | "0" | "1" | "2" | "3" | "4" | "5" | "6" | "7" | "8" | "9" => true
  | _ => false
  end%char.

Definition digitValue (c : ascii) : N :=
  (N_of_ascii c - 48)%N.

(** ASCII upper case, the canonicalisation of the [i] flag on the code
    units that can equal an ASCII letter. *)
Definition toUpperAscii (c : ascii) : ascii :=
  let n := N_of_ascii c in
  if ((97 <=? n) && (n <=? 122))%N then ascii_of_N (n - 32) else c.

Definition eqb_ci (a b : ascii) : bool :=
  Ascii.eqb (toUpperAscii a) (toUpperAscii b).

(** [stripPrefix p s] is the rest of [s] after the prefix [p]. *)
Fixpoint stripPrefix (p s : string) : option string :=
  match p, s with
  | EmptyString, _ => Some s
  | String a p', String b s' => if Ascii.eqb a b then stripPrefix p' s' else None
  | String _ _, EmptyString => None
  end.

Fixpoint stripPrefix_ci (p s : string) : option string :=
  match p, s with
  | EmptyString, _ => Some s
  | String a p', String b s' => if eqb_ci a b then stripPrefix_ci p' s' else None
  | String _ _, EmptyString => None
  end.

(** [s.startsWith(p)] *)
Definition startsWith (s p : string) : bool :=
  match stripPrefix p s with Some _ => true | None => false end.

(** [s.includes(sub)] *)
Fixpoint includes (s sub : string) : bool :=
  if startsWith s sub then true
  else match s with
       | EmptyString => false
       | String _ s' => includes s' sub
       end.

(** [s.endsWith(p)] *)
Fixpoint endsWith (s p : string) : bool :=
  if String.eqb s p then true
  else match s with
       | EmptyString => false
       | String _ s' => endsWith s' p
       end.

(** [s.split('\n')]: never empty, the empty string gives one empty line. *)
Fixpoint splitLines (s : string) : list string :=
  match s with
  | EmptyString => [EmptyString]
  | String c s' =>
      if Ascii.eqb c "010"%char then EmptyString :: splitLines s'
      else match splitLines s' with
           | l :: ls => String c l :: ls
           | [] => [String c EmptyString]
           end
  end.

(** [s.split('.')], for the extension of a report file. *)
Fixpoint splitDots (s : string) : list string :=
  match s with
  | EmptyString => [EmptyString]
  | String c s' =>
      if Ascii.eqb c "."%char then EmptyString :: splitDots s'
      else match splitDots s' with
           | l :: ls => String c l :: ls
           | [] => [String c EmptyString]
           end
  end.

Fixpoint trimStart (s : string) : string :=
  match s with
  | EmptyString => EmptyString
  | String c s' => if isWhiteSpace c then trimStart s' else s
  end.

Fixpoint trimEnd (s : string) : string :=
  match s with
  | EmptyString => EmptyString
  | String c s' =>
      match trimEnd s' with
      | EmptyString => if isWhiteSpace c then EmptyString else String c EmptyString
      | t => String c t
      end
  end.

(** [s.trim()] *)
Definition trim (s : string) : string := trimEnd (trimStart s).

(** [s.slice(0, n)] *)
Definition slice0 (n : nat) (s : string) : string := String.substring 0 n s.

(** [parseInt] on a string of decimal digits.  The value is exact; the
    source's double agrees with it up to 2^53. *)
Definition parseDigits (s : string) : N :=
  fold_left (fun acc c => (10 * acc + digitValue c)%N) (list_ascii_of_string s) 0%N.

(** Truthiness of an optional string ([undefined] and [''] are falsy). *)
Definition truthy (o : option string) : bool :=
  match o with
  | Some (String _ _) => true
  | _ => false
  end.

(** [o || d] on an optional string. *)
Definition orElse (o : option string) (d : string) : string :=
  match o with
  | Some (String c s) => String c s
  | _ => d
  end.

End Js.

(** ** The regular expressions of the text parsers

    The parsers only use literals, alternation, capture groups, the end
    anchor and quantifiers over a single character class, so a
    backtracking matcher in continuation-passing style, recursive on the
    expression and, inside a quantifier, on the subject, follows the
    ECMAScript matching order exactly: alternatives left to right, greedy
    quantifiers longest first, lazy ones shortest first. *)

Module Regex.

Inductive cclass : Type :=
| CSpace   (* \s *)
| CDot     (* .  *)
| CDigit.  (* \d *)

Inductive re : Type :=
| Lit (s : string)
| LitI (s : string)               (* literal under the i flag *)
| Star (c : cclass)               (* c*  *)
| Plus (c : cclass)               (* c+  *)
| PlusLazy (c : cclass)           (* c+? *)
| OptI (s : string)               (* (?:s)? under the i flag *)
| Alt (r1 r2 : re)
| Seq (r1 r2 : re)
| Group (n : nat) (r : re)
| EndAnchor.                      (* $ without the m flag *)

Definition inClass (c : cclass) (a : ascii) : bool :=
  match c with
  | CSpace => Js.isWhiteSpace a
  | CDot => negb (Js.isLineTerminator a)
  | CDigit => Js.isDigit a
  end.

Abbreviation captures := (list (option string)).

(** The part of [s] consumed when [rest] remains. *)
Definition consumed (s rest : string) : string :=
  String.substring 0 (String.length s - String.length rest) s.

Section Matcher.
Context {R : Type}.

(** Greedy [c*]: take one more character if possible, else continue. *)
Fixpoint starGreedy (c : cclass) (s : string) (k : string -> option R) : option R :=
  match s with
  | String a s' =>
      if inClass c a then
        match starGreedy c s' k with
        | Some x => Some x
        | None => k s
        end
      else k s
  | EmptyString => k s
  end.

(** Lazy [c*?]: continue if possible, else take one more character. *)
Fixpoint starLazy (c : cclass) (s : string) (k : string -> option R) : option R :=
  match k s with
  | Some x => Some x
  | None =>
      match s with
      | String a s' => if inClass c a then starLazy c s' k else None
      | EmptyString => None
      end
  end.

Definition oneOf (c : cclass) (s : string) (k : string -> option R) : option R :=
  match s with
  | String a s' => if inClass c a then k s' else None
  | EmptyString => None
  end.

Fixpoint matchAt (r : re) (s : string) (caps : captures)
    (k : string -> captures -> option R) : option R :=
  match r with
  | Lit l =>
      match Js.stripPrefix l s with
      | Some rest => k rest caps
      | None => None
      end
  | LitI l =>
      match Js.stripPrefix_ci l s with
      | Some rest => k rest caps
      | None => None
      end
  | Star c => starGreedy c s (fun rest => k rest caps)
  | Plus c => oneOf c s (fun s1 => starGreedy c s1 (fun rest => k rest caps))
  | PlusLazy c => oneOf c s (fun s1 => starLazy c s1 (fun rest => k rest caps))
  | OptI l =>
      match Js.stripPrefix_ci l s with
      | Some rest =>
          match k rest caps with
          | Some x => Some x
          | None => k s caps
          end
      | None => k s caps
      end
  | Alt r1 r2 =>
      match matchAt r1 s caps k with
      | Some x => Some x
      | None => matchAt r2 s caps k
      end
  | Seq r1 r2 => matchAt r1 s caps (fun rest caps' => matchAt r2 rest caps' k)
  | Group n r1 =>
      matchAt r1 s caps (fun rest caps' => k rest (<[n := Some (consumed s rest)]> caps'))
  | EndAnchor =>
      match s with
      | EmptyString => k s caps
      | String _ _ => None
      end
  end.

End Matcher.

(** The array returned by [String.prototype.match] for a regular
    expression without the g flag: element 0 is the matched text and
    element [i] the text of group [i], [None] when the group took no
    part in the match. *)
Definition matchHere (ngroups : nat) (r : re) (s : string) : option captures :=
  matchAt r s (replicate (S ngroups) None)
    (fun rest caps => Some (<[0%nat := Some (consumed s rest)]> caps)).

(** The leftmost match: start positions are tried from left to right. *)
Fixpoint exec (ngroups : nat) (r : re) (s : string) : option captures :=
  match matchHere ngroups r s with
  | Some m => Some m
  | None =>
      match s with
      | String _ s' => exec ngroups r s'
      | EmptyString => None
      end
  end.

(** [m[i]] as a string on which a method is then called: [undefined]
    there throws a [TypeError]. *)
Definition groupText (m : captures) (i : nat) : Js.Completion string :=
  match m !! i with
  | Some (Some t) => Js.Normal t
  | _ => Js.Throw "TypeError: Cannot read properties of undefined"
  end.

(** The groups that take part in every match of an expression, and
    what it means for a group to hold a string in a match array. *)
Fixpoint sets (r : re) : list nat :=
  match r with
  | Group n r1 => n :: sets r1
  | Seq r1 r2 => sets r1 ++ sets r2
  | _ => []
  end.

Definition defined (caps : captures) (n : nat) : Prop :=
  exists t, caps !! n = Some (Some t).

Infix "~>" := Seq (at level 60, right associativity).

(** [/(?:WARN-NEW|FAIL-NEW):\s*(.+?)(?:\s*\[|\s*$)/] *)
Definition zapTitleRe : re :=
  Alt (Lit "WARN-NEW") (Lit "FAIL-NEW") ~> Lit ":" ~> Star CSpace ~>
  Group 1 (PlusLazy CDot) ~>
  Alt (Star CSpace ~> Lit "[") (Star CSpace ~> EndAnchor).

(** [/(\d+)\s+alerts?\s+found/i] *)
Definition zapAlertsRe : re :=
  Group 1 (Plus CDigit) ~> Plus CSpace ~> LitI "alert" ~> OptI "s" ~>
  Plus CSpace ~> LitI "found".

(** [/\+\s*(.+?):\s*(.+)/] *)
Definition niktoVulnRe : re :=
  Lit "+" ~> Star CSpace ~> Group 1 (PlusLazy CDot) ~> Lit ":" ~>
  Star CSpace ~> Group 2 (Plus CDot).

(** [/(\d+)\s+(items checked|requests made)/] *)
Definition niktoStatsRe : re :=
  Group 1 (Plus CDigit) ~> Plus CSpace ~>
  Group 2 (Alt (Lit "items checked") (Lit "requests made")).

(** [/(\d+)\s+(pages|forms)\s+found/] *)
Definition wapitiStatsRe : re :=
  Group 1 (Plus CDigit) ~> Plus CSpace ~>
  Group 2 (Alt (Lit "pages") (Lit "forms")) ~> Plus CSpace ~> Lit "found".

End Regex.

(** ** Findings extractor: the text parsers *)

Module Extractor.
Import Js Regex.

#[export] Instance completion_ret : MRet Completion := @Normal.
#[export] Instance completion_bind : MBind Completion :=
  fun A B k c => bind c k.

(** A finding object.  Fields a parser does not set are [None]
    ([undefined] in the source).  [type] is the source's [type] field.
    [count] holds the rendering of [alert.count || 1]. *)
Record Finding : Type := mkFinding {
  severity : string;
  title : string;
  tool : string;
  type : option string;
  line : string;
  identifier : option string;
  alertCount : option N;
  confidence : option string;
  count : option string;
  cweid : option string;
  wascid : option string;
  description : option string;
  solution : option string
}.

(** The object literal [{severity, title, tool, type, line}] that the
    text parsers push. *)
Definition textFinding (sev ttl tl ty ln : string) : Finding :=
  {| severity := sev; title := ttl; tool := tl; type := Some ty; line := ln;
     identifier := None; alertCount := None; confidence := None; count := None;
     cweid := None; wascid := None; description := None; solution := None |}.

(** [`${m[i]}`]: a template literal prints [undefined] and does not throw. *)
Definition groupTemplate (m : captures) (i : nat) : string :=
  match m !! i with
  | Some (Some t) => t
  | _ => "undefined"
  end.

(** The [for (const line of lines)] loop: the findings of each line in
    line order; an exception in one line leaves the loop. *)
Fixpoint forLines (body : string -> Completion (list Finding)) (lines : list string)
  : Completion (list Finding) :=
  match lines with
  | [] => Normal []
  | l :: ls =>
      fs ← body l;
      rest ← forLines body ls;
      Normal (fs ++ rest)
  end.

Definition determineZapSeverity (line : string) : string :=
  if includes line "FAIL" || includes line "HIGH" || includes line "Critical" then "HIGH"
  else if includes line "WARN" || includes line "MEDIUM" || includes line "Warning" then "MEDIUM"
  else if includes line "INFO" || includes line "LOW" || includes line "Information" then "LOW"
  else "MEDIUM".

(** The body of the loop of [parseZapFindings], one block per [if]. *)
Definition zapBaseline (line : string) : Completion (list Finding) :=
  if includes line "WARN-NEW:" || includes line "FAIL-NEW:" then
    let severity := if includes line "WARN-NEW:" then "MEDIUM" else "HIGH" in
    title ← match exec 1 zapTitleRe line with
            | Some titleMatch => t ← groupText titleMatch 1; Normal (trim t)
            | None => Normal "Unknown vulnerability"
            end;
    Normal [textFinding severity title "zap" "baseline_finding" (trim line)]
  else Normal [].

Definition zapSummary (line : string) : list Finding :=
  if includes line "FINISHED JOB" || includes line "alerts found" then
    match exec 1 zapAlertsRe line with
    | Some alertsMatch =>
        match alertsMatch !! 1%nat with
        | Some (Some digits) =>
            let alertCount := parseDigits digits in
            if (0 <? alertCount)%N then
              [ {| severity := "INFO";
                   title := "ZAP Automation Framework scan completed: "
                              +:+ pretty alertCount +:+ " alerts found";
                   tool := "zap"; type := Some "scan_summary"; line := trim line;
                   identifier := None; alertCount := Some alertCount;
                   confidence := None; count := None; cweid := None; wascid := None;
                   description := None; solution := None |} ]
            else []
        | _ => []
        end
    | None => []
    end
  else [].

Definition zapKeywords (line : string) : list Finding :=
  (if includes line "Cross Site Scripting" || includes line "XSS" then
     [textFinding (determineZapSeverity line)
        "Cross-Site Scripting (XSS) vulnerability detected" "zap" "xss_finding" (trim line)]
   else []) ++
  (if includes line "SQL Injection" || includes line "SQLi" then
     [textFinding (determineZapSeverity line)
        "SQL Injection vulnerability detected" "zap" "sql_injection" (trim line)]
   else []) ++
  (if includes line "Path Traversal" || includes line "Directory Browsing" then
     [textFinding (determineZapSeverity line)
        "Path Traversal vulnerability detected" "zap" "path_traversal" (trim line)]
   else []) ++
  (if includes line "CSRF" || includes line "Cross-Site Request Forgery" then
     [textFinding (determineZapSeverity line)
        "CSRF vulnerability detected" "zap" "csrf" (trim line)]
   else []) ++
  (if includes line "/rest/" || includes line "/api/" then
     if includes line "500" || includes line "error" || includes line "exception" then
       [textFinding "MEDIUM" "API endpoint error/exception detected" "zap" "api_error"
          (trim line)]
     else []
   else []).

Definition zapLine (line : string) : Completion (list Finding) :=
  baseline ← zapBaseline line;
  Normal (baseline ++ zapSummary line ++ zapKeywords line).

Definition parseZapFindings (rawOutput : string) : Completion (list Finding) :=
  forLines zapLine (splitLines rawOutput).

(** The body of the loop of [parseNiktoFindings]. *)
Definition niktoClassify (description : string) : string * string :=
  if includes description "admin" || includes description "password"
     || includes description "config" then ("HIGH", "sensitive_exposure")
  else if includes description "directory" || includes description "file"
          || includes description "backup" then ("MEDIUM", "information_disclosure")
  else if includes description "version" || includes description "server"
       then ("LOW", "version_disclosure")
  else ("LOW", "info").

Definition niktoVuln (line : string) : Completion (list Finding) :=
  if startsWith line "+" then
    match exec 2 niktoVulnRe line with
    | Some vulnMatch =>
        description ← groupText vulnMatch 2;
        let '(severity, ty) := niktoClassify description in
        identifier ← groupText vulnMatch 1;
        Normal [ {| severity := severity; title := trim description; tool := "nikto";
                    type := Some ty; line := trim line;
                    identifier := Some (trim identifier); alertCount := None;
                    confidence := None; count := None; cweid := None; wascid := None;
                    description := None; solution := None |} ]
    | None => Normal []
    end
  else Normal [].

Definition niktoStats (line : string) : list Finding :=
  if includes line "items checked" || includes line "requests made" then
    match exec 2 niktoStatsRe line with
    | Some statsMatch =>
        [textFinding "INFO" ("Nikto scan statistics: " +:+ groupTemplate statsMatch 0)
           "nikto" "scan_stats" (trim line)]
    | None => []
    end
  else [].

Definition niktoServerError (line : string) : list Finding :=
  if includes line "ERROR" || includes line "500" || includes line "403" then
    [textFinding "MEDIUM" "Server error or access restriction detected" "nikto"
       "server_error" (trim line)]
  else [].

Definition niktoLine (line : string) : Completion (list Finding) :=
  vuln ← niktoVuln line;
  Normal (vuln ++ niktoStats line ++ niktoServerError line).

Definition parseNiktoFindings (rawOutput : string) : Completion (list Finding) :=
  forLines niktoLine (splitLines rawOutput).

(** The body of the loop of [parseWapitiFindings]. *)
Definition wapitiIssueSeverity (line : string) : string :=
  let severity := "LOW" in
  let severity := if includes line "ERROR" then "MEDIUM" else severity in
  if includes line "CRITICAL" then "HIGH" else severity.

Definition wapitiLine (line : string) : Completion (list Finding) :=
  Normal (
  (if includes line "XSS" || includes line "Cross Site Scripting" then
     [textFinding "HIGH" "Cross-Site Scripting vulnerability" "wapiti" "xss" (trim line)]
   else []) ++
  (if includes line "SQL" || includes line "sql injection" then
     [textFinding "HIGH" "SQL Injection vulnerability" "wapiti" "sql_injection" (trim line)]
   else []) ++
  (if includes line "SSRF" || includes line "Server Side Request Forgery" then
     [textFinding "HIGH" "Server-Side Request Forgery vulnerability" "wapiti" "ssrf"
        (trim line)]
   else []) ++
  (if includes line "upload" && includes line "vulnerability" then
     [textFinding "HIGH" "File Upload vulnerability" "wapiti" "file_upload" (trim line)]
   else []) ++
  (if includes line "redirect" || includes line "open redirect" then
     [textFinding "MEDIUM" "Open Redirect vulnerability" "wapiti" "open_redirect"
        (trim line)]
   else []) ++
  (if includes line "pages found" || includes line "forms found" then
     match exec 2 wapitiStatsRe line with
     | Some statsMatch =>
         [textFinding "INFO" ("Wapiti discovery: " +:+ groupTemplate statsMatch 0)
            "wapiti" "scan_stats" (trim line)]
     | None => []
     end
   else []) ++
  (if includes line "[!]" || includes line "WARNING" || includes line "ERROR" then
     [textFinding (wapitiIssueSeverity line) "Wapiti scan warning or error" "wapiti"
        "scan_issue" (trim line)]
   else [])).

Definition parseWapitiFindings (rawOutput : string) : Completion (list Finding) :=
  forLines wapitiLine (splitLines rawOutput).

(** The [default:] finding of [parseFindingsFromStdout]; it has no
    [type] field. *)
Definition placeholderFinding (tl : string) : Finding :=
  {| severity := "INFO"; title := "Parser not implemented for this tool"; tool := tl;
     type := None; line := "Raw output available in artifacts";
     identifier := None; alertCount := None; confidence := None; count := None;
     cweid := None; wascid := None; description := None; solution := None |}.

Definition parseFindingsFromStdout (rawOutput tl : string) : Completion (list Finding) :=
  if String.eqb tl "zap" then parseZapFindings rawOutput
  else if String.eqb tl "nikto" then parseNiktoFindings rawOutput
  else if String.eqb tl "wapiti" then parseWapitiFindings rawOutput
  else Normal [placeholderFinding tl].

(** The guards of the three loops: a line carries a known marker of a
    tool when one of the [if] conditions of that tool's loop holds. *)
Definition zapMarkers : list string :=
  ["WARN-NEW:"; "FAIL-NEW:"; "FINISHED JOB"; "alerts found"; "Cross Site Scripting";
   "XSS"; "SQL Injection"; "SQLi"; "Path Traversal"; "Directory Browsing"; "CSRF";
   "Cross-Site Request Forgery"; "/rest/"; "/api/"].

Definition niktoMarkers : list string :=
  ["items checked"; "requests made"; "ERROR"; "500"; "403"].

Definition wapitiMarkers : list string :=
  ["XSS"; "Cross Site Scripting"; "SQL"; "sql injection"; "SSRF";
   "Server Side Request Forgery"; "upload"; "redirect"; "open redirect"; "pages found";
   "forms found"; "[!]"; "WARNING"; "ERROR"].

Definition hasMarker (tl line : string) : bool :=
  if String.eqb tl "zap" then existsb (includes line) zapMarkers
  else if String.eqb tl "nikto" then startsWith line "+" || existsb (includes line) niktoMarkers
  else if String.eqb tl "wapiti" then existsb (includes line) wapitiMarkers
  else false.

End Extractor.

(** ** Report synthesizer *)

(** The result record that [runScan] returns.  [exitCode] is [None] when
    the executor reports none ([undefined] in the source), [error] is
    present only in the record of the [catch] branch. *)
Module ScanResult.
Record t : Type := mk {
  runId : string;
  exitCode : option Z;
  stdout : string;
  stderr : string;
  error : option string;
  duration : Z;
  success : bool
}.
End ScanResult.

(** The [metadata] argument of [generateMarkdownContent]. *)
Module Metadata.
Record t (Num : Type) : Type := mk {
  tool : option string;
  target_url : option string;
  duration_seconds : option Num;
  timestamp : option string
}.
Arguments mk {Num}.
Arguments tool {Num}.
Arguments target_url {Num}.
Arguments duration_seconds {Num}.
Arguments timestamp {Num}.
End Metadata.

Module Report.
Import Js Extractor.

(** Doubles are not modelled: the one place that computes with a
    fractional number is the duration line, whose text is a function of
    the number alone.  [showRounded2 d] stands for the text of
    [${Math.round((d || 0) * 100) / 100}]. *)
Class JsNumber (Num : Type) : Type := {
  showRounded2 : option Num -> string
}.

(** Durations that are a whole number of seconds (below 2^46, where the
    product with 100 is exact): the rounding is the identity. *)
#[export] Instance wholeSeconds : JsNumber N := {
  showRounded2 d := match d with Some n => pretty n | None => "0" end
}.

Definition nl : string := String "010"%char EmptyString.
Definition backtick : string := "`".

(** [${result.exitCode || 'Unknown'}]: [undefined] and [0] are falsy. *)
Definition showExitCode (c : option Z) : string :=
  match c with
  | Some 0 | None => "Unknown"
  | Some z => pretty z
  end.

(** [${text.slice(0, 200)}${text.length > 200 ? '...' : ''}] *)
Definition excerpt (text : string) : string :=
  slice0 200 text +:+ (if (200 <? String.length text)%nat then "..." else "").

(** An [if (field) markdown += label + field + '\n'] step. *)
Definition optionalLine (label : string) (field : option string) : string :=
  if truthy field then label +:+ orElse field "" +:+ nl else "".

Definition optionalExcerpt (label : string) (field : option string) : string :=
  if truthy field then label +:+ excerpt (orElse field "") +:+ nl else "".

Definition summaryRow (finding : Finding) : string :=
  "| " +:+ severity finding +:+ " | " +:+ title finding +:+ " | " +:+ tool finding
  +:+ " |" +:+ nl.

(** The extra lines of a detailed section. *)
Definition extraFields (finding : Finding) : string :=
  if bool_decide (type finding = Some "json_alert") then
    optionalLine "- **Confidence**: " (confidence finding) +:+
    optionalLine "- **Instances**: " (count finding) +:+
    optionalLine "- **CWE ID**: " (cweid finding) +:+
    optionalLine "- **WASC ID**: " (wascid finding) +:+
    optionalExcerpt "- **Description**: " (description finding) +:+
    optionalExcerpt "- **Solution**: " (solution finding)
  else
    match (if bool_decide (type finding = Some "scan_summary")
           then alertCount finding else None) with
    | Some (Npos p) => "- **Alert Count**: " +:+ pretty (Npos p) +:+ nl
    | _ =>
        if truthy (identifier finding)
        then "- **Identifier**: " +:+ orElse (identifier finding) "" +:+ nl
        else ""
    end.

(** The detailed section of the finding at index [i]. *)
Definition detailSection (i : nat) (finding : Finding) : string :=
  "### " +:+ pretty (i + 1)%nat +:+ ". " +:+ title finding +:+ nl +:+
  "- **Severity**: " +:+ severity finding +:+ nl +:+
  "- **Tool**: " +:+ tool finding +:+ nl +:+
  extraFields finding +:+
  "- **Type**: " +:+ orElse (type finding) "unknown" +:+ nl +:+
  "- **Raw Output**: " +:+ backtick +:+ line finding +:+ backtick +:+ nl +:+ nl.

Definition concatStrings (l : list string) : string :=
  foldr String.append "" l.

Definition findingsPart (findings : list Finding) : string :=
  match findings with
  | [] => ""
  | _ =>
      "| Severity | Title | Tool |" +:+ nl +:+
      "|----------|-------|------|" +:+ nl +:+
      concatStrings (summaryRow <$> findings) +:+
      nl +:+ "## Detailed Findings" +:+ nl +:+ nl +:+
      concatStrings (imap detailSection findings)
  end.

Definition reportFileLine (toolName : option string) (file : string) : string :=
  let ext := List.last (splitDots file) "" in
  let kind := if String.eqb ext "json" then "JSON Report"
              else if String.eqb ext "html" then "HTML Report" else "Report" in
  "- " +:+ backtick +:+ file +:+ backtick +:+ " - " +:+ orElse toolName "Tool"
  +:+ " " +:+ kind +:+ nl.

Definition reportFilesPart (toolName : option string) (reportFiles : list string) : string :=
  match reportFiles with
  | [] => ""
  | _ =>
      nl +:+ "### Tool Reports" +:+ nl +:+
      concatStrings (reportFileLine toolName <$> reportFiles)
  end.

(** [generateMarkdownContent(runId, metadata, result, findings,
    reportFiles, batchId)].  [clockNow] is the reading that
    [new Date().toISOString()] gives during the call. *)
Definition generateMarkdownContent `{JsNumber Num} (clockNow : string)
    (runId : string) (metadata : Metadata.t Num) (result : ScanResult.t)
    (findings : list Finding) (reportFiles : list string) (batchId : string) : string :=
  let timestamp := orElse (Metadata.timestamp metadata) clockNow in
  "# Security Scan Report - " +:+ runId +:+ nl +:+
  nl +:+
  "## Scan Information" +:+ nl +:+
  "- **Tool**: " +:+ orElse (Metadata.tool metadata) "Unknown" +:+ nl +:+
  "- **Target URL**: " +:+ orElse (Metadata.target_url metadata) "Unknown" +:+ nl +:+
  "- **Duration**: " +:+ showRounded2 (Metadata.duration_seconds metadata) +:+ "s" +:+ nl +:+
  "- **Exit Code**: " +:+ showExitCode (ScanResult.exitCode result) +:+ nl +:+
  "- **Timestamp**: " +:+ timestamp +:+ nl +:+
  nl +:+
  "## Findings Summary" +:+ nl +:+
  "**Total Findings**: " +:+ pretty (length findings) +:+ nl +:+
  nl +:+
  findingsPart findings +:+
  "## File Artifacts" +:+ nl +:+ nl +:+
  "### Raw Output" +:+ nl +:+
  "- " +:+ backtick +:+ "artifacts/" +:+ batchId +:+ "/" +:+ runId +:+ "_raw.txt" +:+ backtick
    +:+ " - Complete stdout from " +:+ orElse (Metadata.tool metadata) "tool" +:+ nl +:+
  reportFilesPart (Metadata.tool metadata) reportFiles +:+
  nl +:+ "### Markdown Report" +:+ nl +:+
  "- " +:+ backtick +:+ "artifacts/" +:+ batchId +:+ "/" +:+ runId +:+ "_report.md" +:+ backtick
    +:+ " - This report" +:+ nl +:+
  (if truthy (ScanResult.error result)
   then nl +:+ "## Error Information" +:+ nl +:+
        "```" +:+ nl +:+ orElse (ScanResult.error result) "" +:+ nl +:+ "```" +:+ nl
   else "").

End Report.

(** ** Data model of the batch manager *)

Inductive RunState : Type := RunPending | RunRunning | RunCompleted | RunFailed.
Inductive BatchState : Type := BatchCreated | BatchRunning | BatchCompleted.

#[export] Instance RunState_eq_dec : EqDecision RunState.
Proof. solve_decision. Defined.
#[export] Instance BatchState_eq_dec : EqDecision BatchState.
Proof. solve_decision. Defined.

(** The request body handed to [createBatch]. *)
Module Config.
Record t : Type := mk {
  tool : string;
  targetUrl : string;
  repetitions : Z
}.
End Config.

(** An element of [batch.runStatuses]. *)
Module RunStatus.
Record t : Type := mk {
  runIndex : nat;
  runId : string;
  status : RunState;
  startedAt : option Z;
  completedAt : option Z;
  duration : option Z;
  result : option ScanResult.t;
  error : option string;
  logs : list string
}.

Definition pending (batchId : string) (i : nat) : t :=
  {| runIndex := i; runId := batchId +:+ "_run_" +:+ pretty i; status := RunPending;
     startedAt := None; completedAt := None; duration := None; result := None;
     error := None; logs := [] |}.

Definition start (now : Z) (r : t) : t :=
  {| runIndex := runIndex r; runId := runId r; status := RunRunning;
     startedAt := Some now; completedAt := completedAt r; duration := duration r;
     result := result r; error := error r; logs := logs r |}.

Definition complete (now : Z) (res : ScanResult.t) (r : t) : t :=
  {| runIndex := runIndex r; runId := runId r; status := RunCompleted;
     startedAt := startedAt r; completedAt := Some now;
     duration := Some (ScanResult.duration res); result := Some res;
     error := error r; logs := logs r |}.

Definition fail (now : Z) (message : string) (r : t) : t :=
  {| runIndex := runIndex r; runId := runId r; status := RunFailed;
     startedAt := startedAt r; completedAt := Some now; duration := duration r;
     result := result r; error := Some message; logs := logs r |}.
End RunStatus.

(** An element of [batch.runs]. *)
Module RunRecord.
Record t : Type := mk {
  runIndex : nat;
  runId : string;
  result : option ScanResult.t;
  error : option string;
  completedAt : Z
}.
End RunRecord.

(** [batch.progress].  The counters are JavaScript numbers that only
    ever hold integers. *)
Module Progress.
Record t : Type := mk {
  total : Z;
  completed : Z;
  running : Z;
  failed : Z
}.

Definition incrRunning (p : t) : t :=
  {| total := total p; completed := completed p; running := running p + 1;
     failed := failed p |}.
Definition decrRunning (p : t) : t :=
  {| total := total p; completed := completed p; running := running p - 1;
     failed := failed p |}.
Definition incrCompleted (p : t) : t :=
  {| total := total p; completed := completed p + 1; running := running p;
     failed := failed p |}.
Definition incrFailed (p : t) : t :=
  {| total := total p; completed := completed p; running := running p;
     failed := failed p + 1 |}.
End Progress.

(** The events published to the observers of a batch: the objects given
    to [JSON.stringify], by their [type] field. *)
Inductive Msg : Type :=
| batch_started (batchId : string) (total : Z)
| run_status_update (batchId : string) (runIndex : nat) (runId : string)
    (status : RunState) (startedAt completedAt duration : option Z)
    (result : option ScanResult.t) (error : option string)
| run_started (batchId : string) (runIndex : nat) (runId : string)
| run_completed (batchId : string) (runIndex : nat) (runId : string)
    (result : ScanResult.t)
| run_failed (batchId : string) (runIndex : nat) (runId : string) (error : string)
| stdout_line (runId line : string) (timestamp : Z)
| stderr_line (runId line : string) (timestamp : Z)
| markdown_generated (batchId runId reportPath : string)
| markdown_error (batchId runId error : string)
| batch_completed (batchId : string)
| batch_status (batchId : string) (status : BatchState) (progress : Progress.t)
    (runStatuses : list RunStatus.t).

(** A WebSocket connection is named by a number. *)
Definition Ws : Type := nat.

(** A batch object.  [clients] is the [Set] of subscribed connections in
    insertion order, which is the order [forEach] visits. *)
Module Batch.
Record t : Type := mk {
  id : string;
  config : Config.t;
  status : BatchState;
  createdAt : Z;
  startedAt : option Z;
  completedAt : option Z;
  runs : list RunRecord.t;
  runStatuses : list RunStatus.t;
  progress : Progress.t;
  clients : list Ws
}.

Definition setProgress (p : Progress.t) (b : t) : t :=
  {| id := id b; config := config b; status := status b; createdAt := createdAt b;
     startedAt := startedAt b; completedAt := completedAt b; runs := runs b;
     runStatuses := runStatuses b; progress := p; clients := clients b |}.

Definition setRunStatuses (l : list RunStatus.t) (b : t) : t :=
  {| id := id b; config := config b; status := status b; createdAt := createdAt b;
     startedAt := startedAt b; completedAt := completedAt b; runs := runs b;
     runStatuses := l; progress := progress b; clients := clients b |}.

Definition pushRun (r : RunRecord.t) (b : t) : t :=
  {| id := id b; config := config b; status := status b; createdAt := createdAt b;
     startedAt := startedAt b; completedAt := completedAt b; runs := runs b ++ [r];
     runStatuses := runStatuses b; progress := progress b; clients := clients b |}.

Definition setClients (l : list Ws) (b : t) : t :=
  {| id := id b; config := config b; status := status b; createdAt := createdAt b;
     startedAt := startedAt b; completedAt := completedAt b; runs := runs b;
     runStatuses := runStatuses b; progress := progress b; clients := l |}.

(** [batch.status = 'running'; batch.startedAt = Date.now()] *)
Definition markRunning (now : Z) (b : t) : t :=
  {| id := id b; config := config b; status := BatchRunning; createdAt := createdAt b;
     startedAt := Some now; completedAt := completedAt b; runs := runs b;
     runStatuses := runStatuses b; progress := progress b; clients := clients b |}.

(** [batch.status = 'completed'; batch.completedAt = Date.now()] *)
Definition markCompleted (now : Z) (b : t) : t :=
  {| id := id b; config := config b; status := BatchCompleted; createdAt := createdAt b;
     startedAt := startedAt b; completedAt := Some now; runs := runs b;
     runStatuses := runStatuses b; progress := progress b; clients := clients b |}.
End Batch.

(** The part of the file system under [ARTIFACTS_DIR]: the batch
    directories and the files in them, each file named by its directory
    and its base name.  Path normalisation by [path.join] is not
    modelled. *)
Module Fs.
Record t : Type := mk {
  dirs : gset string;
  files : gmap (string * string) string
}.

(** [fs.mkdirSync(dir, {recursive: true})] guarded by [existsSync]. *)
Definition ensureDir (dir : string) (fs : t) : t :=
  {| dirs := {[dir]} ∪ dirs fs; files := files fs |}.

(** [fs.writeFileSync(path, data)]: throws when the directory is
    missing. *)
Definition writeFileSync (dir name data : string) (fs : t) : Js.Completion t :=
  if decide (dir ∈ dirs fs)
  then Js.Normal {| dirs := dirs fs; files := <[(dir, name) := data]> (files fs) |}
  else Js.Throw ("ENOENT: no such file or directory, open " +:+ dir +:+ "/" +:+ name).
End Fs.

(** [readyState] of the [ws] library. *)
Definition WS_OPEN : Z := 1.
Definition WS_CLOSED : Z := 3.

(** A connection: its [readyState] and the batches whose [clients] set
    its registered ['close'] handlers delete it from. *)
Module Socket.
Record t : Type := mk {
  readyState : Z;
  closeHandlers : list string
}.
End Socket.

(** How the promise of the spawned executor settles: it resolves with
    an exit code, or rejects with an error that carries a message and,
    when the process did exit, the exit code (a non-zero exit, a signal
    or a spawn failure). *)
Inductive ExecOutcome : Type :=
| Resolved (exitCode : Z)
| Rejected (exitCode : option Z) (message : string).

(** ** The batch manager *)

Module Engine.
Import Js.

(** Where a [scheduleRun(batchId, runIndex)] task stands: in the
    admission loop, awaiting the executor inside [runScan] (with the
    locals of [runScan]), holding the settled promise of [runScan], or
    finished. *)
Inductive RunPc : Type :=
| Waiting
| Scanning (startTime : Z) (scriptRunId stdout stderr : string)
| Returned (r : Completion ScanResult.t)
| Done.

(** Where a [startBatch] call stands after its synchronous start. *)
Inductive CallPc : Type :=
| AwaitingAll      (* await Promise.allSettled(runPromises) *)
| Reporting        (* inside finalizeBatch, await generateMarkdownReports *)
| Finished.

#[export] Instance CallPc_eq_dec : EqDecision CallPc.
Proof. solve_decision. Defined.

(** A [startBatch(batchId)] call with its local [runPromises]:
    [runPromises[i]] is the task [scheduleRun(batchId, i)]. *)
Record StartCall : Type := mkCall {
  cbatch : string;
  runPromises : list RunPc;
  cpc : CallPc
}.

(** The [BatchManager] instance ([batches], [maxConcurrent]; the
    [activeScans] map is never read or written), the environment it acts
    on (file system, connections, the messages sent so far, oldest
    first), and the live asynchronous calls. *)
Record State : Type := mkState {
  batches : gmap string Batch.t;
  maxConcurrent : Z;
  fs : Fs.t;
  sockets : gmap Ws Socket.t;
  outbox : list (Ws * Msg);
  calls : list StartCall
}.

(** [new BatchManager()] in a given environment. *)
Definition newManager (files : Fs.t) (conns : gmap Ws Socket.t) : State :=
  {| batches := ∅; maxConcurrent := 3; fs := files; sockets := conns; outbox := [];
     calls := [] |}.

Definition setBatches (m : gmap string Batch.t) (s : State) : State :=
  {| batches := m; maxConcurrent := maxConcurrent s; fs := fs s; sockets := sockets s;
     outbox := outbox s; calls := calls s |}.
Definition setFs (f : Fs.t) (s : State) : State :=
  {| batches := batches s; maxConcurrent := maxConcurrent s; fs := f; sockets := sockets s;
     outbox := outbox s; calls := calls s |}.
Definition setSockets (m : gmap Ws Socket.t) (s : State) : State :=
  {| batches := batches s; maxConcurrent := maxConcurrent s; fs := fs s; sockets := m;
     outbox := outbox s; calls := calls s |}.
Definition setOutbox (o : list (Ws * Msg)) (s : State) : State :=
  {| batches := batches s; maxConcurrent := maxConcurrent s; fs := fs s;
     sockets := sockets s; outbox := o; calls := calls s |}.
Definition setCalls (l : list StartCall) (s : State) : State :=
  {| batches := batches s; maxConcurrent := maxConcurrent s; fs := fs s;
     sockets := sockets s; outbox := outbox s; calls := l |}.

(** *** Event bus *)

Definition readyStateOf (ws : Ws) (s : State) : option Z :=
  Socket.readyState <$> sockets s !! ws.

(** [ws.send(message)] *)
Definition send (ws : Ws) (message : Msg) (s : State) : State :=
  setOutbox (outbox s ++ [(ws, message)]) s.

(** [broadcastToBatch(batchId, data)] *)
Definition broadcastToBatch (batchId : string) (data : Msg) (s : State) : State :=
  match batches s !! batchId with
  | Some batch =>
      foldl (fun s ws => if decide (readyStateOf ws s = Some WS_OPEN) then send ws data s
                         else s)
            s (Batch.clients batch)
  | None => s
  end.

(** [batch.clients.add(ws)] *)
Definition addClient (ws : Ws) (l : list Ws) : list Ws :=
  if decide (ws ∈ l) then l else l ++ [ws].

(** [ws.on('close', handler)] *)
Definition onClose (ws : Ws) (batchId : string) (s : State) : State :=
  setSockets
    (alter (fun k => {| Socket.readyState := Socket.readyState k;
                        Socket.closeHandlers := Socket.closeHandlers k ++ [batchId] |})
           ws (sockets s)) s.

(** [subscribeClient(batchId, ws)] *)
Definition subscribeClient (batchId : string) (ws : Ws) (s : State) : State :=
  match batches s !! batchId with
  | Some batch =>
      let s := setBatches
                 (<[batchId := Batch.setClients (addClient ws (Batch.clients batch)) batch]>
                    (batches s)) s in
      let s := send ws (batch_status batchId (Batch.status batch) (Batch.progress batch)
                          (Batch.runStatuses batch)) s in
      onClose ws batchId s
  | None => s
  end.

(** The connection [ws] closes: its state becomes CLOSED and its
    ['close'] handlers run, each deleting [ws] from a [clients] set. *)
Definition closeSocket (ws : Ws) (s : State) : State :=
  match sockets s !! ws with
  | Some k =>
      let s := setSockets (<[ws := {| Socket.readyState := WS_CLOSED;
                                      Socket.closeHandlers := Socket.closeHandlers k |}]>
                             (sockets s)) s in
      foldl (fun s batchId =>
               setBatches
                 (alter (fun b => Batch.setClients
                                    (filter (fun w => w ≠ ws) (Batch.clients b)) b)
                        batchId (batches s)) s)
            s (Socket.closeHandlers k)
  | None => s
  end.

(** A synchronous stretch of a task works on the batch object it holds
    and hands events to [broadcastToBatch]; nothing else runs in
    between, so the stretch is the batch it leaves and the events it
    published, in order. *)
Definition publish (batchId : string) (events : list Msg) (s : State) : State :=
  foldl (fun s data => broadcastToBatch batchId data s) s events.

Definition commit (batchId : string) (e : Batch.t * list Msg) (s : State) : State :=
  publish batchId e.2 (setBatches (<[batchId := e.1]> (batches s)) s).

(** *** Batch registry *)

(** [`batch_${Date.now()}_${Math.random().toString(36).substr(2, 9)}_${config.tool}`];
    [rand] is the text of the random token. *)
Definition batchIdOf (now : Z) (rand : string) (cfg : Config.t) : string :=
  "batch_" +:+ pretty now +:+ "_" +:+ rand +:+ "_" +:+ Config.tool cfg.

(** The loop [for (let i = 0; i < config.repetitions; i++)
    runStatuses.push(...)]. *)
Definition initialRunStatuses (batchId : string) (repetitions : Z) : list RunStatus.t :=
  RunStatus.pending batchId <$> seq 0 (Z.to_nat repetitions).

Definition newBatch (now : Z) (rand : string) (cfg : Config.t) : Batch.t :=
  let batchId := batchIdOf now rand cfg in
  {| Batch.id := batchId; Batch.config := cfg; Batch.status := BatchCreated;
     Batch.createdAt := now; Batch.startedAt := None; Batch.completedAt := None;
     Batch.runs := [];
     Batch.runStatuses := initialRunStatuses batchId (Config.repetitions cfg);
     Batch.progress := {| Progress.total := Config.repetitions cfg; Progress.completed := 0;
                          Progress.running := 0; Progress.failed := 0 |};
     Batch.clients := [] |}.

(** [ensureBatchDirectory(batchId)] *)
Definition ensureBatchDirectory (batchId : string) (s : State) : State :=
  setFs (Fs.ensureDir batchId (fs s)) s.

(** [createBatch(config)]: how the call completes and the state after
    it.  The source has no branch that throws. *)
Definition createBatch (cfg : Config.t) (now : Z) (rand : string) (s : State)
  : Completion Batch.t * State :=
  let batch := newBatch now rand cfg in
  let s := setBatches (<[Batch.id batch := batch]> (batches s)) s in
  let s := ensureBatchDirectory (Batch.id batch) s in
  (Normal batch, s).

(** *** Process supervisor *)

Definition rawFileName (runId : string) : string := runId +:+ "_raw.txt".

(** The [catch (error)] block of [runScan]. *)
Definition runScan_catch (now : Z) (batchId runId : string) (startTime : Z)
    (scriptRunId out err : string) (exitCode : option Z) (message : string) (files : Fs.t)
  : Completion ScanResult.t * Fs.t :=
  match Fs.writeFileSync batchId (rawFileName runId) out files with
  | Normal files' =>
      (Normal {| ScanResult.runId := scriptRunId; ScanResult.exitCode := exitCode;
                 ScanResult.stdout := out; ScanResult.stderr := err;
                 ScanResult.error := Some message;
                 ScanResult.duration := now - startTime; ScanResult.success := false |},
       files')
  | Throw e => (Throw e, files)
  end.

(** [runScan] from the point where [await process] settles: how the
    promise of [runScan] settles, and the file system after. *)
Definition runScan_settle (now : Z) (batchId runId : string) (startTime : Z)
    (scriptRunId out err : string) (outcome : ExecOutcome) (files : Fs.t)
  : Completion ScanResult.t * Fs.t :=
  match outcome with
  | Resolved code =>
      match Fs.writeFileSync batchId (rawFileName runId) out files with
      | Normal files' =>
          (Normal {| ScanResult.runId := scriptRunId; ScanResult.exitCode := Some code;
                     ScanResult.stdout := out; ScanResult.stderr := err;
                     ScanResult.error := None;
                     ScanResult.duration := now - startTime; ScanResult.success := true |},
           files')
      | Throw e =>
          (* the write is inside the [try]: its error reaches the [catch] *)
          runScan_catch now batchId runId startTime scriptRunId out err None e files
      end
  | Rejected code message =>
      runScan_catch now batchId runId startTime scriptRunId out err code message files
  end.

(** *** Run scheduler *)

Definition runIdOf (batchId : string) (runIndex : nat) : string :=
  batchId +:+ "_run_" +:+ pretty runIndex.

Definition typeError : string := "TypeError: Cannot set properties of undefined".

Definition updProgress (f : Progress.t -> Progress.t) (b : Batch.t) : Batch.t :=
  Batch.setProgress (f (Batch.progress b)) b.

Definition updRunStatus (runIndex : nat) (f : RunStatus.t -> RunStatus.t) (b : Batch.t)
  : Batch.t :=
  Batch.setRunStatuses (alter f runIndex (Batch.runStatuses b)) b.

(** The [catch (error)] block of [scheduleRun].  Its first assignment
    to [batch.runStatuses[runIndex]] throws when there is no such slot,
    which leaves the block. *)
Definition scheduleRun_catch (now : Z) (batchId : string) (runIndex : nat)
    (message : string) (b : Batch.t) : Batch.t * list Msg :=
  let runId := runIdOf batchId runIndex in
  let b := updProgress Progress.incrFailed b in
  match Batch.runStatuses b !! runIndex with
  | None => (b, [])
  | Some _ =>
      let b := updRunStatus runIndex (RunStatus.fail now message) b in
      let b := Batch.pushRun {| RunRecord.runIndex := runIndex; RunRecord.runId := runId;
                                RunRecord.result := None; RunRecord.error := Some message;
                                RunRecord.completedAt := now |} b in
      (b, [run_status_update batchId runIndex runId RunFailed None (Some now) None None
             (Some message);
           run_failed batchId runIndex runId message])
  end.

(** The [finally] block of [scheduleRun]. *)
Definition scheduleRun_finally (b : Batch.t) : Batch.t :=
  updProgress Progress.decrRunning b.

(** [scheduleRun] from the exit of the admission loop to the [await]
    inside [runScan]. *)
Definition scheduleRun_admit (now : Z) (batchId : string) (runIndex : nat) (b : Batch.t)
  : Batch.t * list Msg * RunPc :=
  let b := updProgress Progress.incrRunning b in
  let runId := runIdOf batchId runIndex in
  match Batch.runStatuses b !! runIndex with
  | None =>
      let '(b, events) := scheduleRun_catch now batchId runIndex typeError b in
      (scheduleRun_finally b, events, Done)
  | Some _ =>
      let b := updRunStatus runIndex (RunStatus.start now) b in
      (b,
       [run_status_update batchId runIndex runId RunRunning (Some now) None None None None;
        run_started batchId runIndex runId],
       Scanning now (runId +:+ "_" +:+ pretty now) "" "")
  end.

(** One evaluation of the condition of the admission loop
    [while (batch.progress.running >= this.maxConcurrent)]: the task
    sleeps again or is admitted. *)
Definition scheduleRun_check (now cap : Z) (batchId : string) (runIndex : nat) (b : Batch.t)
  : Batch.t * list Msg * RunPc :=
  if Progress.running (Batch.progress b) >=? cap
  then (b, [], Waiting)
  else scheduleRun_admit now batchId runIndex b.

(** The [try] block of [scheduleRun] after [await this.runScan(...)]:
    the batch and events it leaves and the exception that left the
    block, if any. *)
Definition scheduleRun_try (now : Z) (batchId : string) (runIndex : nat)
    (r : Completion ScanResult.t) (b : Batch.t) : Batch.t * list Msg * option string :=
  let runId := runIdOf batchId runIndex in
  match r with
  | Throw e => (b, [], Some e)
  | Normal result =>
      let b := Batch.pushRun {| RunRecord.runIndex := runIndex; RunRecord.runId := runId;
                                RunRecord.result := Some result; RunRecord.error := None;
                                RunRecord.completedAt := now |} b in
      match Batch.runStatuses b !! runIndex with
      | None => (b, [], Some typeError)
      | Some _ =>
          let b := updRunStatus runIndex (RunStatus.complete now result) b in
          let b := updProgress Progress.incrCompleted b in
          (b,
           [run_status_update batchId runIndex runId RunCompleted None (Some now)
              (Some (ScanResult.duration result)) (Some result) None;
            run_completed batchId runIndex runId result],
           None)
      end
  end.

(** [scheduleRun] from the settled promise of [runScan] to its end. *)
Definition scheduleRun_resume (now : Z) (batchId : string) (runIndex : nat)
    (r : Completion ScanResult.t) (b : Batch.t) : Batch.t * list Msg :=
  let '(b, events, thrown) := scheduleRun_try now batchId runIndex r b in
  let '(b, events) :=
    match thrown with
    | Some message =>
        let '(b, more) := scheduleRun_catch now batchId runIndex message b in
        (b, events ++ more)
    | None => (b, events)
    end in
  (scheduleRun_finally b, events).

(** The loop of [startBatch] that calls [scheduleRun(batchId, i)] for
    [i] from [first]: each call runs up to its first [await]. *)
Fixpoint spawnRuns (now cap : Z) (batchId : string) (first count : nat) (b : Batch.t)
  : Batch.t * list Msg * list RunPc :=
  match count with
  | O => (b, [], [])
  | S count' =>
      let '(b, events, pc) := scheduleRun_check now cap batchId first b in
      let '(b, more, pcs) := spawnRuns now cap batchId (S first) count' b in
      (b, events ++ more, pc :: pcs)
  end.

(** [startBatch(batchId)] up to [await Promise.allSettled(runPromises)]. *)
Definition startBatch (batchId : string) (now : Z) (s : State) : Completion State :=
  match batches s !! batchId with
  | None => Throw ("Batch " +:+ batchId +:+ " not found")
  | Some batch =>
      let repetitions := Config.repetitions (Batch.config batch) in
      let b := Batch.markRunning now batch in
      let '(b, events, pcs) :=
        spawnRuns now (maxConcurrent s) batchId 0 (Z.to_nat repetitions) b in
      let s := commit batchId (b, batch_started batchId repetitions :: events) s in
      Normal (setCalls (calls s ++ [ {| cbatch := batchId; runPromises := pcs;
                                        cpc := AwaitingAll |} ]) s)
  end.

(** A ['data'] event of [process.stdout] or [process.stderr]. *)
Definition onStdout (now : Z) (batchId runId chunk : string) (s : State) : State :=
  broadcastToBatch batchId (stdout_line runId (trim chunk) now) s.

Definition onStderr (now : Z) (batchId runId chunk : string) (s : State) : State :=
  broadcastToBatch batchId (stderr_line runId (trim chunk) now) s.

(** [finalizeBatch(batchId)] up to [await this.generateMarkdownReports]. *)
Definition finalizeBatch_begin (now : Z) (b : Batch.t) : Batch.t * list Msg :=
  (Batch.markCompleted now b, []).

(** The events of [generateMarkdownReports], one per run that has a
    result, followed by the [batch_completed] of [finalizeBatch].
    Whether writing a report fails is decided by the file system and
    the report artifacts, given here as [failure]. *)
Definition reportEvent (batchId : string) (failure : string -> option string)
    (run : RunRecord.t) : list Msg :=
  match RunRecord.result run with
  | Some _ =>
      let runId := RunRecord.runId run in
      match failure runId with
      | None => [markdown_generated batchId runId
                   ("artifacts/" +:+ batchId +:+ "/" +:+ runId +:+ "_report.md")]
      | Some e => [markdown_error batchId runId e]
      end
  | None => []
  end.

Definition finalizeBatch_end (batchId : string) (failure : string -> option string)
    (b : Batch.t) : Batch.t * list Msg :=
  (b, concat (reportEvent batchId failure <$> Batch.runs b) ++ [batch_completed batchId]).

(** *** Interleaving of the asynchronous calls *)

Definition withRunPc (i : nat) (pc : RunPc) (k : StartCall) : StartCall :=
  {| cbatch := cbatch k; runPromises := <[i := pc]> (runPromises k); cpc := cpc k |}.

Definition withCallPc (pc : CallPc) (k : StartCall) : StartCall :=
  {| cbatch := cbatch k; runPromises := runPromises k; cpc := pc |}.

Definition setRunPc (c i : nat) (pc : RunPc) (s : State) : State :=
  setCalls (alter (withRunPc i pc) c (calls s)) s.

Definition setCallPc (c : nat) (pc : CallPc) (s : State) : State :=
  setCalls (alter (withCallPc pc) c (calls s)) s.

(** The task [i] of the call [c]: its batch (the object the task holds
    is the one registered under the call's identifier) and where it
    stands. *)
Definition taskAt (c i : nat) (s : State) : option (string * Batch.t * RunPc) :=
  k ← calls s !! c;
  pc ← runPromises k !! i;
  b ← batches s !! cbatch k;
  Some (cbatch k, b, pc).

(** One turn of the event loop.  Identifiers drawn by [createBatch] are
    taken to be fresh, as the timestamp and random token are meant to
    ensure. *)
Inductive step : State -> State -> Prop :=
| step_createBatch s cfg now rand :
    batches s !! batchIdOf now rand cfg = None ->
    step s (createBatch cfg now rand s).2
| step_startBatch s batchId now s' :
    startBatch batchId now s = Normal s' ->
    step s s'
| step_timer s c i batchId b now :
    taskAt c i s = Some (batchId, b, Waiting) ->
    step s (let '(b', events, pc) := scheduleRun_check now (maxConcurrent s) batchId i b in
            setRunPc c i pc (commit batchId (b', events) s))
| step_stdout s c i batchId b now startTime scriptRunId out err chunk :
    taskAt c i s = Some (batchId, b, Scanning startTime scriptRunId out err) ->
    step s (setRunPc c i (Scanning startTime scriptRunId (out +:+ chunk) err)
              (onStdout now batchId (runIdOf batchId i) chunk s))
| step_stderr s c i batchId b now startTime scriptRunId out err chunk :
    taskAt c i s = Some (batchId, b, Scanning startTime scriptRunId out err) ->
    step s (setRunPc c i (Scanning startTime scriptRunId out (err +:+ chunk))
              (onStderr now batchId (runIdOf batchId i) chunk s))
| step_settle s c i batchId b now startTime scriptRunId out err outcome :
    taskAt c i s = Some (batchId, b, Scanning startTime scriptRunId out err) ->
    step s (let '(r, files) := runScan_settle now batchId (runIdOf batchId i) startTime
                                 scriptRunId out err outcome (fs s) in
            setRunPc c i (Returned r) (setFs files s))
| step_resume s c i batchId b now r :
    taskAt c i s = Some (batchId, b, Returned r) ->
    step s (setRunPc c i Done (commit batchId (scheduleRun_resume now batchId i r b) s))
| step_finalize s c k b now :
    calls s !! c = Some k ->
    cpc k = AwaitingAll ->
    Forall (fun pc => pc = Done) (runPromises k) ->
    batches s !! cbatch k = Some b ->
    step s (setCallPc c Reporting (commit (cbatch k) (finalizeBatch_begin now b) s))
| step_reports s c k b failure files :
    calls s !! c = Some k ->
    cpc k = Reporting ->
    batches s !! cbatch k = Some b ->
    step s (setCallPc c Finished
              (commit (cbatch k) (finalizeBatch_end (cbatch k) failure b) (setFs files s)))
| step_subscribe s batchId ws :
    step s (subscribeClient batchId ws s)
| step_close s ws :
    step s (closeSocket ws s)
| step_connect s ws :
    sockets s !! ws = None ->
    step s (setSockets (<[ws := {| Socket.readyState := WS_OPEN;
                                   Socket.closeHandlers := [] |}]> (sockets s)) s)
| step_readyState s ws k st :
    sockets s !! ws = Some k ->
    step s (setSockets (<[ws := {| Socket.readyState := st;
                                   Socket.closeHandlers := Socket.closeHandlers k |}]>
                          (sockets s)) s)
| step_files s files :
    step s (setFs files s).

(** The states a manager can reach from its construction. *)
Definition reachable (s : State) : Prop :=
  exists files conns, rtc step (newManager files conns) s.

(** *** The event loop as a function

    The turns of [step], named by what triggers them: [fire] performs
    a turn when it is enabled. *)
Inductive Event : Type :=
| EvCreateBatch (cfg : Config.t) (now : Z) (rand : string)
| EvStartBatch (batchId : string) (now : Z)
| EvTimer (c i : nat) (now : Z)
| EvStdout (c i : nat) (now : Z) (chunk : string)
| EvStderr (c i : nat) (now : Z) (chunk : string)
| EvSettle (c i : nat) (now : Z) (outcome : ExecOutcome)
| EvResume (c i : nat) (now : Z)
| EvFinalize (c : nat) (now : Z)
| EvReports (c : nat) (failure : string -> option string) (files : Fs.t)
| EvSubscribe (batchId : string) (ws : Ws)
| EvClose (ws : Ws)
| EvConnect (ws : Ws)
| EvReadyState (ws : Ws) (st : Z)
| EvFiles (files : Fs.t).

Definition allDone (pcs : list RunPc) : bool :=
  forallb (fun pc => match pc with Done => true | _ => false end) pcs.

Definition fire (e : Event) (s : State) : option State :=
  match e with
  | EvCreateBatch cfg now rand =>
      match batches s !! batchIdOf now rand cfg with
      | None => Some (createBatch cfg now rand s).2
      | Some _ => None
      end
  | EvStartBatch batchId now =>
      match startBatch batchId now s with
      | Normal s' => Some s'
      | Throw _ => None
      end
  | EvTimer c i now =>
      match taskAt c i s with
      | Some (batchId, b, Waiting) =>
          Some (let '(b', events, pc) :=
                  scheduleRun_check now (maxConcurrent s) batchId i b in
                setRunPc c i pc (commit batchId (b', events) s))
      | _ => None
      end
  | EvStdout c i now chunk =>
      match taskAt c i s with
      | Some (batchId, b, Scanning startTime scriptRunId out err) =>
          Some (setRunPc c i (Scanning startTime scriptRunId (out +:+ chunk) err)
                  (onStdout now batchId (runIdOf batchId i) chunk s))
      | _ => None
      end
  | EvStderr c i now chunk =>
      match taskAt c i s with
      | Some (batchId, b, Scanning startTime scriptRunId out err) =>
          Some (setRunPc c i (Scanning startTime scriptRunId out (err +:+ chunk))
                  (onStderr now batchId (runIdOf batchId i) chunk s))
      | _ => None
      end
  | EvSettle c i now outcome =>
      match taskAt c i s with
      | Some (batchId, b, Scanning startTime scriptRunId out err) =>
          Some (let '(r, files) := runScan_settle now batchId (runIdOf batchId i) startTime
                                     scriptRunId out err outcome (fs s) in
                setRunPc c i (Returned r) (setFs files s))
      | _ => None
      end
  | EvResume c i now =>
      match taskAt c i s with
      | Some (batchId, b, Returned r) =>
          Some (setRunPc c i Done (commit batchId (scheduleRun_resume now batchId i r b) s))
      | _ => None
      end
  | EvFinalize c now =>
      match calls s !! c with
      | Some k =>
          match cpc k, batches s !! cbatch k with
          | AwaitingAll, Some b =>
              if allDone (runPromises k)
              then Some (setCallPc c Reporting
                           (commit (cbatch k) (finalizeBatch_begin now b) s))
              else None
          | _, _ => None
          end
      | None => None
      end
  | EvReports c failure files =>
      match calls s !! c with
      | Some k =>
          match cpc k, batches s !! cbatch k with
          | Reporting, Some b =>
              Some (setCallPc c Finished
                      (commit (cbatch k) (finalizeBatch_end (cbatch k) failure b)
                         (setFs files s)))
          | _, _ => None
          end
      | None => None
      end
  | EvSubscribe batchId ws => Some (subscribeClient batchId ws s)
  | EvClose ws => Some (closeSocket ws s)
  | EvConnect ws =>
      match sockets s !! ws with
      | None => Some (setSockets (<[ws := {| Socket.readyState := WS_OPEN;
                                             Socket.closeHandlers := [] |}]> (sockets s)) s)
      | Some _ => None
      end
  | EvReadyState ws st =>
      match sockets s !! ws with
      | Some k => Some (setSockets (<[ws := {| Socket.readyState := st;
                                               Socket.closeHandlers :=
                                                 Socket.closeHandlers k |}]>
                                      (sockets s)) s)
      | None => None
      end
  | EvFiles files => Some (setFs files s)
  end.

(** A schedule: the turns in the order the event loop takes them. *)
Fixpoint run (events : list Event) (s : State) : option State :=
  match events with
  | [] => Some s
  | e :: events' =>
      match fire e s with
      | Some s' => run events' s'
      | None => None
      end
  end.

(** *** Bookkeeping used to state the properties *)

Definition isScanning (pc : RunPc) : bool :=
  match pc with
  | Scanning _ _ _ _ => true
  | _ => false
  end.


(** A task holds a concurrency slot from its admission to its
    [finally] block. *)
Definition isActive (pc : RunPc) : bool :=
  match pc with
  | Scanning _ _ _ _ | Returned _ => true
  | Waiting | Done => false
  end.

Definition isDone (pc : RunPc) : bool :=
  match pc with
  | Done => true
  | _ => false
  end.

Definition isWaiting (pc : RunPc) : bool :=
  match pc with
  | Waiting => true
  | _ => false
  end.

Definition countPcs (p : RunPc -> bool) (pcs : list RunPc) : Z :=
  Z.of_nat (length (filter (fun pc => p pc = true) pcs)).

(** The number of tasks of the batch [batchId], over all [startBatch]
    calls on it, that satisfy [p]. *)
Fixpoint countTasks (p : RunPc -> bool) (batchId : string) (l : list StartCall) : Z :=
  match l with
  | [] => 0
  | k :: l' =>
      (if decide (cbatch k = batchId) then countPcs p (runPromises k) else 0)
      + countTasks p batchId l'
  end.

Definition ind (p : RunPc -> bool) (pc : RunPc) : Z := if p pc then 1 else 0.

(** What a stretch of [scheduleRun] never touches. *)
Definition sameShape (b b' : Batch.t) : Prop :=
  Batch.config b' = Batch.config b /\ Batch.status b' = Batch.status b /\
  length (Batch.runStatuses b') = length (Batch.runStatuses b) /\
  Progress.total (Batch.progress b') = Progress.total (Batch.progress b).

(** What one turn of the event loop does to the counters, the statuses
    and the tasks: the five kinds of turn. *)
Inductive summary (s s' : State) : Prop :=
| sum_env :
    maxConcurrent s' = maxConcurrent s ->
    calls s' = calls s ->
    (forall id, option_Forall2
                  (fun b b' => sameShape b b' /\ Batch.progress b' = Batch.progress b)
                  (batches s !! id) (batches s' !! id)) ->
    summary s s'
| sum_create id b :
    maxConcurrent s' = maxConcurrent s ->
    calls s' = calls s ->
    batches s !! id = None ->
    batches s' = <[id := b]> (batches s) ->
    Batch.status b = BatchCreated ->
    Batch.progress b = {| Progress.total := Config.repetitions (Batch.config b);
                          Progress.completed := 0; Progress.running := 0;
                          Progress.failed := 0 |} ->
    length (Batch.runStatuses b) = Z.to_nat (Config.repetitions (Batch.config b)) ->
    summary s s'
| sum_task c i k pc pc' b b' :
    maxConcurrent s' = maxConcurrent s ->
    calls s !! c = Some k ->
    runPromises k !! i = Some pc ->
    isDone pc = false ->
    calls s' = alter (withRunPc i pc') c (calls s) ->
    batches s !! cbatch k = Some b ->
    batches s' = <[cbatch k := b']> (batches s) ->
    sameShape b b' ->
    Progress.running (Batch.progress b')
      = Progress.running (Batch.progress b) + ind isActive pc' - ind isActive pc ->
    Progress.completed (Batch.progress b') + Progress.failed (Batch.progress b')
      = Progress.completed (Batch.progress b) + Progress.failed (Batch.progress b)
        + ind isDone pc' ->
    (Progress.running (Batch.progress b) <= maxConcurrent s ->
     Progress.running (Batch.progress b') <= maxConcurrent s) ->
    summary s s'
| sum_start id b b' pcs :
    maxConcurrent s' = maxConcurrent s ->
    batches s !! id = Some b ->
    batches s' = <[id := b']> (batches s) ->
    calls s' = calls s ++ [ {| cbatch := id; runPromises := pcs; cpc := AwaitingAll |} ] ->
    Batch.config b' = Batch.config b ->
    length (Batch.runStatuses b') = length (Batch.runStatuses b) ->
    Batch.status b' = BatchRunning ->
    length pcs = Z.to_nat (Config.repetitions (Batch.config b)) ->
    Progress.running (Batch.progress b')
      = Progress.running (Batch.progress b) + countPcs isActive pcs ->
    Progress.completed (Batch.progress b') + Progress.failed (Batch.progress b')
      = Progress.completed (Batch.progress b) + Progress.failed (Batch.progress b)
        + countPcs isDone pcs ->
    (Progress.running (Batch.progress b) <= maxConcurrent s ->
     Progress.running (Batch.progress b') <= maxConcurrent s) ->
    summary s s'
| sum_call c k pc' b b' :
    maxConcurrent s' = maxConcurrent s ->
    calls s !! c = Some k ->
    (cpc k = AwaitingAll -> Forall (fun pc => pc = Done) (runPromises k)) ->
    pc' <> AwaitingAll ->
    calls s' = alter (withCallPc pc') c (calls s) ->
    batches s !! cbatch k = Some b ->
    batches s' = <[cbatch k := b']> (batches s) ->
    Batch.config b' = Batch.config b ->
    length (Batch.runStatuses b') = length (Batch.runStatuses b) ->
    Batch.progress b' = Batch.progress b ->
    summary s s'.

(** The concurrency cap as an invariant. *)
Definition capInv (s : State) : Prop :=
  maxConcurrent s = 3 /\
  forall id b, batches s !! id = Some b ->
               Progress.running (Batch.progress b) <= maxConcurrent s.

(** The counters of a batch against the tasks of the calls on it. *)
Record accountInv (s : State) : Prop := {
  inv_registered : forall c k, calls s !! c = Some k -> is_Some (batches s !! cbatch k);
  inv_running : forall id b, batches s !! id = Some b ->
      Progress.running (Batch.progress b) = countTasks isActive id (calls s);
  inv_finished : forall id b, batches s !! id = Some b ->
      Progress.completed (Batch.progress b) + Progress.failed (Batch.progress b)
      = countTasks isDone id (calls s);
  inv_settled : forall c k, calls s !! c = Some k -> cpc k <> AwaitingAll ->
      Forall (fun pc => pc = Done) (runPromises k);
  inv_status : forall id b, batches s !! id = Some b -> Batch.status b = BatchCompleted ->
      exists c k, calls s !! c = Some k /\ cbatch k = id /\ cpc k <> AwaitingAll;
  inv_size : forall c k b, calls s !! c = Some k -> batches s !! cbatch k = Some b ->
      length (runPromises k) = Z.to_nat (Config.repetitions (Batch.config b));
  inv_slots : forall id b, batches s !! id = Some b ->
      length (Batch.runStatuses b) = Z.to_nat (Config.repetitions (Batch.config b))
}.

(** The [startBatch] calls made on a batch. *)
Definition callsOn (batchId : string) (s : State) : list StartCall :=
  filter (fun k => cbatch k = batchId) (calls s).


End Engine.

(** ** Sample configurations and schedules *)

Module Samples.
Import Engine.

Definition emptyFs : Fs.t := {| Fs.dirs := ∅; Fs.files := ∅ |}.

Definition fresh : State := newManager emptyFs ∅.

Definition zapConfig (repetitions : Z) : Config.t :=
  {| Config.tool := "zap"; Config.targetUrl := "http://juice-shop:3000";
     Config.repetitions := repetitions |}.


Definition zapId : string := "batch_1700000000000_k3j9x2m1q_zap".

Definition crash : ExecOutcome :=
  Rejected (Some 1) "Command failed with exit code 1: run_scan.sh".

(** Ten runs under a cap of three: three are admitted at the start and
    a fourth when the first has finished. *)
Definition tenRuns : list Event :=
  [ EvCreateBatch (zapConfig 10) 1700000000000 "k3j9x2m1q";
    EvStartBatch zapId 1700000000005;
    EvSettle 0 0 1700000000900 (Resolved 0);
    EvResume 0 0 1700000000901;
    EvTimer 0 3 1700000001005 ].


(** A batch of two runs, the first of which crashes, observed by one
    connection from its creation to its completion. *)
Definition crashingBatch : list Event :=
  [ EvCreateBatch (zapConfig 2) 1700000000000 "k3j9x2m1q";
    EvConnect 7%nat;
    EvSubscribe zapId 7%nat;
    EvStartBatch zapId 1700000000005;
    EvStdout 0 0 1700000000100 "WARN-NEW: Missing Anti-clickjacking Header [10020]";
    EvSettle 0 0 1700000000900 crash;
    EvResume 0 0 1700000000901;
    EvSettle 0 1 1700000000950 (Resolved 0);
    EvResume 0 1 1700000000951;
    EvFinalize 0 1700000000960;
    EvReports 0 (fun _ => None) emptyFs ].

(** The state a schedule leads to from a new manager, and whether every
    turn of the schedule is enabled when its time comes. *)
Definition after (events : list Event) : State :=
  default fresh (run events fresh).

Definition feasible (events : list Event) : bool :=
  match run events fresh with
  | Some _ => true
  | None => false
  end.

Definition sampleResult : ScanResult.t :=
  {| ScanResult.runId := "batch_1700000000000_k3j9x2m1q_zap_run_0_1700000000005";
     ScanResult.exitCode := Some 2; ScanResult.stdout := ""; ScanResult.stderr := "";
     ScanResult.error := None; ScanResult.duration := 2000; ScanResult.success := true |}.

Definition stampedMetadata : Metadata.t N :=
  {| Metadata.tool := Some "zap"; Metadata.target_url := Some "http://juice-shop:3000";
     Metadata.duration_seconds := Some 2%N;
     Metadata.timestamp := Some "2025-06-01T10:00:00.000Z" |}.

Definition unstampedMetadata : Metadata.t N :=
  {| Metadata.tool := Some "zap"; Metadata.target_url := Some "http://juice-shop:3000";
     Metadata.duration_seconds := Some 2%N; Metadata.timestamp := None |}.

End Samples.

(** ** Further operations of the manager and of its callers *)

(** [getBatchStatus]: the object it returns. *)
Module BatchSnapshot.
Record t : Type := mk {
  id : string;
  status : BatchState;
  progress : Progress.t;
  createdAt : Z;
  startedAt : option Z;
  completedAt : option Z;
  config : Config.t
}.
End BatchSnapshot.

Module Registry.
Import Engine.

(** [getBatchStatus(batchId)]; [None] is the [null] of the source. *)
Definition getBatchStatus (batchId : string) (s : State) : option BatchSnapshot.t :=
  match batches s !! batchId with
  | None => None
  | Some batch =>
      Some {| BatchSnapshot.id := Batch.id batch;
              BatchSnapshot.status := Batch.status batch;
              BatchSnapshot.progress := Batch.progress batch;
              BatchSnapshot.createdAt := Batch.createdAt batch;
              BatchSnapshot.startedAt := Batch.startedAt batch;
              BatchSnapshot.completedAt := Batch.completedAt batch;
              BatchSnapshot.config := Batch.config batch |}
  end.

End Registry.

(** The batch endpoints of the HTTP server: what each answers and the
    state of the manager after the request. *)
Module Api.
Import Js Engine.

Inductive Response : Type :=
| Created (batchId message : string)        (* 200 {success: true, batchId, message} *)
| Started (message : string)                (* 200 {success: true, message} *)
| Status (status : BatchSnapshot.t)         (* 200 {success: true, status} *)
| NotFound (error : string)                 (* 404 {success: false, error} *)
| ServerError (error : string).             (* 500 {success: false, error} *)

(** [POST /api/batch/create] *)
Definition createEndpoint (cfg : Config.t) (now : Z) (rand : string) (s : State)
  : Response * State :=
  match createBatch cfg now rand s with
  | (Normal batch, s') =>
      (Created (Batch.id batch)
         ("Batch created with " +:+ pretty (Config.repetitions cfg) +:+ " runs"), s')
  | (Throw e, s') => (ServerError e, s')
  end.

(** [POST /api/batch/:batchId/start].  [startBatch] is an [async]
    function: its exception is a rejection, which the handler only
    logs in [.catch], before it answers. *)
Definition startEndpoint (batchId : string) (now : Z) (s : State) : Response * State :=
  let s' := match startBatch batchId now s with
            | Normal s' => s'
            | Throw _ => s
            end in
  (Started ("Batch " +:+ batchId +:+ " started"), s').

(** [GET /api/batch/:batchId/status] *)
Definition statusEndpoint (batchId : string) (s : State) : Response :=
  match Registry.getBatchStatus batchId s with
  | None => NotFound ("Batch " +:+ batchId +:+ " not found")
  | Some status => Status status
  end.

End Api.

(** The report files that [generateMarkdownReport] lists. *)
Module Artifacts.
Import Js.

(** The [filter] predicate
    [file.includes(runId) && (file.endsWith('.json') || file.endsWith('.html'))]. *)
Definition isToolReport (runId file : string) : bool :=
  includes file runId && (endsWith file ".json" || endsWith file ".html").

(** [fs.readdirSync(batchDir).filter(...).map(file => `artifacts/${batchId}/${file}`)]
    on the listing that [readdirSync] returned. *)
Definition reportFilesOf (batchId runId : string) (listing : list string) : list string :=
  (fun file => "artifacts/" +:+ batchId +:+ "/" +:+ file)
    <$> filter (fun file => isToolReport runId file = true) listing.

End Artifacts.

(** The progress state of the page and its [onmessage] handler. *)
Module Ui.

Record Progress : Type := mkProgress {
  total : Z;
  completed : Z;
  running : Z;
  failed : Z;
  status : string
}.

(** [useState({total: 1, completed: 0, running: 0, failed: 0, status: 'ready'})] *)
Definition initial : Progress :=
  {| total := 1; completed := 0; running := 0; failed := 0; status := "ready" |}.

Definition statusText (st : BatchState) : string :=
  match st with
  | BatchCreated => "created"
  | BatchRunning => "running"
  | BatchCompleted => "completed"
  end.

(** The [setProgress] of each [case] of the [switch (data.type)]; the
    cases without one leave the progress as it is.  For [batch_status]
    the spread [{...prev, ...data}] replaces [status] and adds the keys
    [type], [batchId], [progress] and [runStatuses], none of which is a
    counter. *)
Definition onMessage (prev : Progress) (data : Msg) : Progress :=
  match data with
  | batch_started _ tot =>
      {| total := if decide (tot = 0) then total prev else tot;
         completed := completed prev; running := running prev; failed := failed prev;
         status := "running" |}
  | run_completed _ _ _ _ =>
      {| total := total prev; completed := completed prev + 1; running := running prev;
         failed := failed prev; status := status prev |}
  | run_failed _ _ _ _ =>
      {| total := total prev; completed := completed prev; running := running prev;
         failed := failed prev + 1; status := status prev |}
  | batch_completed _ =>
      {| total := total prev; completed := completed prev; running := running prev;
         failed := failed prev; status := "completed" |}
  | batch_status _ st _ _ =>
      {| total := total prev; completed := completed prev; running := running prev;
         failed := failed prev; status := statusText st |}
  | _ => prev
  end.

(** The progress after the messages received, oldest first. *)
Definition receive (prev : Progress) (messages : list Msg) : Progress :=
  foldl onMessage prev messages.

Definition isRunCompleted (data : Msg) : bool :=
  match data with run_completed _ _ _ _ => true | _ => false end.

Definition isRunFailed (data : Msg) : bool :=
  match data with run_failed _ _ _ _ => true | _ => false end.

End Ui.

(** ** Further bookkeeping *)

Module Ledger.
Import Js Engine.

(** The severity levels. *)
Definition severities : list string := ["HIGH"; "MEDIUM"; "LOW"; "INFO"].

(** The connections a broadcast to a batch reaches: its clients that
    are OPEN, in subscription order. *)
Definition recipients (b : Batch.t) (s : State) : list Ws :=
  filter (fun ws => readyStateOf ws s = Some WS_OPEN) (Batch.clients b).

(** A finding made from a line of the output of a tool: it names the
    tool, quotes the line trimmed, and has a severity of the scale. *)
Definition madeFrom (tl l : string) (f : Extractor.Finding) : Prop :=
  Extractor.tool f = tl /\ Extractor.line f = trim l /\
  Extractor.severity f ∈ severities.

(** What a task does to its batch in one turn. *)
Inductive taskTurn (cap : Z) (batchId : string) (i : nat) (b : Batch.t)
  : RunPc -> RunPc -> Batch.t -> Prop :=
| tt_timer now :
    taskTurn cap batchId i b Waiting
      (scheduleRun_check now cap batchId i b).2 (scheduleRun_check now cap batchId i b).1.1
| tt_data startTime scriptRunId out err out' err' :
    taskTurn cap batchId i b (Scanning startTime scriptRunId out err)
      (Scanning startTime scriptRunId out' err') b
| tt_settle startTime scriptRunId out err r :
    taskTurn cap batchId i b (Scanning startTime scriptRunId out err) (Returned r) b
| tt_resume now r :
    taskTurn cap batchId i b (Returned r) Done (scheduleRun_resume now batchId i r b).1.

(** What one turn of the event loop does to the batches and the calls,
    kind by kind, with the batch functions that it applies. *)
Inductive turn (s s' : State) : Prop :=
| turn_env :
    calls s' = calls s ->
    (forall id, option_Forall2 (fun b b' => exists l, b' = Batch.setClients l b /\
                                  (NoDup (Batch.clients b) -> NoDup l))
                  (batches s !! id) (batches s' !! id)) ->
    turn s s'
| turn_create cfg now rand :
    calls s' = calls s ->
    batches s !! batchIdOf now rand cfg = None ->
    batches s' = <[batchIdOf now rand cfg := newBatch now rand cfg]> (batches s) ->
    turn s s'
| turn_task c i k pc pc' b b' :
    calls s !! c = Some k ->
    runPromises k !! i = Some pc ->
    batches s !! cbatch k = Some b ->
    taskTurn (maxConcurrent s) (cbatch k) i b pc pc' b' ->
    calls s' = alter (withRunPc i pc') c (calls s) ->
    batches s' = <[cbatch k := b']> (batches s) ->
    turn s s'
| turn_start id now b b' events pcs :
    batches s !! id = Some b ->
    spawnRuns now (maxConcurrent s) id 0 (Z.to_nat (Config.repetitions (Batch.config b)))
      (Batch.markRunning now b) = (b', events, pcs) ->
    calls s' = calls s ++ [ {| cbatch := id; runPromises := pcs; cpc := AwaitingAll |} ] ->
    batches s' = <[id := b']> (batches s) ->
    turn s s'
| turn_finalize c k b now :
    calls s !! c = Some k ->
    cpc k = AwaitingAll ->
    batches s !! cbatch k = Some b ->
    calls s' = alter (withCallPc Reporting) c (calls s) ->
    batches s' = <[cbatch k := Batch.markCompleted now b]> (batches s) ->
    turn s s'
| turn_reports c k b :
    calls s !! c = Some k ->
    cpc k = Reporting ->
    batches s !! cbatch k = Some b ->
    calls s' = alter (withCallPc Finished) c (calls s) ->
    batches s' = <[cbatch k := b]> (batches s) ->
    turn s s'.

(** The identity of a run slot. *)
Definition sameSlot (rs rs' : RunStatus.t) : Prop :=
  RunStatus.runIndex rs' = RunStatus.runIndex rs /\
  RunStatus.runId rs' = RunStatus.runId rs.

(** What no operation changes in a batch: its identity, its
    configuration, the identity of its run slots; its clients stay
    without duplicates and its run records are only added to. *)
Definition evolves (b b' : Batch.t) : Prop :=
  Batch.id b' = Batch.id b /\ Batch.config b' = Batch.config b /\
  Batch.createdAt b' = Batch.createdAt b /\
  Progress.total (Batch.progress b') = Progress.total (Batch.progress b) /\
  Forall2 sameSlot (Batch.runStatuses b) (Batch.runStatuses b') /\
  (NoDup (Batch.clients b) -> NoDup (Batch.clients b')) /\
  Batch.runs b `prefix_of` Batch.runs b'.

(** A batch as the registry and the scheduler keep it. *)
Definition wellKept (batchId : string) (b : Batch.t) : Prop :=
  Batch.id b = batchId /\
  Progress.total (Batch.progress b) = Config.repetitions (Batch.config b) /\
  NoDup (Batch.clients b) /\
  forall i rs, Batch.runStatuses b !! i = Some rs ->
               RunStatus.runIndex rs = i /\ RunStatus.runId rs = runIdOf batchId i.

(** The run records with a result and those with an error. *)
Definition hasResult (r : RunRecord.t) : bool :=
  match RunRecord.result r with Some _ => true | None => false end.

Definition hasError (r : RunRecord.t) : bool :=
  match RunRecord.error r with Some _ => true | None => false end.

Definition countRuns (p : RunRecord.t -> bool) (b : Batch.t) : Z :=
  Z.of_nat (length (filter (fun r => p r = true) (Batch.runs b))).

(** The records of a batch against its result counters. *)
Definition tallied (b : Batch.t) : Prop :=
  countRuns hasResult b = Progress.completed (Batch.progress b) /\
  countRuns hasError b = Progress.failed (Batch.progress b) /\
  Forall (fun r => hasResult r = negb (hasError r)) (Batch.runs b).

(** The state of a run slot against the place of its task, in a batch
    that was started at most once. *)
Definition slotMatches (pc : option RunPc) (st : RunState) : Prop :=
  match pc with
  | None | Some Waiting => st = RunPending
  | Some (Scanning _ _ _ _) | Some (Returned _) => st = RunRunning
  | Some Done => st = RunCompleted \/ st = RunFailed
  end.

(** The task of run [i] of the batch, if a call was made on it. *)
Definition taskOf (batchId : string) (i : nat) (s : State) : option RunPc :=
  match callsOn batchId s with
  | k :: _ => runPromises k !! i
  | [] => None
  end.

(** The status of a batch against the [startBatch] calls made on it. *)
Definition statusKept (s : State) : Prop :=
  forall id b, batches s !! id = Some b ->
    match Batch.status b with
    | BatchCreated => callsOn id s = []
    | BatchRunning =>
        exists c k, calls s !! c = Some k /\ cbatch k = id /\ cpc k = AwaitingAll
    | BatchCompleted => True
    end.

(** The state of every run slot follows the place of its task, in the
    batches started at most once. *)
Definition slotsFollowTasks (s : State) : Prop :=
  forall id b, batches s !! id = Some b -> (length (callsOn id s) <= 1)%nat ->
    forall i rs, Batch.runStatuses b !! i = Some rs ->
      slotMatches (taskOf id i s) (RunStatus.status rs).



End Ledger.

(** * Properties *)

(** ** The regular expression matcher *)

Module RegexFacts.
Import Js Regex.

(** A quantifier loop returns what its continuation returns. *)
Lemma starGreedy_some {R} c s (k : string -> option R) x :
  starGreedy c s k = Some x -> exists rest, k rest = Some x.
Proof.
  induction s as [|a s IH]; simpl; intros Hm; [eauto|].
  destruct (inClass c a); [|eauto].
  destruct (starGreedy c s k) eqn:E; [|eauto].
  inversion Hm; subst. auto.
Qed.

Lemma starLazy_some {R} c s (k : string -> option R) x :
  starLazy c s k = Some x -> exists rest, k rest = Some x.
Proof.
  induction s as [|a s IH]; simpl; intros Hm.
  - destruct (k EmptyString) eqn:E; [inversion Hm; subst; eauto | discriminate].
  - destruct (k (String a s)) eqn:E; [inversion Hm; subst; eauto|].
    destruct (inClass c a); [auto | discriminate].
Qed.

Lemma oneOf_some {R} c s (k : string -> option R) x :
  oneOf c s k = Some x -> exists rest, k rest = Some x.
Proof.
  destruct s as [|a s]; simpl; [discriminate|].
  destruct (inClass c a); [eauto | discriminate].
Qed.

(** A successful match reaches its continuation with every group of
    [sets r] captured and no capture lost. *)
Lemma matchAt_sets {R} r :
  forall s caps (k : string -> captures -> option R) x,
    matchAt r s caps k = Some x ->
    exists rest caps',
      k rest caps' = Some x /\ length caps' = length caps /\
      forall n, (n < length caps)%nat -> n ∈ sets r \/ defined caps n -> defined caps' n.
Proof.
  induction r as [l|l|c|c|c|l|r1 IH1 r2 IH2|r1 IH1 r2 IH2|g r1 IH1|];
    intros s caps k x Hm; simpl in Hm.
  - destruct (stripPrefix l s); [|discriminate].
    exists s0, caps. split_and!; auto. intros n _ [Hin|Hd]; [inversion Hin | done].
  - destruct (stripPrefix_ci l s); [|discriminate].
    exists s0, caps. split_and!; auto. intros n _ [Hin|Hd]; [inversion Hin | done].
  - apply starGreedy_some in Hm as [rest Hk].
    exists rest, caps. split_and!; auto. intros n _ [Hin|Hd]; [inversion Hin | done].
  - apply oneOf_some in Hm as [s1 Hm]. apply starGreedy_some in Hm as [rest Hk].
    exists rest, caps. split_and!; auto. intros n _ [Hin|Hd]; [inversion Hin | done].
  - apply oneOf_some in Hm as [s1 Hm]. apply starLazy_some in Hm as [rest Hk].
    exists rest, caps. split_and!; auto. intros n _ [Hin|Hd]; [inversion Hin | done].
  - assert (exists rest, k rest caps = Some x) as [rest Hk].
    { destruct (stripPrefix_ci l s); [|eauto].
      destruct (k s0 caps) eqn:E; [inversion Hm; subst; eauto | eauto]. }
    exists rest, caps. split_and!; auto. intros n _ [Hin|Hd]; [inversion Hin | done].
  - assert (matchAt r1 s caps k = Some x \/ matchAt r2 s caps k = Some x) as [H|H].
    { destruct (matchAt r1 s caps k); [left; congruence | right; done]. }
    + apply IH1 in H as (rest & caps' & Hk & Hlen & Hdef).
      exists rest, caps'. split_and!; auto.
      intros n Hn [Hin|Hd]; [inversion Hin | auto].
    + apply IH2 in H as (rest & caps' & Hk & Hlen & Hdef).
      exists rest, caps'. split_and!; auto.
      intros n Hn [Hin|Hd]; [inversion Hin | auto].
  - apply IH1 in Hm as (rest1 & caps1 & Hm & Hlen1 & Hdef1).
    apply IH2 in Hm as (rest & caps' & Hk & Hlen & Hdef).
    exists rest, caps'. split_and!; [done | congruence |].
    intros n Hn [Hin|Hd].
    + apply elem_of_app in Hin as [Hin|Hin].
      * apply Hdef; [lia | right; apply Hdef1; auto].
      * apply Hdef; [lia | auto].
    + apply Hdef; [lia | right; apply Hdef1; auto].
  - apply IH1 in Hm as (rest & caps1 & Hk & Hlen & Hdef).
    exists rest, (<[g := Some (consumed s rest)]> caps1).
    split_and!; [done | by rewrite length_insert |].
    intros n Hn Hor. unfold defined.
    destruct (decide (n = g)) as [->|Hne].
    + rewrite list_lookup_insert_eq; [eauto | lia].
    + rewrite list_lookup_insert_ne; [|done].
      apply Hdef; [done|]. destruct Hor as [Hin|Hd]; [|auto].
      apply elem_of_cons in Hin as [?|?]; [done | auto].
  - destruct s; [|discriminate].
    exists EmptyString, caps. split_and!; auto. intros n _ [Hin|Hd]; [inversion Hin | done].
Qed.

Lemma matchHere_sets ngroups r s m n :
  matchHere ngroups r s = Some m -> (n <= ngroups)%nat -> n ∈ sets r -> defined m n.
Proof.
  unfold matchHere. intros Hm Hn Hin.
  apply matchAt_sets in Hm as (rest & caps' & Hk & Hlen & Hdef).
  inversion Hk; subst m. rewrite length_replicate in Hlen, Hdef.
  unfold defined. destruct n as [|n].
  - rewrite list_lookup_insert_eq; [eauto | lia].
  - rewrite list_lookup_insert_ne; [|done]. apply Hdef; [lia | auto].
Qed.

(** Every group of [sets r] is a string in the array that [match]
    returns. *)
Lemma exec_sets ngroups r s m n :
  exec ngroups r s = Some m -> (n <= ngroups)%nat -> n ∈ sets r -> defined m n.
Proof.
  induction s as [|a s IH]; simpl; intros Hm Hn Hin.
  - destruct (matchHere ngroups r EmptyString) eqn:E; [|discriminate].
    inversion Hm; subst. eapply matchHere_sets; eauto.
  - destruct (matchHere ngroups r (String a s)) eqn:E.
    + inversion Hm; subst. eapply matchHere_sets; eauto.
    + auto.
Qed.

Lemma groupText_defined m n :
  defined m n -> exists t, groupText m n = Normal t.
Proof. intros [t Ht]. unfold groupText. rewrite Ht. eauto. Qed.

End RegexFacts.

(** ** Findings extractor *)

Module ExtractorFacts.
Import Js Regex Extractor RegexFacts.

Lemma zapBaseline_normal line : exists fs, zapBaseline line = Normal fs.
Proof.
  unfold zapBaseline.
  destruct (includes line "WARN-NEW:" || includes line "FAIL-NEW:"); [|eauto].
  destruct (exec 1 zapTitleRe line) as [m|] eqn:E; [|simpl; eauto].
  destruct (groupText_defined m 1) as [t Ht].
  { eapply exec_sets; [exact E | lia | set_solver]. }
  rewrite Ht. simpl. eauto.
Qed.

Lemma niktoVuln_normal line : exists fs, niktoVuln line = Normal fs.
Proof.
  unfold niktoVuln.
  destruct (startsWith line "+"); [|eauto].
  destruct (exec 2 niktoVulnRe line) as [m|] eqn:E; [|eauto].
  destruct (groupText_defined m 2) as [d Hd].
  { eapply exec_sets; [exact E | lia | set_solver]. }
  destruct (groupText_defined m 1) as [i Hi].
  { eapply exec_sets; [exact E | lia | set_solver]. }
  rewrite Hd. simpl. destruct (niktoClassify d). rewrite Hi. simpl. eauto.
Qed.

Lemma zapLine_normal line : exists fs, zapLine line = Normal fs.
Proof.
  unfold zapLine. destruct (zapBaseline_normal line) as [fs ->]. simpl. eauto.
Qed.

Lemma niktoLine_normal line : exists fs, niktoLine line = Normal fs.
Proof.
  unfold niktoLine. destruct (niktoVuln_normal line) as [fs ->]. simpl. eauto.
Qed.

(** A loop whose body never throws never throws. *)
Lemma forLines_normal body lines :
  (forall l, exists fs, body l = Normal fs) ->
  exists fs, forLines body lines = Normal fs.
Proof.
  intros Hbody. induction lines as [|l ls [rest IH]]; simpl; [eauto|].
  destruct (Hbody l) as [fs ->]. simpl. rewrite IH. simpl. eauto.
Qed.

(** A loop whose body finds nothing on any line finds nothing. *)
Lemma forLines_nil body lines :
  (forall l, l ∈ lines -> body l = Normal []) ->
  forLines body lines = Normal [].
Proof.
  induction lines as [|l ls IH]; simpl; intros Hbody; [done|].
  rewrite Hbody by set_solver. simpl. rewrite IH; [done|].
  intros l' Hl'. apply Hbody. set_solver.
Qed.

Lemma zapLine_no_marker line :
  existsb (includes line) zapMarkers = false -> zapLine line = Normal [].
Proof.
  simpl. intros H. repeat (apply orb_false_elim in H as [? H]).
  unfold zapLine, zapBaseline, zapSummary, zapKeywords.
  repeat match goal with Hi : includes line _ = false |- _ => rewrite Hi; clear Hi end.
  reflexivity.
Qed.

Lemma niktoLine_no_marker line :
  startsWith line "+" || existsb (includes line) niktoMarkers = false ->
  niktoLine line = Normal [].
Proof.
  simpl. intros H. apply orb_false_elim in H as [Hp H].
  repeat (apply orb_false_elim in H as [? H]).
  unfold niktoLine, niktoVuln, niktoStats, niktoServerError. rewrite Hp.
  repeat match goal with Hi : includes line _ = false |- _ => rewrite Hi; clear Hi end.
  reflexivity.
Qed.

Lemma wapitiLine_no_marker line :
  existsb (includes line) wapitiMarkers = false -> wapitiLine line = Normal [].
Proof.
  simpl. intros H. repeat (apply orb_false_elim in H as [? H]).
  unfold wapitiLine.
  repeat match goal with Hi : includes line _ = false |- _ => rewrite Hi; clear Hi end.
  reflexivity.
Qed.

(** The title stops before trailing blanks, and a failure marker gives
    severity HIGH. *)
Example zap_fail_new_trailing_blanks :
  parseZapFindings "FAIL-NEW: Cookie No HttpOnly Flag   "
  = Normal [textFinding "HIGH" "Cookie No HttpOnly Flag" "zap" "baseline_finding"
              "FAIL-NEW: Cookie No HttpOnly Flag"].
Proof. vm_compute. reflexivity. Qed.

(** A marker with nothing after it matches no title. *)
Example zap_warn_new_without_title :
  parseZapFindings "WARN-NEW:"
  = Normal [textFinding "MEDIUM" "Unknown vulnerability" "zap" "baseline_finding"
              "WARN-NEW:"].
Proof. vm_compute. reflexivity. Qed.

(** One line can give several findings, in the order of the checks. *)
Example nikto_statistics_line :
  parseNiktoFindings "120 requests made, 500 errors"
  = Normal [textFinding "INFO" "Nikto scan statistics: 120 requests made" "nikto"
              "scan_stats" "120 requests made, 500 errors";
            textFinding "MEDIUM" "Server error or access restriction detected" "nikto"
              "server_error" "120 requests made, 500 errors"].
Proof. vm_compute. reflexivity. Qed.

(** C7. The ZAP text parser, given the single line
    [WARN-NEW: Missing Anti-clickjacking Header [10020]], yields exactly
    one finding; its severity is MEDIUM and its title is
    [Missing Anti-clickjacking Header]. *)
Theorem zap_warn_new_scenario :
  exists finding,
    parseFindingsFromStdout "WARN-NEW: Missing Anti-clickjacking Header [10020]" "zap"
      = Normal [finding] /\
    parseZapFindings "WARN-NEW: Missing Anti-clickjacking Header [10020]"
      = Normal [finding] /\
    severity finding = "MEDIUM" /\
    title finding = "Missing Anti-clickjacking Header".
Proof.
  eexists. split_and!; [vm_compute; reflexivity | vm_compute; reflexivity | done | done].
Qed.

(** C8. For every raw output and every tool identifier,
    [parseFindingsFromStdout] does not throw: it returns a list of
    findings.  For one of the three known tools the list is empty when
    no line of the output carries a marker of that tool, and for any
    other tool it is the single placeholder finding that points to the
    raw output. *)
Theorem parseFindingsFromStdout_never_throws (rawOutput tl : string) :
  (exists findings, parseFindingsFromStdout rawOutput tl = Normal findings) /\
  (tl ∈ ["zap"; "nikto"; "wapiti"] ->
   (forall l, l ∈ splitLines rawOutput -> hasMarker tl l = false) ->
   parseFindingsFromStdout rawOutput tl = Normal []) /\
  (tl ∉ ["zap"; "nikto"; "wapiti"] ->
   parseFindingsFromStdout rawOutput tl = Normal [placeholderFinding tl] /\
   line (placeholderFinding tl) = "Raw output available in artifacts").
Proof.
  unfold parseFindingsFromStdout, hasMarker. split_and!.
  - destruct (String.eqb tl "zap"); [apply forLines_normal, zapLine_normal|].
    destruct (String.eqb tl "nikto"); [apply forLines_normal, niktoLine_normal|].
    destruct (String.eqb tl "wapiti"); [|eauto].
    apply forLines_normal. intros l. unfold wapitiLine. eauto.
  - intros Hknown Hno.
    destruct (String.eqb tl "zap") eqn:Ez.
    { apply forLines_nil. intros l Hl. apply zapLine_no_marker, Hno, Hl. }
    destruct (String.eqb tl "nikto") eqn:En.
    { apply forLines_nil. intros l Hl. apply niktoLine_no_marker, Hno, Hl. }
    destruct (String.eqb tl "wapiti") eqn:Ew.
    { apply forLines_nil. intros l Hl. apply wapitiLine_no_marker, Hno, Hl. }
    apply String.eqb_neq in Ez, En, Ew. set_solver.
  - intros Hunknown.
    destruct (String.eqb tl "zap") eqn:Ez.
    { apply String.eqb_eq in Ez. set_solver. }
    destruct (String.eqb tl "nikto") eqn:En.
    { apply String.eqb_eq in En. set_solver. }
    destruct (String.eqb tl "wapiti") eqn:Ew.
    { apply String.eqb_eq in Ew. set_solver. }
    done.
Qed.

(** The empty output and a garbled line give no finding; an unknown
    tool gives the placeholder. *)
Lemma parseFindingsFromStdout_never_throws_witness :
  parseFindingsFromStdout "" "nikto" = Normal [] /\
  parseFindingsFromStdout "}{ not a scanner line" "zap" = Normal [] /\
  parseFindingsFromStdout "whatever" "arachni" = Normal [placeholderFinding "arachni"].
Proof.
  split_and!.
  - apply (parseFindingsFromStdout_never_throws "" "nikto"); [set_solver|].
    intros l Hl. vm_compute in Hl. apply list_elem_of_In in Hl.
    destruct Hl as [<-|[]]. reflexivity.
  - apply (parseFindingsFromStdout_never_throws "}{ not a scanner line" "zap"); [set_solver|].
    intros l Hl. vm_compute in Hl. apply list_elem_of_In in Hl.
    destruct Hl as [<-|[]]. reflexivity.
  - apply (parseFindingsFromStdout_never_throws "whatever" "arachni").
    intros H. repeat (apply elem_of_cons in H as [H|H]; [discriminate|]). inversion H.
Defined.

End ExtractorFacts.

(** ** Batch manager: the synchronous stretches *)

Module SegmentFacts.
Import Js Engine.

Abbreviation running b := (Progress.running (Batch.progress b)).
Abbreviation completed b := (Progress.completed (Batch.progress b)).
Abbreviation failed b := (Progress.failed (Batch.progress b)).

Lemma sameShape_refl b : sameShape b b.
Proof. by repeat split. Qed.

Lemma sameShape_trans b1 b2 b3 : sameShape b1 b2 -> sameShape b2 b3 -> sameShape b1 b3.
Proof. unfold sameShape. intros (?&?&?&?) (?&?&?&?). split_and!; congruence. Qed.

Lemma catch_spec now batchId i message b b' events :
  scheduleRun_catch now batchId i message b = (b', events) ->
  sameShape b b' /\ running b' = running b /\ completed b' = completed b /\
  failed b' = failed b + 1.
Proof.
  unfold scheduleRun_catch, sameShape. simpl.
  destruct (Batch.runStatuses b !! i); intros [= <- <-]; simpl;
    rewrite ?length_alter; split_and!; reflexivity.
Qed.

Lemma admit_spec now batchId i b b' events pc :
  scheduleRun_admit now batchId i b = (b', events, pc) ->
  sameShape b b' /\ pc <> Waiting /\
  running b' = running b + ind isActive pc /\
  completed b' + failed b' = completed b + failed b + ind isDone pc.
Proof.
  unfold scheduleRun_admit, scheduleRun_catch, scheduleRun_finally, sameShape, ind. simpl.
  destruct (Batch.runStatuses b !! i); intros [= <- <- <-]; simpl;
    rewrite ?length_alter; split_and!; try done; lia.
Qed.

Lemma check_spec now cap batchId i b b' events pc :
  scheduleRun_check now cap batchId i b = (b', events, pc) ->
  sameShape b b' /\
  running b' = running b + ind isActive pc /\
  completed b' + failed b' = completed b + failed b + ind isDone pc /\
  (running b <= cap -> running b' <= cap) /\
  (running b < cap -> pc <> Waiting) /\
  (cap <= running b -> pc = Waiting /\ b' = b /\ events = []).
Proof.
  unfold scheduleRun_check. destruct (running b >=? cap) eqn:E.
  - intros [= <- <- <-]. apply Z.geb_le in E. unfold ind. simpl.
    split_and!; try done; try lia; apply sameShape_refl.
  - intros H. apply admit_spec in H as (Hs & Hw & Hr & Hc).
    assert (running b < cap) by (rewrite Z.geb_leb in E; apply Z.leb_gt in E; lia).
    split_and!; try done; try lia.
    unfold ind in Hr. destruct (isActive pc); lia.
Qed.

Lemma resume_spec now batchId i r b b' events :
  scheduleRun_resume now batchId i r b = (b', events) ->
  sameShape b b' /\ running b' = running b - 1 /\
  completed b' + failed b' = completed b + failed b + 1.
Proof.
  unfold scheduleRun_resume, scheduleRun_try, scheduleRun_catch, scheduleRun_finally,
    sameShape.
  destruct r as [res|e]; simpl.
  - destruct (Batch.runStatuses b !! i); simpl;
      [|destruct (Batch.runStatuses b !! i)]; intros [= <- <-]; simpl;
      rewrite ?length_alter; split_and!; try done; lia.
  - destruct (Batch.runStatuses b !! i); intros [= <- <-]; simpl;
      rewrite ?length_alter; split_and!; try done; lia.
Qed.

(** The end of a task moves exactly one of the two result counters,
    once, and gives its slot back, once. *)
Lemma resume_one_counter now batchId i r b :
  running (scheduleRun_resume now batchId i r b).1 = running b - 1 /\
  ((completed (scheduleRun_resume now batchId i r b).1 = completed b + 1 /\
    failed (scheduleRun_resume now batchId i r b).1 = failed b) \/
   (completed (scheduleRun_resume now batchId i r b).1 = completed b /\
    failed (scheduleRun_resume now batchId i r b).1 = failed b + 1)).
Proof.
  unfold scheduleRun_resume, scheduleRun_try, scheduleRun_catch, scheduleRun_finally.
  destruct r as [res|e]; simpl.
  - destruct (Batch.runStatuses b !! i); simpl; [auto|].
    destruct (Batch.runStatuses b !! i); simpl; auto.
  - destruct (Batch.runStatuses b !! i); simpl; auto.
Qed.

Lemma spawn_spec now cap batchId count : forall first b b' events pcs,
  spawnRuns now cap batchId first count b = (b', events, pcs) ->
  sameShape b b' /\ length pcs = count /\
  running b' = running b + countPcs isActive pcs /\
  completed b' + failed b' = completed b + failed b + countPcs isDone pcs /\
  (running b <= cap -> running b' <= cap).
Proof.
  induction count as [|count IH]; simpl; intros first b b' events pcs.
  - intros [= <- <- <-]. unfold countPcs. simpl.
    split_and!; try done; try lia; apply sameShape_refl.
  - destruct (scheduleRun_check now cap batchId first b) as [[b1 ev1] pc] eqn:E1.
    destruct (spawnRuns now cap batchId (S first) count b1) as [[b2 ev2] pcs2] eqn:E2.
    intros [= <- <- <-].
    apply check_spec in E1 as (Hs1 & Hr1 & Hc1 & Hb1 & _).
    apply IH in E2 as (Hs2 & Hl2 & Hr2 & Hc2 & Hb2).
    assert (Hcount : forall p, countPcs p (pc :: pcs2) = ind p pc + countPcs p pcs2).
    { intros p. unfold countPcs, ind. rewrite filter_cons.
      destruct (decide (p pc = true)) as [->|Hn]; simpl; [lia|].
      destruct (p pc); [done | lia]. }
    rewrite !Hcount.
    split_and!; [eapply sameShape_trans; eauto | simpl; lia | lia | lia | auto].
Qed.

End SegmentFacts.

(** ** Batch manager: one turn of the event loop *)

Module StepFacts.
Import Js Engine SegmentFacts.

(** Sending and broadcasting only extend the outbox. *)
Lemma broadcast_frame batchId data s :
  batches (broadcastToBatch batchId data s) = batches s /\
  maxConcurrent (broadcastToBatch batchId data s) = maxConcurrent s /\
  fs (broadcastToBatch batchId data s) = fs s /\
  sockets (broadcastToBatch batchId data s) = sockets s /\
  calls (broadcastToBatch batchId data s) = calls s.
Proof.
  unfold broadcastToBatch. destruct (batches s !! batchId) as [b|]; [|done].
  generalize (Batch.clients b). intros l. revert s.
  induction l as [|ws l IH]; intros s; simpl; [done|].
  destruct (IH (if decide (readyStateOf ws s = Some WS_OPEN) then send ws data s else s))
    as (-> & -> & -> & -> & ->).
  by destruct (decide (readyStateOf ws s = Some WS_OPEN)).
Qed.

Lemma publish_frame batchId events s :
  batches (publish batchId events s) = batches s /\
  maxConcurrent (publish batchId events s) = maxConcurrent s /\
  fs (publish batchId events s) = fs s /\
  sockets (publish batchId events s) = sockets s /\
  calls (publish batchId events s) = calls s.
Proof.
  unfold publish. revert s. induction events as [|e events IH]; intros s; simpl; [done|].
  destruct (IH (broadcastToBatch batchId e s)) as (-> & -> & -> & -> & ->).
  apply broadcast_frame.
Qed.

Lemma commit_frame batchId e s :
  batches (commit batchId e s) = <[batchId := e.1]> (batches s) /\
  maxConcurrent (commit batchId e s) = maxConcurrent s /\
  fs (commit batchId e s) = fs s /\
  sockets (commit batchId e s) = sockets s /\
  calls (commit batchId e s) = calls s.
Proof.
  unfold commit.
  destruct (publish_frame batchId e.2 (setBatches (<[batchId:=e.1]> (batches s)) s))
    as (-> & -> & -> & -> & ->).
  done.
Qed.

Lemma taskAt_Some c i s batchId b pc :
  taskAt c i s = Some (batchId, b, pc) ->
  exists k, calls s !! c = Some k /\ cbatch k = batchId /\
            runPromises k !! i = Some pc /\ batches s !! batchId = Some b.
Proof.
  unfold taskAt. intros H.
  destruct (calls s !! c) as [k|] eqn:Ek; simpl in H; [|done].
  destruct (runPromises k !! i) as [pc'|] eqn:Ei; simpl in H; [|done].
  destruct (batches s !! cbatch k) as [b'|] eqn:Eb; simpl in H; [|done].
  inversion H; subst. eauto.
Qed.

(** A turn that leaves the counters, the statuses and the tasks alone. *)
Lemma summary_same s s' :
  maxConcurrent s' = maxConcurrent s -> calls s' = calls s -> batches s' = batches s ->
  summary s s'.
Proof.
  intros Hm Hc Hb. apply sum_env; [done | done |].
  intros id. rewrite Hb. destruct (batches s !! id); constructor.
  split; [by repeat split | done].
Qed.

(** A turn of a task that does not touch its batch. *)
Lemma summary_task_same s s' c i k pc pc' b :
  maxConcurrent s' = maxConcurrent s ->
  calls s !! c = Some k -> runPromises k !! i = Some pc ->
  isActive pc = true -> isActive pc' = true ->
  calls s' = alter (withRunPc i pc') c (calls s) ->
  batches s !! cbatch k = Some b -> batches s' = batches s ->
  summary s s'.
Proof.
  intros Hm Hk Hi Hpc Hpc' Hc Hb Hbs.
  eapply (sum_task s s' c i k pc pc' b b); try done.
  - by destruct pc.
  - rewrite Hbs. symmetry. by apply insert_id.
  - unfold ind. rewrite Hpc, Hpc'. lia.
  - unfold ind. destruct pc'; simpl in *; try done; lia.
Qed.

Lemma closeSocket_frame ws s :
  maxConcurrent (closeSocket ws s) = maxConcurrent s /\
  calls (closeSocket ws s) = calls s /\
  forall id, option_Forall2
               (fun b b' => sameShape b b' /\ Batch.progress b' = Batch.progress b)
               (batches s !! id) (batches (closeSocket ws s) !! id).
Proof.
  unfold closeSocket. destruct (sockets s !! ws) as [k|].
  2:{ split_and!; try done. intros id. destruct (batches s !! id); constructor.
      split; [by repeat split | done]. }
  set (s0 := setSockets _ s).
  assert (H0 : maxConcurrent s0 = maxConcurrent s /\ calls s0 = calls s /\
               batches s0 = batches s) by done.
  destruct H0 as (Hm & Hc & Hb). rewrite <- Hm, <- Hc, <- Hb. clearbody s0. clear.
  generalize (Socket.closeHandlers k). intros l. revert s0.
  induction l as [|h l IH]; intros s0; simpl.
  { split_and!; try done. intros id. destruct (batches s0 !! id); constructor.
    split; [by repeat split | done]. }
  destruct (IH (setBatches
                  (alter (fun b => Batch.setClients (filter (fun w => w ≠ ws) (Batch.clients b)) b)
                         h (batches s0)) s0)) as (-> & -> & Hrest).
  split_and!; try done. intros id. specialize (Hrest id). simpl in Hrest.
  rewrite lookup_alter in Hrest. case_decide; [subst|done].
  destruct (batches s0 !! id) as [b0|]; simpl in *;
    inversion Hrest as [? ? [(?&?&?&?) ?]|]; subst; constructor.
  split; [by repeat split | done].
Qed.

(** Every turn of the event loop is of one of the five kinds. *)
Lemma step_summary s s' : step s s' -> summary s s'.
Proof.
  destruct 1.
  - (* createBatch *)
    eapply (sum_create _ _ (batchIdOf now rand cfg) (newBatch now rand cfg)); try done.
    simpl. unfold initialRunStatuses. by rewrite length_fmap, length_seq.
  - (* startBatch *)
    unfold startBatch in H. destruct (batches s !! batchId) as [b|] eqn:Eb; [|done].
    destruct (spawnRuns _ _ _ _ _ _) as [[b' events] pcs] eqn:Es.
    inversion H; subst s'; clear H.
    apply spawn_spec in Es as ((Hcfg & Hst & Hlen & Htot) & Hl & Hr & Hc & Hbound).
    destruct (commit_frame batchId (b', batch_started batchId
                (Config.repetitions (Batch.config b)) :: events) s)
      as (Hb' & Hm' & _ & _ & Hc').
    eapply (sum_start _ _ batchId b b' pcs); simpl; try done.
    + by rewrite Hc'.
  - (* timer *)
    apply taskAt_Some in H as (k & Hk & <- & Hi & Hb).
    destruct (scheduleRun_check _ _ _ _ _) as [[b' events] pc] eqn:Ec.
    apply check_spec in Ec as (Hs & Hr & Hc & Hbound & _).
    destruct (commit_frame (cbatch k) (b', events) s) as (Hb' & Hm' & _ & _ & Hc').
    eapply (sum_task _ _ c i k Waiting pc b b'); simpl; try done;
      try (by rewrite Hc'); unfold ind at 2; simpl; lia.
  - (* stdout *)
    apply taskAt_Some in H as (k & Hk & <- & Hi & Hb).
    destruct (broadcast_frame (cbatch k)
                (stdout_line (runIdOf (cbatch k) i) (trim chunk) now) s)
      as (Hb' & Hm' & _ & _ & Hc').
    unfold onStdout.
    eapply (summary_task_same _ _ c i k _
              (Scanning startTime scriptRunId (out +:+ chunk) err) b); simpl; try done.
    by rewrite Hc'.
  - (* stderr *)
    apply taskAt_Some in H as (k & Hk & <- & Hi & Hb).
    destruct (broadcast_frame (cbatch k)
                (stderr_line (runIdOf (cbatch k) i) (trim chunk) now) s)
      as (Hb' & Hm' & _ & _ & Hc').
    unfold onStderr.
    eapply (summary_task_same _ _ c i k _
              (Scanning startTime scriptRunId out (err +:+ chunk)) b); simpl; try done.
    by rewrite Hc'.
  - (* settle *)
    apply taskAt_Some in H as (k & Hk & <- & Hi & Hb).
    destruct (runScan_settle _ _ _ _ _ _ _ _ _) as [r files].
    eapply (summary_task_same _ _ c i k _ (Returned r) b); simpl; try done.
  - (* resume *)
    apply taskAt_Some in H as (k & Hk & <- & Hi & Hb).
    destruct (scheduleRun_resume now (cbatch k) i r b) as [b' events] eqn:Er.
    apply resume_spec in Er as (Hs & Hr & Hc).
    destruct (commit_frame (cbatch k) (b', events) s) as (Hb' & Hm' & _ & _ & Hc').
    eapply (sum_task _ _ c i k (Returned r) Done b b'); simpl; try done;
      try (by rewrite Hc'); unfold ind; simpl; lia.
  - (* finalize *)
    destruct (commit_frame (cbatch k) (finalizeBatch_begin now b) s)
      as (Hb' & Hm' & _ & _ & Hc').
    eapply (sum_call _ _ c k Reporting b (Batch.markCompleted now b)); simpl; try done;
      by rewrite Hc'.
  - (* reports *)
    destruct (commit_frame (cbatch k) (finalizeBatch_end (cbatch k) failure b)
                (setFs files s)) as (Hb' & Hm' & _ & _ & Hc').
    eapply (sum_call _ _ c k Finished b b); simpl; try done;
      try (by rewrite Hc'); try (by rewrite H0).
  - (* subscribe *)
    unfold subscribeClient. destruct (batches s !! batchId) as [b|] eqn:Eb.
    2:{ by apply summary_same. }
    apply sum_env; simpl; try done.
    intros id. rewrite lookup_insert. case_decide; [subst|].
    + rewrite Eb. constructor. split; [by repeat split | done].
    + destruct (batches s !! id); constructor. split; [by repeat split | done].
  - (* close *)
    destruct (closeSocket_frame ws s) as (? & ? & ?). by apply sum_env.
  - by apply summary_same.
  - by apply summary_same.
  - by apply summary_same.
Qed.

End StepFacts.

(** ** Batch manager: counting tasks *)

Module CountFacts.
Import Engine.

Lemma countPcs_cons p pc pcs : countPcs p (pc :: pcs) = ind p pc + countPcs p pcs.
Proof.
  unfold countPcs, ind. rewrite filter_cons.
  destruct (decide (p pc = true)) as [->|Hn]; simpl; [lia|].
  destruct (p pc); [done | lia].
Qed.

Lemma countPcs_nonneg p pcs : 0 <= countPcs p pcs.
Proof. unfold countPcs. lia. Qed.

Lemma countPcs_insert p pcs : forall i pc pc',
  pcs !! i = Some pc -> countPcs p (<[i := pc']> pcs) = countPcs p pcs + ind p pc' - ind p pc.
Proof.
  induction pcs as [|x pcs IH]; intros [|i] pc pc' Hi; simpl in *; try done.
  - inversion Hi; subst. rewrite !countPcs_cons. lia.
  - rewrite !countPcs_cons. rewrite (IH i pc pc' Hi). lia.
Qed.

(** All tasks are done exactly when none is counted otherwise. *)
Lemma countPcs_all_done pcs :
  Forall (fun pc => pc = Done) pcs ->
  countPcs isDone pcs = Z.of_nat (length pcs) /\ countPcs isActive pcs = 0.
Proof.
  induction 1 as [|pc pcs -> _ [IH1 IH2]]; [done|].
  rewrite !countPcs_cons, IH1, IH2. unfold ind. simpl. lia.
Qed.

Lemma countTasks_app p id l1 l2 :
  countTasks p id (l1 ++ l2) = countTasks p id l1 + countTasks p id l2.
Proof. induction l1 as [|k l1 IH]; simpl; [done|]. rewrite IH. lia. Qed.

Lemma countTasks_nonneg p id l : 0 <= countTasks p id l.
Proof.
  induction l as [|k l IH]; simpl; [done|].
  pose proof (countPcs_nonneg p (runPromises k)). case_decide; lia.
Qed.

Lemma countTasks_none p id l :
  (forall c k, l !! c = Some k -> cbatch k <> id) -> countTasks p id l = 0.
Proof.
  induction l as [|k l IH]; simpl; intros H; [done|].
  rewrite IH by (intros c k' Hc; apply (H (S c)); done).
  pose proof (H 0%nat k eq_refl). case_decide; [done | lia].
Qed.

Lemma countTasks_withRunPc p id l : forall c k i pc pc',
  l !! c = Some k -> runPromises k !! i = Some pc ->
  countTasks p id (alter (withRunPc i pc') c l)
  = countTasks p id l + (if decide (cbatch k = id) then ind p pc' - ind p pc else 0).
Proof.
  induction l as [|x l IH]; intros [|c] k i pc pc' Hc Hi; simpl in *; try done.
  - inversion Hc; subst. case_decide; [|lia].
    rewrite (countPcs_insert p _ i pc pc' Hi). lia.
  - change (list_alter (withRunPc i pc') c l) with (alter (withRunPc i pc') c l).
    rewrite (IH c k i pc pc' Hc Hi). lia.
Qed.

Lemma countTasks_withCallPc p id l c pc' :
  countTasks p id (alter (withCallPc pc') c l) = countTasks p id l.
Proof.
  revert c. induction l as [|x l IH]; intros [|c]; simpl; try done.
  change (list_alter (withCallPc pc') c l) with (alter (withCallPc pc') c l).
  by rewrite IH.
Qed.

(** With a single call on a batch, its tasks are all the tasks. *)
Lemma countTasks_single p id l c k :
  l !! c = Some k -> cbatch k = id ->
  length (filter (fun k => cbatch k = id) l) = 1%nat ->
  countTasks p id l = countPcs p (runPromises k).
Proof.
  revert c. induction l as [|x l IH]; intros [|c] Hc Hid Hone; simpl in *; try done.
  - inversion Hc; subst x. rewrite filter_cons in Hone.
    rewrite decide_True in Hone by done. rewrite decide_True by done.
    simpl in Hone. rewrite countTasks_none; [lia|].
    intros c' k' Hk' Hid'.
    assert (k' ∈ filter (fun k => cbatch k = id) l) as Hin.
    { apply list_elem_of_filter. split; [done|]. by eapply list_elem_of_lookup_2. }
    destruct (filter (fun k => cbatch k = id) l); [inversion Hin | simpl in Hone; lia].
  - rewrite filter_cons in Hone. case_decide as Hx.
    + simpl in Hone.
      assert (k ∈ filter (fun k => cbatch k = id) l) as Hin.
      { apply list_elem_of_filter. split; [done|]. by eapply list_elem_of_lookup_2. }
      destruct (filter (fun k => cbatch k = id) l); [inversion Hin | simpl in Hone; lia].
    + rewrite (IH c Hc Hid Hone). lia.
Qed.

End CountFacts.

(** ** Batch manager: invariants of the reachable states *)

Module InvariantFacts.
Import Engine SegmentFacts StepFacts CountFacts.

Lemma reachable_init files conns : reachable (newManager files conns).
Proof. exists files, conns. done. Qed.

Lemma reachable_step s s' : reachable s -> step s s' -> reachable s'.
Proof. intros (files & conns & H) Hs. exists files, conns. by eapply rtc_r. Qed.

Lemma reachable_rtc s s' : reachable s -> rtc step s s' -> reachable s'.
Proof. intros (files & conns & H) Hs. exists files, conns. by etrans. Qed.

(** A property of the initial states that every turn preserves holds in
    every reachable state. *)
Lemma reachable_ind (P : State -> Prop) :
  (forall files conns, P (newManager files conns)) ->
  (forall s s', reachable s -> P s -> step s s' -> P s') ->
  forall s, reachable s -> P s.
Proof.
  intros Hinit Hstep s (files & conns & H).
  eapply (rtc_ind_r P (newManager files conns)); [apply Hinit | | exact H].
  intros y z Hy Hyz IH. apply (Hstep y z); [by exists files, conns | done | done].
Qed.

(** *** The concurrency cap *)

Lemma capInv_summary s s' : summary s s' -> capInv s -> capInv s'.
Proof.
  intros Hsum [Hcap Hb].
  destruct Hsum as [Hm Hc Hbs | id b Hm Hc Hfresh Hbs Hst Hpr Hlen
                   | c i k pc pc' b b' Hm Hk Hi Hnd Hc Hb0 Hbs Hsh Hr Hcf Hbound
                   | id b b' pcs Hm Hb0 Hbs Hc Hcfg Hlen Hst Hpcs Hr Hcf Hbound
                   | c k pc' b b' Hm Hk Hall Hpc Hc Hb0 Hbs Hcfg Hlen Hpr];
    (split; [congruence|]); rewrite Hm; intros id' b0' Hl.
  - specialize (Hbs id'). rewrite Hl in Hbs.
    inversion Hbs as [b0 ? [_ Hp] Hb1|]; subst. rewrite Hp. eapply Hb; eauto.
  - rewrite Hbs in Hl. apply lookup_insert_Some in Hl as [[<- <-]|[_ Hl]]; [|eauto].
    rewrite Hpr. simpl. lia.
  - rewrite Hbs in Hl. apply lookup_insert_Some in Hl as [[<- <-]|[_ Hl]]; eauto.
  - rewrite Hbs in Hl. apply lookup_insert_Some in Hl as [[<- <-]|[_ Hl]]; eauto.
  - rewrite Hbs in Hl. apply lookup_insert_Some in Hl as [[<- <-]|[_ Hl]]; [|eauto].
    rewrite Hpr. eauto.
Qed.

Lemma capInv_reachable s : reachable s -> capInv s.
Proof.
  apply reachable_ind.
  - intros files conns. split; [done|]. intros id b H. simpl in H.
    by rewrite lookup_empty in H.
  - intros s0 s' _ Hinv Hstep. eapply capInv_summary; [by apply step_summary | done].
Qed.


(** *** The counters against the tasks *)

Lemma accountInv_init files conns : accountInv (newManager files conns).
Proof.
  split; simpl; try (intros ? ? H; by rewrite ?lookup_empty in H);
    try (intros ? ? ? H; by rewrite ?lookup_empty in H).
Qed.

Lemma inserted (m : gmap string Batch.t) id id' b b' b0 :
  m !! id = Some b -> <[id := b']> m !! id' = Some b0 ->
  (id' = id /\ b0 = b') \/ (id' <> id /\ m !! id' = Some b0).
Proof.
  intros _ H. apply lookup_insert_Some in H as [[<- <-]|[Hne H]]; [by left | right].
  split; [congruence | done].
Qed.

Lemma accountInv_env s s' :
  calls s' = calls s ->
  (forall id, option_Forall2
                (fun b b' => sameShape b b' /\ Batch.progress b' = Batch.progress b)
                (batches s !! id) (batches s' !! id)) ->
  accountInv s -> accountInv s'.
Proof.
  intros Hc Hbs [Hreg Hrun Hfin Hset Hsta Hsiz Hslo].
  assert (Hback : forall id b', batches s' !! id = Some b' ->
            exists b, batches s !! id = Some b /\ sameShape b b' /\
                      Batch.progress b' = Batch.progress b).
  { intros id b' Hl. specialize (Hbs id). rewrite Hl in Hbs.
    inversion Hbs as [b0 ? [? ?] Hb1|]; subst. eauto. }
  split; rewrite ?Hc.
  - intros c k Hk. destruct (Hreg c k Hk) as [b Hb]. specialize (Hbs (cbatch k)).
    rewrite Hb in Hbs. inversion Hbs; subst. eauto.
  - intros id b' Hl. destruct (Hback id b' Hl) as (b & Hb & _ & ->). eauto.
  - intros id b' Hl. destruct (Hback id b' Hl) as (b & Hb & _ & ->). eauto.
  - done.
  - intros id b' Hl Hst. destruct (Hback id b' Hl) as (b & Hb & (_ & Hs & _) & _).
    apply (Hsta id b Hb). congruence.
  - intros c k b' Hk Hl. destruct (Hback _ b' Hl) as (b & Hb & (Hcfg & _) & _).
    rewrite Hcfg. eauto.
  - intros id b' Hl. destruct (Hback id b' Hl) as (b & Hb & (Hcfg & _ & Hlen & _) & _).
    rewrite Hcfg, Hlen. eauto.
Qed.

Lemma accountInv_create s s' id b :
  calls s' = calls s ->
  batches s !! id = None ->
  batches s' = <[id := b]> (batches s) ->
  Batch.status b = BatchCreated ->
  Batch.progress b = {| Progress.total := Config.repetitions (Batch.config b);
                        Progress.completed := 0; Progress.running := 0;
                        Progress.failed := 0 |} ->
  length (Batch.runStatuses b) = Z.to_nat (Config.repetitions (Batch.config b)) ->
  accountInv s -> accountInv s'.
Proof.
  intros Hc Hfresh Hbs Hst Hpr Hlen [Hreg Hrun Hfin Hset Hsta Hsiz Hslo].
  assert (Hnone : forall p, countTasks p id (calls s) = 0).
  { intros p. apply countTasks_none. intros c k Hk Hid.
    destruct (Hreg c k Hk) as [b0 Hb0]. congruence. }
  split; rewrite ?Hc, ?Hbs.
  - intros c k Hk. apply lookup_insert_is_Some'. right. eauto.
  - intros id' b' Hl. apply lookup_insert_Some in Hl as [[<- <-]|[_ Hl]]; [|eauto].
    rewrite Hnone, Hpr. done.
  - intros id' b' Hl. apply lookup_insert_Some in Hl as [[<- <-]|[_ Hl]]; [|eauto].
    rewrite Hnone, Hpr. done.
  - done.
  - intros id' b' Hl Hs. apply lookup_insert_Some in Hl as [[<- <-]|[_ Hl]]; [|eauto].
    congruence.
  - intros c k b' Hk Hl. apply lookup_insert_Some in Hl as [[Hid <-]|[_ Hl]]; [|eauto].
    destruct (Hreg c k Hk) as [b0 Hb0]. congruence.
  - intros id' b' Hl. apply lookup_insert_Some in Hl as [[<- <-]|[_ Hl]]; [done|eauto].
Qed.

Lemma accountInv_task s s' c i k pc pc' b b' :
  calls s !! c = Some k ->
  runPromises k !! i = Some pc ->
  isDone pc = false ->
  calls s' = alter (withRunPc i pc') c (calls s) ->
  batches s !! cbatch k = Some b ->
  batches s' = <[cbatch k := b']> (batches s) ->
  sameShape b b' ->
  Progress.running (Batch.progress b')
    = Progress.running (Batch.progress b) + ind isActive pc' - ind isActive pc ->
  Progress.completed (Batch.progress b') + Progress.failed (Batch.progress b')
    = Progress.completed (Batch.progress b) + Progress.failed (Batch.progress b)
      + ind isDone pc' ->
  accountInv s -> accountInv s'.
Proof.
  intros Hk Hi Hnd Hc Hb Hbs (Hcfg & Hst & Hlen & _) Hr Hcf
    [Hreg Hrun Hfin Hset Hsta Hsiz Hslo].
  assert (Hold : forall c0 k0', calls s' !! c0 = Some k0' ->
            exists k0, calls s !! c0 = Some k0 /\ cbatch k0' = cbatch k0 /\
                       cpc k0' = cpc k0 /\
                       length (runPromises k0') = length (runPromises k0) /\
                       (c0 <> c -> k0' = k0)).
  { intros c0 k0' H0. rewrite Hc, list_lookup_alter in H0. case_decide; [subst c0|eauto 10].
    rewrite Hk in H0. inversion H0; subst. exists k. simpl.
    rewrite length_insert. split_and!; try done. }
  assert (Hnew : forall c0 k0, calls s !! c0 = Some k0 ->
            exists k0', calls s' !! c0 = Some k0' /\ cbatch k0' = cbatch k0 /\
                        cpc k0' = cpc k0).
  { intros c0 k0 H0. rewrite Hc, list_lookup_alter. case_decide; [subst c0|eauto].
    rewrite H0. simpl. eauto. }
  assert (Hnotdone : ind isDone pc = 0) by (unfold ind; by rewrite Hnd).
  split.
  - intros c0 k0' H0. destruct (Hold c0 k0' H0) as (k0 & Hk0 & -> & _).
    rewrite Hbs. apply lookup_insert_is_Some'. right. eauto.
  - intros id' b0 Hl. rewrite Hbs in Hl. rewrite Hc.
    rewrite (countTasks_withRunPc isActive id' _ c k i pc pc' Hk Hi).
    destruct (inserted _ _ _ _ _ _ Hb Hl) as [[-> ->]|[Hne Hl']].
    + rewrite decide_True by done. rewrite Hr, (Hrun _ _ Hb). lia.
    + rewrite decide_False by congruence. rewrite (Hrun _ _ Hl'). lia.
  - intros id' b0 Hl. rewrite Hbs in Hl. rewrite Hc.
    rewrite (countTasks_withRunPc isDone id' _ c k i pc pc' Hk Hi).
    destruct (inserted _ _ _ _ _ _ Hb Hl) as [[-> ->]|[Hne Hl']].
    + rewrite decide_True by done. rewrite Hcf, (Hfin _ _ Hb). lia.
    + rewrite decide_False by congruence. rewrite (Hfin _ _ Hl'). lia.
  - intros c0 k0' H0 Hpc. destruct (Hold c0 k0' H0) as (k0 & Hk0 & _ & Hcpc & _ & Hsame).
    destruct (decide (c0 = c)) as [->|Hne].
    + rewrite Hk in Hk0. inversion Hk0; subst k0.
      assert (Hall : Forall (fun pc => pc = Done) (runPromises k)).
      { apply (Hset c k Hk). congruence. }
      rewrite Forall_lookup in Hall. rewrite (Hall i pc Hi) in Hnd. done.
    + rewrite (Hsame Hne). apply (Hset c0 k0 Hk0). rewrite <- (Hsame Hne). done.
  - intros id' b0 Hl Hs. rewrite Hbs in Hl.
    assert (exists b1, batches s !! id' = Some b1 /\ Batch.status b1 = BatchCompleted)
      as (b1 & Hb1 & Hs1).
    { destruct (inserted _ _ _ _ _ _ Hb Hl) as [[-> ->]|[Hne Hl']]; [|eauto].
      exists b. split; [done | congruence]. }
    destruct (Hsta id' b1 Hb1 Hs1) as (c0 & k0 & Hk0 & Hid & Hpc0).
    destruct (Hnew c0 k0 Hk0) as (k0' & Hk0' & Hid' & Hpc').
    exists c0, k0'. split_and!; congruence.
  - intros c0 k0' b0 H0 Hl. destruct (Hold c0 k0' H0) as (k0 & Hk0 & Hid & _ & Hlen0 & _).
    rewrite Hbs, Hid in Hl. rewrite Hlen0.
    destruct (inserted _ _ _ _ _ _ Hb Hl) as [[Heq ->]|[Hne Hl']].
    + rewrite Hcfg. apply (Hsiz c0 k0 b Hk0). by rewrite Heq.
    + eauto.
  - intros id' b0 Hl. rewrite Hbs in Hl.
    destruct (inserted _ _ _ _ _ _ Hb Hl) as [[-> ->]|[Hne Hl']]; [|eauto].
    rewrite Hcfg, Hlen. eauto.
Qed.

Lemma accountInv_start s s' id b b' pcs :
  batches s !! id = Some b ->
  batches s' = <[id := b']> (batches s) ->
  calls s' = calls s ++ [ {| cbatch := id; runPromises := pcs; cpc := AwaitingAll |} ] ->
  Batch.config b' = Batch.config b ->
  length (Batch.runStatuses b') = length (Batch.runStatuses b) ->
  Batch.status b' = BatchRunning ->
  length pcs = Z.to_nat (Config.repetitions (Batch.config b)) ->
  Progress.running (Batch.progress b')
    = Progress.running (Batch.progress b) + countPcs isActive pcs ->
  Progress.completed (Batch.progress b') + Progress.failed (Batch.progress b')
    = Progress.completed (Batch.progress b) + Progress.failed (Batch.progress b)
      + countPcs isDone pcs ->
  accountInv s -> accountInv s'.
Proof.
  intros Hb Hbs Hc Hcfg Hlen Hst Hpcs Hr Hcf [Hreg Hrun Hfin Hset Hsta Hsiz Hslo].
  split.
  - intros c0 k0 H0. rewrite Hbs. apply lookup_insert_is_Some'.
    rewrite Hc in H0. apply lookup_snoc_Some in H0 as [[_ H0]|[_ <-]]; [right; eauto|].
    by left.
  - intros id' b0 Hl. rewrite Hbs in Hl. rewrite Hc, countTasks_app. simpl.
    destruct (inserted _ _ _ _ _ _ Hb Hl) as [[-> ->]|[Hne Hl']].
    + rewrite decide_True by done. rewrite Hr, (Hrun _ _ Hb). lia.
    + rewrite decide_False by congruence. rewrite (Hrun _ _ Hl'). lia.
  - intros id' b0 Hl. rewrite Hbs in Hl. rewrite Hc, countTasks_app. simpl.
    destruct (inserted _ _ _ _ _ _ Hb Hl) as [[-> ->]|[Hne Hl']].
    + rewrite decide_True by done. rewrite Hcf, (Hfin _ _ Hb). lia.
    + rewrite decide_False by congruence. rewrite (Hfin _ _ Hl'). lia.
  - intros c0 k0 H0 Hpc. rewrite Hc in H0.
    apply lookup_snoc_Some in H0 as [[_ H0]|[_ <-]]; [eauto | done].
  - intros id' b0 Hl Hs. rewrite Hbs in Hl.
    destruct (inserted _ _ _ _ _ _ Hb Hl) as [[-> ->]|[Hne Hl']]; [congruence|].
    destruct (Hsta id' b0 Hl' Hs) as (c0 & k0 & Hk0 & Hid & Hpc0).
    exists c0, k0. split_and!; try done. rewrite Hc. apply lookup_app_l_Some. done.
  - intros c0 k0 b0 H0 Hl. rewrite Hc in H0. rewrite Hbs in Hl.
    apply lookup_snoc_Some in H0 as [[_ H0]|[_ <-]].
    + destruct (inserted _ _ _ _ _ _ Hb Hl) as [[Heq ->]|[Hne Hl']]; [|eauto].
      rewrite Hcfg. apply (Hsiz c0 k0 b H0). by rewrite Heq.
    + simpl in *. rewrite lookup_insert_eq in Hl. inversion Hl; subst. by rewrite Hcfg.
  - intros id' b0 Hl. rewrite Hbs in Hl.
    destruct (inserted _ _ _ _ _ _ Hb Hl) as [[-> ->]|[Hne Hl']]; [|eauto].
    rewrite Hcfg, Hlen. eauto.
Qed.

Lemma accountInv_call s s' c k pc' b b' :
  calls s !! c = Some k ->
  (cpc k = AwaitingAll -> Forall (fun pc => pc = Done) (runPromises k)) ->
  pc' <> AwaitingAll ->
  calls s' = alter (withCallPc pc') c (calls s) ->
  batches s !! cbatch k = Some b ->
  batches s' = <[cbatch k := b']> (batches s) ->
  Batch.config b' = Batch.config b ->
  length (Batch.runStatuses b') = length (Batch.runStatuses b) ->
  Batch.progress b' = Batch.progress b ->
  accountInv s -> accountInv s'.
Proof.
  intros Hk Hall Hpc Hc Hb Hbs Hcfg Hlen Hpr [Hreg Hrun Hfin Hset Hsta Hsiz Hslo].
  assert (Hold : forall c0 k0', calls s' !! c0 = Some k0' ->
            exists k0, calls s !! c0 = Some k0 /\ cbatch k0' = cbatch k0 /\
                       runPromises k0' = runPromises k0 /\
                       (c0 <> c -> k0' = k0)).
  { intros c0 k0' H0. rewrite Hc, list_lookup_alter in H0. case_decide; [subst c0|eauto 10].
    rewrite Hk in H0. inversion H0; subst. exists k. simpl. split_and!; done. }
  split.
  - intros c0 k0' H0. destruct (Hold c0 k0' H0) as (k0 & Hk0 & -> & _).
    rewrite Hbs. apply lookup_insert_is_Some'. right. eauto.
  - intros id' b0 Hl. rewrite Hbs in Hl. rewrite Hc, countTasks_withCallPc.
    destruct (inserted _ _ _ _ _ _ Hb Hl) as [[-> ->]|[Hne Hl']]; [|eauto].
    rewrite Hpr. eauto.
  - intros id' b0 Hl. rewrite Hbs in Hl. rewrite Hc, countTasks_withCallPc.
    destruct (inserted _ _ _ _ _ _ Hb Hl) as [[-> ->]|[Hne Hl']]; [|eauto].
    rewrite Hpr. eauto.
  - intros c0 k0' H0 Hpc0. destruct (Hold c0 k0' H0) as (k0 & Hk0 & _ & Hrp & Hsame).
    rewrite Hrp. destruct (decide (c0 = c)) as [->|Hne].
    + rewrite Hk in Hk0. inversion Hk0; subst k0.
      destruct (decide (cpc k = AwaitingAll)); [auto | eauto].
    + apply (Hset c0 k0 Hk0). rewrite <- (Hsame Hne). done.
  - intros id' b0 Hl Hs. rewrite Hbs in Hl.
    destruct (inserted _ _ _ _ _ _ Hb Hl) as [[-> ->]|[Hne Hl']].
    + exists c, (withCallPc pc' k). rewrite Hc, list_lookup_alter_eq, Hk. done.
    + destruct (Hsta id' b0 Hl' Hs) as (c0 & k0 & Hk0 & Hid & Hpc0).
      exists c0, k0. split_and!; try done.
      rewrite Hc, list_lookup_alter_ne; [done|]. intros ->. congruence.
  - intros c0 k0' b0 H0 Hl. destruct (Hold c0 k0' H0) as (k0 & Hk0 & Hid & Hrp & _).
    rewrite Hbs, Hid in Hl. rewrite Hrp.
    destruct (inserted _ _ _ _ _ _ Hb Hl) as [[Heq ->]|[Hne Hl']].
    + rewrite Hcfg. apply (Hsiz c0 k0 b Hk0). by rewrite Heq.
    + eauto.
  - intros id' b0 Hl. rewrite Hbs in Hl.
    destruct (inserted _ _ _ _ _ _ Hb Hl) as [[-> ->]|[Hne Hl']]; [|eauto].
    rewrite Hcfg, Hlen. eauto.
Qed.

Lemma accountInv_summary s s' : summary s s' -> accountInv s -> accountInv s'.
Proof.
  destruct 1; eauto using accountInv_env, accountInv_create, accountInv_task,
    accountInv_start, accountInv_call.
Qed.

Lemma accountInv_reachable s : reachable s -> accountInv s.
Proof.
  apply reachable_ind; [apply accountInv_init|].
  intros s0 s' _ Hinv Hstep. eapply accountInv_summary; [by apply step_summary | done].
Qed.

End InvariantFacts.

(** ** Schedules are executions *)

Module RunFacts.
Import Js Engine InvariantFacts.

Lemma allDone_Forall pcs : allDone pcs = true -> Forall (fun pc => pc = Done) pcs.
Proof.
  unfold allDone. intros H. apply Forall_forall. intros pc Hin.
  rewrite forallb_forall in H. specialize (H pc).
  destruct pc; try done; discriminate H; by apply list_elem_of_In.
Qed.

Lemma fire_step e s s' : fire e s = Some s' -> step s s'.
Proof.
  destruct e; simpl; intros H.
  - destruct (batches s !! batchIdOf now rand cfg) eqn:E; [done|].
    inversion H; subst. by constructor.
  - destruct (startBatch batchId now s) eqn:E; [|done].
    inversion H; subst. by econstructor.
  - destruct (taskAt c i s) as [[[id b] []]|] eqn:E; try done.
    inversion H; subst. by eapply step_timer.
  - destruct (taskAt c i s) as [[[id b] []]|] eqn:E; try done.
    inversion H; subst. by eapply step_stdout.
  - destruct (taskAt c i s) as [[[id b] []]|] eqn:E; try done.
    inversion H; subst. by eapply step_stderr.
  - destruct (taskAt c i s) as [[[id b] []]|] eqn:E; try done.
    inversion H; subst. by eapply step_settle.
  - destruct (taskAt c i s) as [[[id b] []]|] eqn:E; try done.
    inversion H; subst. by eapply step_resume.
  - destruct (calls s !! c) as [k|] eqn:Ek; [|done].
    destruct (cpc k) eqn:Ec; try done.
    destruct (batches s !! cbatch k) as [b|] eqn:Eb; [|done].
    destruct (allDone (runPromises k)) eqn:Ea; [|done].
    inversion H; subst. eapply step_finalize; eauto using allDone_Forall.
  - destruct (calls s !! c) as [k|] eqn:Ek; [|done].
    destruct (cpc k) eqn:Ec; try done.
    destruct (batches s !! cbatch k) as [b|] eqn:Eb; [|done].
    inversion H; subst. eapply step_reports; eauto.
  - inversion H; subst. constructor.
  - inversion H; subst. constructor.
  - destruct (sockets s !! ws) eqn:E; [done|]. inversion H; subst. by constructor.
  - destruct (sockets s !! ws) eqn:E; [|done]. inversion H; subst. by econstructor.
  - inversion H; subst. constructor.
Qed.

Lemma run_rtc events : forall s s', run events s = Some s' -> rtc step s s'.
Proof.
  induction events as [|e events IH]; simpl; intros s s' H.
  - inversion H; subst. done.
  - destruct (fire e s) as [s1|] eqn:E; [|done].
    eapply rtc_l; [eapply fire_step; exact E | by apply IH].
Qed.

Lemma run_reachable events s s' : reachable s -> run events s = Some s' -> reachable s'.
Proof. intros Hs H. eapply reachable_rtc; [done | by eapply run_rtc]. Qed.

Lemma after_reachable events :
  Samples.feasible events = true -> reachable (Samples.after events).
Proof.
  unfold Samples.feasible, Samples.after.
  destruct (run events Samples.fresh) as [s|] eqn:H; [|done]. intros _. simpl.
  eapply run_reachable; [apply reachable_init | done].
Qed.

End RunFacts.

(** ** Report synthesizer *)

Module ReportFacts.
Import Js Extractor Report.

(** C6, as the code has it.  When [metadata.timestamp] is a non-empty
    string, the markdown that [generateMarkdownContent] returns does not
    depend on the clock: two calls with the same arguments return the
    same text, whatever the time of each call. *)
Theorem generateMarkdownContent_deterministic `{JsNumber Num}
    (clock1 clock2 runId : string) (metadata : Metadata.t Num) (result : ScanResult.t)
    (findings : list Finding) (reportFiles : list string) (batchId : string) :
  truthy (Metadata.timestamp metadata) = true ->
  generateMarkdownContent clock1 runId metadata result findings reportFiles batchId
  = generateMarkdownContent clock2 runId metadata result findings reportFiles batchId.
Proof.
  intros Hts. unfold generateMarkdownContent.
  destruct (Metadata.timestamp metadata) as [[|c ts]|]; simpl in Hts; try discriminate.
  reflexivity.
Qed.

Lemma generateMarkdownContent_deterministic_witness :
  truthy (Metadata.timestamp Samples.stampedMetadata) = true /\
  generateMarkdownContent "2025-06-01T10:00:02.000Z" "batch_1700000000000_k3j9x2m1q_zap_run_0"
    Samples.stampedMetadata Samples.sampleResult [] [] Samples.zapId
  = generateMarkdownContent "2025-06-01T10:00:07.000Z" "batch_1700000000000_k3j9x2m1q_zap_run_0"
      Samples.stampedMetadata Samples.sampleResult [] [] Samples.zapId.
Proof.
  split; [reflexivity|].
  apply (generateMarkdownContent_deterministic
           "2025-06-01T10:00:02.000Z" "2025-06-01T10:00:07.000Z").
  reflexivity.
Defined.

(** C6 as stated fails: without [metadata.timestamp] the report embeds
    the time of the call, so the same arguments give two different
    texts at two different times. *)
Lemma generateMarkdownContent_reads_clock :
  generateMarkdownContent "2025-06-01T10:00:02.000Z" "batch_1700000000000_k3j9x2m1q_zap_run_0"
    Samples.unstampedMetadata Samples.sampleResult [] [] Samples.zapId
  <> generateMarkdownContent "2025-06-01T10:00:07.000Z"
       "batch_1700000000000_k3j9x2m1q_zap_run_0"
       Samples.unstampedMetadata Samples.sampleResult [] [] Samples.zapId.
Proof. apply String.eqb_neq. vm_compute. reflexivity. Qed.

End ReportFacts.

(** ** Batch registry *)

Module RegistryFacts.
Import Js Engine.



End RegistryFacts.

(** ** Process supervisor *)

Module SupervisorFacts.
Import Js Engine.



End SupervisorFacts.

(** ** Event bus *)

Module EventBusFacts.
Import Js Engine StepFacts.

Lemma addClient_elem ws l : ws ∈ addClient ws l.
Proof. unfold addClient. case_decide; [done | set_solver]. Qed.

(** C10.  For an identifier that is not registered, [subscribeClient]
    and [broadcastToBatch] change nothing: no observer is added, no
    message is sent, nothing is thrown.  For a registered identifier,
    [subscribeClient] adds the connection to the observers of the batch
    and sends it exactly one message, a [batch_status] carrying the
    status, the progress counters and the run statuses of the batch at
    that moment. *)
Theorem subscribeClient_snapshot (batchId : string) (ws : Ws) (data : Msg) (s : State) :
  (batches s !! batchId = None ->
   subscribeClient batchId ws s = s /\ broadcastToBatch batchId data s = s) /\
  (forall batch, batches s !! batchId = Some batch ->
     outbox (subscribeClient batchId ws s)
     = outbox s ++ [(ws, batch_status batchId (Batch.status batch) (Batch.progress batch)
                           (Batch.runStatuses batch))] /\
     exists batch',
       batches (subscribeClient batchId ws s) !! batchId = Some batch' /\
       ws ∈ Batch.clients batch' /\
       Batch.progress batch' = Batch.progress batch /\
       Batch.runStatuses batch' = Batch.runStatuses batch).
Proof.
  unfold subscribeClient, broadcastToBatch. split.
  - intros ->. done.
  - intros batch ->. simpl. split; [done|].
    eexists. rewrite lookup_insert_eq. split_and!; try done. apply addClient_elem.
Qed.

Lemma subscribeClient_snapshot_witness :
  (subscribeClient "batch_0_unknown_zap" 7%nat (Samples.after Samples.tenRuns)
   = Samples.after Samples.tenRuns) /\
  exists batch,
    batches (Samples.after Samples.tenRuns) !! Samples.zapId = Some batch /\
    outbox (subscribeClient Samples.zapId 7%nat (Samples.after Samples.tenRuns))
    = outbox (Samples.after Samples.tenRuns)
      ++ [(7%nat, batch_status Samples.zapId (Batch.status batch) (Batch.progress batch)
                    (Batch.runStatuses batch))].
Proof.
  split.
  - assert (H : batches (Samples.after Samples.tenRuns) !! "batch_0_unknown_zap" = None)
      by (vm_compute; reflexivity).
    exact (proj1 (proj1 (subscribeClient_snapshot "batch_0_unknown_zap" 7%nat
                           (batch_completed "batch_0_unknown_zap")
                           (Samples.after Samples.tenRuns)) H)).
  - destruct (batches (Samples.after Samples.tenRuns) !! Samples.zapId) as [batch|] eqn:E;
      [|vm_compute in E; discriminate].
    exists batch. split; [done|].
    exact (proj1 (proj2 (subscribeClient_snapshot Samples.zapId 7%nat
                           (batch_completed Samples.zapId)
                           (Samples.after Samples.tenRuns)) batch E)).
Defined.

End EventBusFacts.

(** ** Run scheduler: the concurrency cap and the final counters *)

Module SchedulerFacts.
Import Js Engine SegmentFacts StepFacts CountFacts InvariantFacts RunFacts.

(** C1.  In every state a manager can reach, whatever the number of
    runs of a batch and however its [scheduleRun] tasks interleave, the
    [progress.running] counter of the batch is between 0 and the cap
    [maxConcurrent], which is 3.  A task in the admission loop leaves
    the batch untouched while the counter is at the cap, and raises the
    counter by at most one, to at most the cap, once it is below. *)
Theorem running_never_exceeds_cap (s : State) (batchId : string) (b : Batch.t) :
  reachable s ->
  batches s !! batchId = Some b ->
  maxConcurrent s = 3 /\ 0 <= Progress.running (Batch.progress b) <= 3 /\
  forall now i,
    let '(b', _, pc) := scheduleRun_check now (maxConcurrent s) batchId i b in
    (3 <= Progress.running (Batch.progress b) -> pc = Waiting /\ b' = b) /\
    (Progress.running (Batch.progress b) < 3 ->
     Progress.running (Batch.progress b') <= Progress.running (Batch.progress b) + 1 /\
     Progress.running (Batch.progress b') <= 3).
Proof.
  intros Hr Hb. destruct (capInv_reachable s Hr) as [Hcap Hbound].
  pose proof (inv_running s (accountInv_reachable s Hr) batchId b Hb) as Hrun.
  pose proof (countTasks_nonneg isActive batchId (calls s)).
  specialize (Hbound batchId b Hb). split_and!; try lia.
  intros now i.
  destruct (scheduleRun_check now (maxConcurrent s) batchId i b) as [[b' events] pc] eqn:E.
  apply check_spec in E as (_ & Hr' & _ & Hle & _ & Hfull).
  rewrite Hcap in *. split.
  - intros Hge. destruct (Hfull Hge) as (-> & -> & _). done.
  - intros Hlt. split; [|lia]. unfold ind in Hr'. destruct (isActive pc); lia.
Qed.

(** Ten runs under the cap: after the start three are running, and
    when one of them has finished a fourth is admitted. *)
Lemma running_never_exceeds_cap_witness :
  exists b,
    batches (Samples.after Samples.tenRuns) !! Samples.zapId = Some b /\
    maxConcurrent (Samples.after Samples.tenRuns) = 3 /\
    0 <= Progress.running (Batch.progress b) <= 3.
Proof.
  destruct (batches (Samples.after Samples.tenRuns) !! Samples.zapId) as [b|] eqn:E;
    [|vm_compute in E; discriminate].
  exists b. split; [done|].
  destruct (running_never_exceeds_cap (Samples.after Samples.tenRuns) Samples.zapId b)
    as (Hcap & Hbound & _); [|exact E|exact (conj Hcap Hbound)].
  apply after_reachable. vm_compute. reflexivity.
Defined.




(** C2.  When a batch that was started by one [startBatch] call has
    reached status completed, its counters satisfy
    [completed + failed = repetitions] and [running = 0]; and the end
    of every [scheduleRun] task adds one to exactly one of [completed]
    and [failed] and takes one from [running]. *)
Theorem completed_batch_counters (s : State) (batchId : string) (b : Batch.t) :
  reachable s ->
  batches s !! batchId = Some b ->
  length (callsOn batchId s) = 1%nat ->
  1 <= Config.repetitions (Batch.config b) ->
  Batch.status b = BatchCompleted ->
  (Progress.completed (Batch.progress b) + Progress.failed (Batch.progress b)
     = Config.repetitions (Batch.config b) /\
   Progress.running (Batch.progress b) = 0) /\
  forall now i r b0,
    Progress.running (Batch.progress (scheduleRun_resume now batchId i r b0).1)
    = Progress.running (Batch.progress b0) - 1 /\
    ((Progress.completed (Batch.progress (scheduleRun_resume now batchId i r b0).1)
      = Progress.completed (Batch.progress b0) + 1 /\
      Progress.failed (Batch.progress (scheduleRun_resume now batchId i r b0).1)
      = Progress.failed (Batch.progress b0)) \/
     (Progress.completed (Batch.progress (scheduleRun_resume now batchId i r b0).1)
      = Progress.completed (Batch.progress b0) /\
      Progress.failed (Batch.progress (scheduleRun_resume now batchId i r b0).1)
      = Progress.failed (Batch.progress b0) + 1)).
Proof.
  intros Hr Hb Hone Hvalid Hst. split; [|intros; apply resume_one_counter].
  pose proof (accountInv_reachable s Hr) as [Hreg Hrun Hfin Hset Hsta Hsiz Hslo].
  destruct (Hsta batchId b Hb Hst) as (c & k & Hk & Hid & Hpc).
  pose proof (Hset c k Hk Hpc) as Hall.
  destruct (countPcs_all_done _ Hall) as [Hdone Hact].
  rewrite (Hrun _ _ Hb), (Hfin _ _ Hb).
  unfold callsOn in Hone.
  rewrite (countTasks_single isActive batchId (calls s) c k Hk Hid Hone).
  rewrite (countTasks_single isDone batchId (calls s) c k Hk Hid Hone).
  rewrite Hdone, Hact. split; [|done].
  subst batchId. rewrite (Hsiz c k b Hk Hb). lia.
Qed.

(** A batch of two runs, one of which crashed, after its completion. *)
Lemma completed_batch_counters_witness :
  exists b,
    batches (Samples.after Samples.crashingBatch) !! Samples.zapId = Some b /\
    Progress.completed (Batch.progress b) + Progress.failed (Batch.progress b) = 2 /\
    Progress.running (Batch.progress b) = 0.
Proof.
  destruct (batches (Samples.after Samples.crashingBatch) !! Samples.zapId) as [b|] eqn:E;
    [|vm_compute in E; discriminate].
  exists b. split; [done|].
  assert (Hcfg : Config.repetitions (Batch.config b) = 2 /\ Batch.status b = BatchCompleted).
  { vm_compute in E. inversion E; subst. done. }
  destruct Hcfg as [Hcfg Hst]. rewrite <- Hcfg.
  assert (Hreach : reachable (Samples.after Samples.crashingBatch)).
  { apply after_reachable. vm_compute. reflexivity. }
  assert (Hone : length (callsOn Samples.zapId (Samples.after Samples.crashingBatch)) = 1%nat).
  { vm_compute. reflexivity. }
  assert (Hvalid : 1 <= Config.repetitions (Batch.config b)) by lia.
  exact (proj1 (completed_batch_counters (Samples.after Samples.crashingBatch)
                  Samples.zapId b Hreach E Hone Hvalid Hst)).
Defined.

End SchedulerFacts.

(** ** Run scheduler: every started batch can complete *)

Module ProgressFacts.
Import Js Engine SegmentFacts StepFacts CountFacts InvariantFacts RunFacts.

Lemma find_pc p pcs :
  0 < countPcs p pcs -> exists i pc, pcs !! i = Some pc /\ p pc = true.
Proof.
  induction pcs as [|x pcs IH]; [unfold countPcs; simpl; lia|].
  rewrite countPcs_cons. unfold ind. destruct (p x) eqn:E.
  - intros _. exists 0%nat, x. done.
  - intros H. destruct IH as (i & pc & Hi & Hp); [lia|]. exists (S i), pc. done.
Qed.

Lemma countPcs_zero p pcs i pc :
  countPcs p pcs = 0 -> pcs !! i = Some pc -> p pc = false.
Proof.
  revert i. induction pcs as [|x pcs IH]; intros i Hz Hi; [done|].
  rewrite countPcs_cons in Hz. pose proof (countPcs_nonneg p pcs).
  unfold ind in Hz. destruct i as [|i]; simpl in Hi.
  - inversion Hi; subst. destruct (p pc); [lia | done].
  - apply (IH i); [|done]. destruct (p x); lia.
Qed.

Lemma find_task p id l :
  0 < countTasks p id l ->
  exists c k i pc, l !! c = Some k /\ cbatch k = id /\
                   runPromises k !! i = Some pc /\ p pc = true.
Proof.
  induction l as [|x l IH]; simpl; [lia|]. intros H.
  destruct (decide (0 < countTasks p id l)) as [Hpos|Hz].
  - destruct (IH Hpos) as (c & k & i & pc & Hc & Hid & Hi & Hp).
    exists (S c), k, i, pc. done.
  - case_decide as Hx; [|lia].
    destruct (find_pc p (runPromises x)) as (i & pc & Hi & Hp); [lia|].
    exists 0%nat, x, i, pc. done.
Qed.

Lemma countTasks_member p id l c k :
  l !! c = Some k -> cbatch k = id -> countPcs p (runPromises k) <= countTasks p id l.
Proof.
  revert c. induction l as [|x l IH]; intros [|c] Hc Hid; simpl in *; try done.
  - inversion Hc; subst. rewrite decide_True by done.
    pose proof (countTasks_nonneg p (cbatch k) l). lia.
  - pose proof (IH c Hc Hid). pose proof (countPcs_nonneg p (runPromises x)).
    case_decide; lia.
Qed.

Lemma taskAt_intro s c i k pc b :
  calls s !! c = Some k -> runPromises k !! i = Some pc ->
  batches s !! cbatch k = Some b -> taskAt c i s = Some (cbatch k, b, pc).
Proof. intros Hk Hi Hb. unfold taskAt. rewrite Hk. simpl. rewrite Hi. simpl. by rewrite Hb. Qed.

(** A turn of a task that neither leaves nor enters the admission loop
    keeps the shape of every call. *)
Lemma call_kept (l : list StartCall) c c0 k k0 i0 pc0 pc' :
  l !! c = Some k -> l !! c0 = Some k0 -> runPromises k0 !! i0 = Some pc0 ->
  exists k', alter (withRunPc i0 pc') c0 l !! c = Some k' /\
             cbatch k' = cbatch k /\ cpc k' = cpc k /\
             countPcs isWaiting (runPromises k')
             = countPcs isWaiting (runPromises k)
               + (if decide (c0 = c) then ind isWaiting pc' - ind isWaiting pc0 else 0).
Proof.
  intros Hk Hk0 Hi0. rewrite list_lookup_alter. case_decide as Hc.
  - subst c0. rewrite Hk in Hk0. inversion Hk0; subst k0. rewrite Hk. simpl.
    eexists. split_and!; try done. simpl.
    rewrite (countPcs_insert _ _ i0 pc0 pc' Hi0). lia.
  - exists k. split_and!; try done. lia.
Qed.

(** The tasks of a batch that hold a slot can all be brought to their
    end: the executor of each one settles and its task resumes. *)
Lemma drain id c : forall n s k,
  reachable s -> calls s !! c = Some k ->
  countTasks isActive id (calls s) + countTasks isScanning id (calls s) <= Z.of_nat n ->
  exists s' k',
    rtc step s s' /\ countTasks isActive id (calls s') = 0 /\
    calls s' !! c = Some k' /\ cbatch k' = cbatch k /\ cpc k' = cpc k /\
    countPcs isWaiting (runPromises k') = countPcs isWaiting (runPromises k).
Proof.
  induction n as [|n IH]; intros s k Hr Hk Hm;
    pose proof (countTasks_nonneg isActive id (calls s)) as Ha;
    pose proof (countTasks_nonneg isScanning id (calls s)) as Hs;
    destruct (decide (countTasks isActive id (calls s) = 0)) as [Hz|Hnz];
    try (exists s, k; split_and!; done); try lia.
  destruct (find_task isActive id (calls s)) as (c0 & k0 & i0 & pc0 & Hk0 & Hid & Hi0 & Hp);
    [lia|].
  destruct (inv_registered s (accountInv_reachable s Hr) c0 k0 Hk0) as [b0 Hb0].
  pose proof (taskAt_intro s c0 i0 k0 pc0 b0 Hk0 Hi0 Hb0) as Htask.
  assert (exists s1 pc', step s s1 /\ calls s1 = alter (withRunPc i0 pc') c0 (calls s) /\
            isWaiting pc' = false /\
            ind isActive pc' - ind isActive pc0 + (ind isScanning pc' - ind isScanning pc0)
            = -1) as (s1 & pc' & Hstep & Hcalls & Hw' & Hdelta).
  { destruct pc0 as [|startTime scriptRunId out err|r|]; try done.
    - pose proof (step_settle s c0 i0 _ b0 0 _ _ _ _ (Resolved 0) Htask) as Hstep.
      destruct (runScan_settle _ _ _ _ _ _ _ _ _) as [r files].
      eexists _, (Returned r). split_and!; [exact Hstep | done | done | done].
    - pose proof (step_resume s c0 i0 _ b0 0 r Htask) as Hstep.
      eexists _, Done. split_and!; [exact Hstep | | done | done].
      simpl. by destruct (commit_frame (cbatch k0) (scheduleRun_resume 0 (cbatch k0) i0 r b0) s)
        as (_ & _ & _ & _ & ->). }
  destruct (call_kept (calls s) c c0 k k0 i0 pc0 pc' Hk Hk0 Hi0)
    as (k1 & Hk1 & Hid1 & Hpc1 & Hw1).
  assert (Hw0 : ind isWaiting pc' - ind isWaiting pc0 = 0).
  { unfold ind. rewrite Hw'. by destruct pc0. }
  destruct (IH s1 k1) as (s' & k' & Hrtc & Hzero & Hk' & Hid' & Hpc' & Hwait).
  - by eapply reachable_step.
  - by rewrite Hcalls.
  - rewrite Hcalls.
    rewrite (countTasks_withRunPc isActive id _ c0 k0 i0 pc0 pc' Hk0 Hi0).
    rewrite (countTasks_withRunPc isScanning id _ c0 k0 i0 pc0 pc' Hk0 Hi0).
    rewrite !decide_True by done. lia.
  - exists s', k'. split_and!; try congruence.
    + by eapply rtc_l.
    + rewrite Hwait, Hw1. case_decide; lia.
Qed.

Lemma finalize_completes s c k b :
  calls s !! c = Some k -> cpc k = AwaitingAll ->
  Forall (fun pc => pc = Done) (runPromises k) -> batches s !! cbatch k = Some b ->
  exists s' b', step s s' /\ batches s' !! cbatch k = Some b' /\
                Batch.status b' = BatchCompleted.
Proof.
  intros Hk Hpc Hall Hb.
  exists (setCallPc c Reporting (commit (cbatch k) (finalizeBatch_begin 0 b) s)),
    (Batch.markCompleted 0 b).
  split_and!; [by eapply step_finalize | | done].
  destruct (commit_frame (cbatch k) (finalizeBatch_begin 0 b) s) as (Hbf & _).
  change (batches (commit (cbatch k) (finalizeBatch_begin 0 b) s) !! cbatch k
          = Some (Batch.markCompleted 0 b)).
  rewrite Hbf. apply lookup_insert_eq.
Qed.

(** A call that awaits its runs can be brought to its finalization:
    the batch reaches status completed. *)
Lemma finish_call id c : forall n s k,
  reachable s -> calls s !! c = Some k -> cbatch k = id -> cpc k = AwaitingAll ->
  countPcs isWaiting (runPromises k) <= Z.of_nat n ->
  exists s' b', rtc step s s' /\ batches s' !! id = Some b' /\
                Batch.status b' = BatchCompleted.
Proof.
  induction n as [|n IH]; intros s k Hr Hk Hid Hpc Hn.
  all: destruct (drain id c
                   (Z.to_nat (countTasks isActive id (calls s)
                              + countTasks isScanning id (calls s))) s k Hr Hk)
         as (s1 & k1 & Hrtc1 & Hzero & Hk1 & Hid1 & Hpc1 & Hw1);
    [ pose proof (countTasks_nonneg isActive id (calls s));
      pose proof (countTasks_nonneg isScanning id (calls s)); lia |].
  all: assert (Hr1 : reachable s1) by (by eapply reachable_rtc).
  all: destruct (inv_registered s1 (accountInv_reachable s1 Hr1) c k1 Hk1) as [b1 Hb1].
  all: pose proof (countPcs_nonneg isWaiting (runPromises k1)) as Hwn.
  all: destruct (decide (countPcs isWaiting (runPromises k1) = 0)) as [Hwz|Hwnz]; try lia.
  1,2: (* no task waits: all are done, the call finalizes *)
    assert (Hall : Forall (fun pc => pc = Done) (runPromises k1));
    [ apply Forall_lookup; intros i pc Hi;
      pose proof (countPcs_zero isWaiting _ i pc Hwz Hi) as Hnw;
      assert (Hnz : countPcs isActive (runPromises k1) = 0);
      [ pose proof (countTasks_member isActive id (calls s1) c k1 Hk1 ltac:(congruence));
        pose proof (countPcs_nonneg isActive (runPromises k1)); lia |];
      pose proof (countPcs_zero isActive _ i pc Hnz Hi) as Hna;
      by destruct pc
    | destruct (finalize_completes s1 c k1 b1 Hk1 ltac:(congruence) Hall Hb1)
        as (s' & b' & Hstep & Hb' & Hst');
      exists s', b'; split_and!;
      [ etrans; [exact Hrtc1 | eapply rtc_once; exact Hstep] | congruence | done ] ].
  (* a task waits: with no slot taken it is admitted *)
  destruct (find_pc isWaiting (runPromises k1)) as (i & pc & Hi & Hw); [lia|].
  destruct pc; try done.
  pose proof (taskAt_intro s1 c i k1 Waiting b1 Hk1 Hi Hb1) as Htask.
  pose proof (step_timer s1 c i _ b1 0 Htask) as Hstep.
  destruct (scheduleRun_check 0 (maxConcurrent s1) (cbatch k1) i b1)
    as [[b' events] pc'] eqn:Ec.
  apply check_spec in Ec as (_ & _ & _ & _ & Hadm & _).
  assert (Hpc' : pc' <> Waiting).
  { apply Hadm. destruct (capInv_reachable s1 Hr1) as [-> _].
    rewrite (inv_running s1 (accountInv_reachable s1 Hr1) (cbatch k1) b1 Hb1).
    replace (cbatch k1) with id by congruence. lia. }
  set (s2 := setRunPc c i pc' (commit (cbatch k1) (b', events) s1)) in *.
  assert (Hcalls : calls s2 = alter (withRunPc i pc') c (calls s1)).
  { unfold s2. simpl.
    by destruct (commit_frame (cbatch k1) (b', events) s1) as (_ & _ & _ & _ & ->). }
  destruct (call_kept (calls s1) c c k1 k1 i Waiting pc' Hk1 Hk1 Hi)
    as (k2 & Hk2 & Hid2 & Hpc2 & Hw2).
  rewrite decide_True in Hw2 by done.
  destruct (IH s2 k2) as (s' & b2 & Hrtc2 & Hb2 & Hst2).
  - by eapply reachable_step.
  - by rewrite Hcalls.
  - congruence.
  - congruence.
  - rewrite Hw2. unfold ind. simpl. destruct pc'; try done; simpl; lia.
  - exists s', b2. split_and!; try done.
    etrans; [exact Hrtc1|]. by eapply rtc_l.
Qed.

(** Every call that awaits its runs can reach its finalization. *)
Lemma awaiting_call_can_complete s c k :
  reachable s -> calls s !! c = Some k -> cpc k = AwaitingAll ->
  exists s' b', rtc step s s' /\ batches s' !! cbatch k = Some b' /\
                Batch.status b' = BatchCompleted.
Proof.
  intros Hr Hk Hpc.
  apply (finish_call (cbatch k) c (Z.to_nat (countPcs isWaiting (runPromises k))) s k);
    try done.
  pose proof (countPcs_nonneg isWaiting (runPromises k)). lia.
Qed.

End ProgressFacts.

(** ** Run scheduler: a run whose executor crashes *)

Module CrashFacts.
Import Js Engine SegmentFacts StepFacts CountFacts InvariantFacts RunFacts ProgressFacts.

(** A task that holds a slot has its run slot. *)
Lemma task_slot s c i batchId b pc :
  reachable s -> taskAt c i s = Some (batchId, b, pc) ->
  exists k rs,
    calls s !! c = Some k /\ cbatch k = batchId /\ runPromises k !! i = Some pc /\
    batches s !! batchId = Some b /\ Batch.runStatuses b !! i = Some rs.
Proof.
  intros Hr Ht. apply taskAt_Some in Ht as (k & Hk & Hid & Hi & Hb).
  pose proof (accountInv_reachable s Hr) as Hinv. subst batchId.
  pose proof (inv_size s Hinv c k b Hk Hb) as Hsz.
  pose proof (inv_slots s Hinv (cbatch k) b Hb) as Hsl.
  apply lookup_lt_Some in Hi as Hlt.
  destruct (lookup_lt_is_Some_2 (Batch.runStatuses b) i) as [rs Hrs]; [lia|].
  exists k, rs. done.
Qed.

(** C3, as the code has it.  When the executor of a running run exits
    with a crash code and the raw output can be written, [runScan]
    resolves with a record whose success flag is false and whose error
    is the message of the executor; [scheduleRun] then marks the run
    completed, stores that record as its result and counts the run in
    the completed counter, leaving the failed counter as it was; and
    the batch can still reach status completed. *)
Theorem crashed_run_is_marked_completed (s : State) (c i : nat) (batchId : string)
    (b : Batch.t) (startTime : Z) (scriptRunId out err : string)
    (code : option Z) (message : string) (now now' : Z) :
  reachable s ->
  taskAt c i s = Some (batchId, b, Scanning startTime scriptRunId out err) ->
  batchId ∈ Fs.dirs (fs s) ->
  exists res s1 s2 b2 rs2,
    fire (EvSettle c i now (Rejected code message)) s = Some s1 /\
    taskAt c i s1 = Some (batchId, b, Returned (Normal res)) /\
    ScanResult.success res = false /\ ScanResult.error res = Some message /\
    ScanResult.exitCode res = code /\ ScanResult.stdout res = out /\
    fire (EvResume c i now') s1 = Some s2 /\
    batches s2 !! batchId = Some b2 /\
    Batch.runStatuses b2 !! i = Some rs2 /\
    RunStatus.status rs2 = RunCompleted /\ RunStatus.result rs2 = Some res /\
    Progress.completed (Batch.progress b2) = Progress.completed (Batch.progress b) + 1 /\
    Progress.failed (Batch.progress b2) = Progress.failed (Batch.progress b) /\
    Progress.running (Batch.progress b2) = Progress.running (Batch.progress b) - 1 /\
    exists s3 b3, rtc step s2 s3 /\ batches s3 !! batchId = Some b3 /\
                  Batch.status b3 = BatchCompleted.
Proof.
  intros Hr Ht Hdir.
  destruct (task_slot s c i batchId b _ Hr Ht) as (k & rs & Hk & Hid & Hi & Hb & Hrs).
  pose proof (accountInv_reachable s Hr) as Hinv.
  assert (Hpc : cpc k = AwaitingAll).
  { destruct (decide (cpc k = AwaitingAll)) as [|Hne]; [done|].
    pose proof (inv_settled s Hinv c k Hk Hne) as Hall.
    rewrite Forall_lookup in Hall. by specialize (Hall i _ Hi). }
  set (res := {| ScanResult.runId := scriptRunId; ScanResult.exitCode := code;
                 ScanResult.stdout := out; ScanResult.stderr := err;
                 ScanResult.error := Some message;
                 ScanResult.duration := now - startTime; ScanResult.success := false |}).
  set (files' := {| Fs.dirs := Fs.dirs (fs s);
                    Fs.files := <[(batchId, rawFileName (runIdOf batchId i)) := out]>
                                  (Fs.files (fs s)) |}).
  set (s1 := setRunPc c i (Returned (Normal res)) (setFs files' s)).
  assert (Hfire1 : fire (EvSettle c i now (Rejected code message)) s = Some s1).
  { simpl. rewrite Ht. unfold runScan_settle, runScan_catch, Fs.writeFileSync.
    rewrite decide_True by done. done. }
  assert (Hk1 : calls s1 !! c = Some (withRunPc i (Returned (Normal res)) k)).
  { unfold s1. simpl. by rewrite list_lookup_alter_eq, Hk. }
  assert (Ht1 : taskAt c i s1 = Some (batchId, b, Returned (Normal res))).
  { unfold taskAt. rewrite Hk1. simpl.
    rewrite list_lookup_insert_eq by (by eapply lookup_lt_Some).
    simpl. rewrite Hid, Hb. done. }
  set (e := scheduleRun_resume now' batchId i (Normal res) b).
  set (s2 := setRunPc c i Done (commit batchId e s1)).
  assert (Hfire2 : fire (EvResume c i now') s1 = Some s2).
  { simpl. rewrite Ht1. done. }
  assert (Hb2 : batches s2 !! batchId = Some e.1).
  { unfold s2. simpl.
    destruct (commit_frame batchId e s1) as (-> & _). apply lookup_insert_eq. }
  assert (Hr2 : reachable s2).
  { eapply reachable_step; [eapply reachable_step; [exact Hr|]|].
    - eapply fire_step. exact Hfire1.
    - eapply fire_step. exact Hfire2. }
  assert (Hk2 : exists k2, calls s2 !! c = Some k2 /\ cbatch k2 = batchId /\
                           cpc k2 = AwaitingAll).
  { exists (withRunPc i Done (withRunPc i (Returned (Normal res)) k)). split; [|done].
    unfold s2. simpl.
    destruct (commit_frame batchId e s1) as (_ & _ & _ & _ & ->).
    by rewrite list_lookup_alter_eq, Hk1. }
  destruct Hk2 as (k2 & Hk2 & Hid2 & Hpc2).
  destruct (awaiting_call_can_complete s2 c k2 Hr2 Hk2 Hpc2) as (s3 & b3 & Hrtc & Hb3 & Hst3).
  rewrite Hid2 in Hb3.
  assert (He : Batch.runStatuses e.1 !! i = Some (RunStatus.complete now' res rs) /\
               Progress.completed (Batch.progress e.1)
               = Progress.completed (Batch.progress b) + 1 /\
               Progress.failed (Batch.progress e.1) = Progress.failed (Batch.progress b) /\
               Progress.running (Batch.progress e.1)
               = Progress.running (Batch.progress b) - 1).
  { unfold e, scheduleRun_resume, scheduleRun_try, scheduleRun_finally. simpl.
    rewrite Hrs. simpl. rewrite list_lookup_alter_eq, Hrs. done. }
  destruct He as (He1 & He2 & He3 & He4).
  exists res, s1, s2, e.1, (RunStatus.complete now' res rs).
  split_and!; try done. eauto.
Qed.

(** The first run of the sample batch crashes right after the start. *)
Lemma crashed_run_is_marked_completed_witness :
  exists s2 b2 rs2,
    run [EvSettle 0 0 1700000000900 Samples.crash; EvResume 0 0 1700000000901]
        (Samples.after (take 4 Samples.crashingBatch)) = Some s2 /\
    batches s2 !! Samples.zapId = Some b2 /\
    Batch.runStatuses b2 !! 0%nat = Some rs2 /\
    RunStatus.status rs2 = RunCompleted /\
    Progress.completed (Batch.progress b2) = 1 /\
    Progress.failed (Batch.progress b2) = 0.
Proof.
  destruct (batches (Samples.after (take 4 Samples.crashingBatch)) !! Samples.zapId)
    as [b|] eqn:Eb; [|vm_compute in Eb; discriminate].
  assert (Hprog : Progress.completed (Batch.progress b) = 0 /\
                  Progress.failed (Batch.progress b) = 0).
  { vm_compute in Eb. inversion Eb; subst. done. }
  destruct Hprog as [Hc0 Hf0].
  destruct (crashed_run_is_marked_completed
              (Samples.after (take 4 Samples.crashingBatch)) 0 0 Samples.zapId b
              1700000000005 "batch_1700000000000_k3j9x2m1q_zap_run_0_1700000000005" "" ""
              (Some 1) "Command failed with exit code 1: run_scan.sh"
              1700000000900 1700000000901)
    as (res & s1 & s2 & b2 & rs2 & Hf1 & _ & _ & _ & _ & _ & Hf2 & Hb2 & Hrs2 & Hst & _
        & Hc & Hf & _).
  - apply after_reachable. vm_compute. reflexivity.
  - assert (Hk : calls (Samples.after (take 4 Samples.crashingBatch)) !! 0%nat
                 = Some {| cbatch := Samples.zapId;
                           runPromises :=
                             [Scanning 1700000000005
                                "batch_1700000000000_k3j9x2m1q_zap_run_0_1700000000005" "" "";
                              Scanning 1700000000005
                                "batch_1700000000000_k3j9x2m1q_zap_run_1_1700000000005" "" ""];
                           cpc := AwaitingAll |}) by (vm_compute; reflexivity).
    exact (taskAt_intro _ 0 0 _ _ b Hk eq_refl Eb).
  - vm_compute. set_solver.
  - exists s2, b2, rs2. split_and!.
    + unfold Samples.crash. cbn [run]. rewrite Hf1, Hf2. reflexivity.
    + exact Hb2.
    + exact Hrs2.
    + exact Hst.
    + lia.
    + lia.
Defined.

(** C3 as stated fails: in the sample batch the executor of run 0
    exits with code 1, and the run ends in status completed, not
    failed, with no [error] field of its own, while the failed counter
    of the completed batch stays at 0. *)
Lemma crashed_run_is_not_failed :
  exists b rs res,
    Samples.feasible Samples.crashingBatch = true /\
    batches (Samples.after Samples.crashingBatch) !! Samples.zapId = Some b /\
    Batch.runStatuses b !! 0%nat = Some rs /\
    RunStatus.result rs = Some res /\
    ScanResult.exitCode res = Some 1 /\ ScanResult.success res = false /\
    RunStatus.status rs = RunCompleted /\ RunStatus.status rs <> RunFailed /\
    RunStatus.error rs = None /\
    Progress.failed (Batch.progress b) = 0 /\ Progress.completed (Batch.progress b) = 2 /\
    Batch.status b = BatchCompleted.
Proof.
  eexists _, _, _. split_and!; try (vm_compute; reflexivity); done.
Qed.

End CrashFacts.

(** ** Findings extractor: what every finding carries *)

Module ParserProps.
Import Js Regex Extractor RegexFacts ExtractorFacts Ledger.

Lemma splitLines_nonempty s : splitLines s <> [].
Proof.
  destruct s as [|c s]; simpl; [done|].
  destruct (Ascii.eqb c "010"); [done|]. by destruct (splitLines s).
Qed.

(** Splitting a text at a line feed splits its lines. *)
Lemma splitLines_app a b :
  splitLines (a +:+ Report.nl +:+ b) = splitLines a ++ splitLines b.
Proof.
  induction a as [|c a IH]; [done|].
  change (String c a +:+ Report.nl +:+ b) with (String c (a +:+ Report.nl +:+ b)).
  simpl. rewrite IH. destruct (Ascii.eqb c "010"); [done|].
  pose proof (splitLines_nonempty a). by destruct (splitLines a).
Qed.

Lemma forLines_app body l1 l2 fs1 fs2 :
  forLines body l1 = Normal fs1 -> forLines body l2 = Normal fs2 ->
  forLines body (l1 ++ l2) = Normal (fs1 ++ fs2).
Proof.
  revert fs1. induction l1 as [|l l1 IH]; simpl; intros fs1 H1 H2.
  - inversion H1; subst. done.
  - destruct (body l) as [fl|] eqn:El; simpl in *; [|done].
    destruct (forLines body l1) as [fr|] eqn:Er; simpl in *; [|done].
    inversion H1; subst. rewrite (IH fr eq_refl H2). simpl. by rewrite app_assoc.
Qed.

(** What holds of the findings of every line holds of all findings. *)
Lemma forLines_Forall (P : string -> Finding -> Prop) body lines fs :
  (forall l fl, body l = Normal fl -> Forall (P l) fl) ->
  forLines body lines = Normal fs ->
  Forall (fun f => exists l, l ∈ lines /\ P l f) fs.
Proof.
  intros Hbody. revert fs. induction lines as [|l lines IH]; simpl; intros fs H.
  - inversion H; subst. constructor.
  - destruct (body l) as [fl|] eqn:El; simpl in *; [|done].
    destruct (forLines body lines) as [fr|] eqn:Er; simpl in *; [|done].
    inversion H; subst. apply Forall_app. split.
    + eapply Forall_impl; [apply (Hbody l fl El)|]. intros f Hf. exists l. set_solver.
    + eapply Forall_impl; [apply (IH fr eq_refl)|]. intros f (l' & Hl' & Hf).
      exists l'. set_solver.
Qed.

Lemma parse_normal rawOutput tl :
  exists findings, parseFindingsFromStdout rawOutput tl = Normal findings.
Proof.
  unfold parseFindingsFromStdout.
  destruct (String.eqb tl "zap"); [apply forLines_normal, zapLine_normal|].
  destruct (String.eqb tl "nikto"); [apply forLines_normal, niktoLine_normal|].
  destruct (String.eqb tl "wapiti"); [|eauto].
  apply forLines_normal. intros l. unfold wapitiLine. eauto.
Qed.

Create HintDb scale.

Lemma scale_high : "HIGH" ∈ severities. Proof. unfold severities. set_solver. Qed.
Lemma scale_medium : "MEDIUM" ∈ severities. Proof. unfold severities. set_solver. Qed.
Lemma scale_low : "LOW" ∈ severities. Proof. unfold severities. set_solver. Qed.
Lemma scale_info : "INFO" ∈ severities. Proof. unfold severities. set_solver. Qed.

#[local] Hint Resolve scale_high scale_medium scale_low scale_info : scale.

Lemma determineZapSeverity_scale l : determineZapSeverity l ∈ severities.
Proof.
  unfold determineZapSeverity.
  destruct (_ || _); [auto with scale|].
  destruct (_ || _); [auto with scale|].
  destruct (_ || _); auto with scale.
Qed.

Lemma wapitiIssueSeverity_scale l : wapitiIssueSeverity l ∈ severities.
Proof.
  unfold wapitiIssueSeverity.
  destruct (includes l "CRITICAL"), (includes l "ERROR"); auto with scale.
Qed.

Lemma niktoClassify_scale d : (niktoClassify d).1 ∈ severities.
Proof.
  unfold niktoClassify.
  destruct (_ || _); [simpl; auto with scale|].
  destruct (_ || _); [simpl; auto with scale|].
  destruct (_ || _); simpl; auto with scale.
Qed.

#[local] Hint Resolve determineZapSeverity_scale wapitiIssueSeverity_scale : scale.

Lemma madeFrom_text sev ttl tl ty l :
  sev ∈ severities -> madeFrom tl l (textFinding sev ttl tl ty (trim l)).
Proof. by intros H; repeat split. Qed.

(** A guarded singleton. *)
Lemma Forall_guard {A} (P : A -> Prop) (c : bool) x :
  P x -> Forall P (if c then [x] else []).
Proof. destruct c; repeat constructor; done. Qed.

Lemma zapLine_madeFrom l fl : zapLine l = Normal fl -> Forall (madeFrom "zap" l) fl.
Proof.
  unfold zapLine. destruct (zapBaseline l) as [fb|] eqn:Eb; simpl; [|done].
  intros [= <-]. rewrite !Forall_app. split_and!.
  - unfold zapBaseline in Eb.
    assert (Hsev : (if includes l "WARN-NEW:" then "MEDIUM" else "HIGH") ∈ severities).
    { destruct (includes l "WARN-NEW:"); auto with scale. }
    destruct (includes l "WARN-NEW:" || includes l "FAIL-NEW:");
      [|inversion Eb; subst; constructor].
    destruct (exec 1 zapTitleRe l) as [m|]; simpl in Eb.
    + destruct (groupText m 1); simpl in Eb; [|done]. inversion Eb; subst.
      apply Forall_singleton. by apply madeFrom_text.
    + inversion Eb; subst. apply Forall_singleton. by apply madeFrom_text.
  - unfold zapSummary.
    destruct (_ || _); [|constructor].
    destruct (exec 1 zapAlertsRe l) as [m|]; [|constructor].
    destruct (m !! 1%nat) as [[d|]|]; try constructor.
    destruct (0 <? parseDigits d)%N; [|constructor]. apply Forall_singleton. repeat split. simpl. auto with scale.
  - unfold zapKeywords. rewrite !Forall_app.
    split_and!; try (apply Forall_guard, madeFrom_text; auto with scale).
    destruct (_ || _); [|constructor].
    apply Forall_guard, madeFrom_text; auto with scale.
Qed.

Lemma niktoLine_madeFrom l fl : niktoLine l = Normal fl -> Forall (madeFrom "nikto" l) fl.
Proof.
  unfold niktoLine. destruct (niktoVuln l) as [fv|] eqn:Ev; simpl; [|done].
  intros [= <-]. rewrite !Forall_app. split_and!.
  - unfold niktoVuln in Ev. destruct (startsWith l "+"); [|inversion Ev; subst; constructor].
    destruct (exec 2 niktoVulnRe l) as [m|]; [|inversion Ev; subst; constructor].
    destruct (groupText m 2) as [d|]; simpl in Ev; [|done].
    pose proof (niktoClassify_scale d) as Hsev.
    destruct (niktoClassify d) as [sev ty].
    destruct (groupText m 1) as [i|]; simpl in Ev; [|done].
    inversion Ev; subst. apply Forall_singleton. repeat split. exact Hsev.
  - unfold niktoStats. destruct (_ || _); [|constructor].
    destruct (exec 2 niktoStatsRe l) as [m|]; [|constructor].
    apply Forall_singleton. repeat split. simpl. auto with scale.
  - unfold niktoServerError. apply Forall_guard, madeFrom_text. auto with scale.
Qed.

Lemma wapitiLine_madeFrom l fl : wapitiLine l = Normal fl -> Forall (madeFrom "wapiti" l) fl.
Proof.
  unfold wapitiLine. intros [= <-]. rewrite !Forall_app.
  split_and!; try (apply Forall_guard, madeFrom_text; auto with scale).
  destruct (_ || _); [|constructor].
  destruct (exec 2 wapitiStatsRe l) as [m|]; [|constructor].
  apply Forall_singleton. repeat split. simpl. auto with scale.
Qed.

(** X1.  For each of the three tools, the findings of a text made of
    two parts joined by a line feed are the findings of the first part
    followed by the findings of the second: each finding depends on its
    own line only, and the findings come in the order of the lines. *)
Theorem findings_compose_by_lines (a b tl : string) :
  tl ∈ ["zap"; "nikto"; "wapiti"] ->
  exists fa fb,
    parseFindingsFromStdout a tl = Normal fa /\
    parseFindingsFromStdout b tl = Normal fb /\
    parseFindingsFromStdout (a +:+ Report.nl +:+ b) tl = Normal (fa ++ fb).
Proof.
  intros Hknown.
  destruct (parse_normal a tl) as [fa Ha].
  destruct (parse_normal b tl) as [fb Hb].
  exists fa, fb. split_and!; try done.
  unfold parseFindingsFromStdout, parseZapFindings, parseNiktoFindings,
    parseWapitiFindings in *.
  rewrite splitLines_app.
  destruct (String.eqb tl "zap") eqn:Ez; [by apply forLines_app|].
  destruct (String.eqb tl "nikto") eqn:En; [by apply forLines_app|].
  destruct (String.eqb tl "wapiti") eqn:Ew; [by apply forLines_app|].
  apply String.eqb_neq in Ez, En, Ew. set_solver.
Qed.

Lemma findings_compose_by_lines_witness :
  exists fa fb,
    parseFindingsFromStdout "+ Server: nginx" "nikto" = Normal fa /\
    parseFindingsFromStdout "120 requests made" "nikto" = Normal fb /\
    parseFindingsFromStdout ("+ Server: nginx" +:+ Report.nl +:+ "120 requests made") "nikto"
    = Normal (fa ++ fb).
Proof. apply findings_compose_by_lines. set_solver. Defined.

(** X2.  Whatever the text and the tool, every finding that
    [parseFindingsFromStdout] returns has a severity of the four-level
    scale HIGH, MEDIUM, LOW, INFO and names the tool it was asked for. *)
Theorem findings_have_scale_severity (rawOutput tl : string) :
  exists findings,
    parseFindingsFromStdout rawOutput tl = Normal findings /\
    Forall (fun f => severity f ∈ severities /\ tool f = tl) findings.
Proof.
  destruct (parse_normal rawOutput tl) as [fs Hfs].
  exists fs. split; [done|].
  unfold parseFindingsFromStdout in Hfs.
  destruct (String.eqb tl "zap") eqn:Ez.
  { apply String.eqb_eq in Ez as ->.
    eapply Forall_impl; [apply (forLines_Forall (madeFrom "zap") _ _ _ zapLine_madeFrom Hfs)|].
    intros f (l & _ & Ht & _ & Hs). done. }
  destruct (String.eqb tl "nikto") eqn:En.
  { apply String.eqb_eq in En as ->.
    eapply Forall_impl;
      [apply (forLines_Forall (madeFrom "nikto") _ _ _ niktoLine_madeFrom Hfs)|].
    intros f (l & _ & Ht & _ & Hs). done. }
  destruct (String.eqb tl "wapiti") eqn:Ew.
  { apply String.eqb_eq in Ew as ->.
    eapply Forall_impl;
      [apply (forLines_Forall (madeFrom "wapiti") _ _ _ wapitiLine_madeFrom Hfs)|].
    intros f (l & _ & Ht & _ & Hs). done. }
  inversion Hfs; subst. apply Forall_singleton. split; [simpl; auto with scale|done].
Qed.

(** X3.  For each of the three tools, every finding comes from a line
    of the text that carries a marker of the tool, and its [line] field
    is that line trimmed. *)
Theorem findings_come_from_marked_lines (rawOutput tl : string) (findings : list Finding) :
  tl ∈ ["zap"; "nikto"; "wapiti"] ->
  parseFindingsFromStdout rawOutput tl = Normal findings ->
  Forall (fun f => exists l, l ∈ splitLines rawOutput /\ hasMarker tl l = true /\
                             line f = trim l) findings.
Proof.
  intros Hknown Hfs. unfold parseFindingsFromStdout in Hfs. unfold hasMarker.
  assert (Hstrong : forall body mk,
            (forall l fl, body l = Normal fl -> Forall (madeFrom tl l) fl) ->
            (forall l, mk l = false -> body l = Normal []) ->
            forLines body (splitLines rawOutput) = Normal findings ->
            Forall (fun f => exists l, l ∈ splitLines rawOutput /\ mk l = true /\
                                       line f = trim l) findings).
  { intros body mk Hmade Hnone H.
    assert (Hboth : forall l fl, body l = Normal fl ->
                      Forall (fun f => madeFrom tl l f /\ mk l = true) fl).
    { intros l fl Hl. destruct (mk l) eqn:Em.
      - eapply Forall_impl; [apply (Hmade l fl Hl)|]. done.
      - rewrite (Hnone l Em) in Hl. inversion Hl; subst. constructor. }
    eapply Forall_impl; [apply (forLines_Forall _ body _ _ Hboth H)|].
    intros f (l & Hin & (_ & Hline & _) & Hm). eauto. }
  destruct (String.eqb tl "zap") eqn:Ez.
  { apply String.eqb_eq in Ez as ->.
    by apply (Hstrong zapLine _ zapLine_madeFrom zapLine_no_marker). }
  destruct (String.eqb tl "nikto") eqn:En.
  { apply String.eqb_eq in En as ->.
    by apply (Hstrong niktoLine _ niktoLine_madeFrom niktoLine_no_marker). }
  destruct (String.eqb tl "wapiti") eqn:Ew.
  { apply String.eqb_eq in Ew as ->.
    by apply (Hstrong wapitiLine _ wapitiLine_madeFrom wapitiLine_no_marker). }
  apply String.eqb_neq in Ez, En, Ew. set_solver.
Qed.

Lemma findings_come_from_marked_lines_witness :
  Forall (fun f => exists l, l ∈ splitLines "  ERROR 500 on /admin  " /\
                             hasMarker "nikto" l = true /\ line f = trim l)
    [textFinding "MEDIUM" "Server error or access restriction detected" "nikto"
       "server_error" "ERROR 500 on /admin"].
Proof.
  apply (findings_come_from_marked_lines "  ERROR 500 on /admin  " "nikto");
    [set_solver | vm_compute; reflexivity].
Defined.

End ParserProps.

(** ** Report synthesizer: excerpts and listed report files *)

Module ReportProps.
Import Js Extractor Report.

Lemma length_append a b :
  String.length (a +:+ b) = (String.length a + String.length b)%nat.
Proof.
  induction a as [|c a IH]; [done|].
  change (S (String.length (a +:+ b)) = S (String.length a + String.length b)).
  by f_equal.
Qed.

Lemma append_assoc a b c : (a +:+ b) +:+ c = a +:+ b +:+ c.
Proof.
  induction a as [|x a IH]; [done|].
  change (String x ((a +:+ b) +:+ c) = String x (a +:+ b +:+ c)). by f_equal.
Qed.

(** [slice(0, n)] keeps a text of at most [n] code units whole and cuts
    a longer one to [n] code units. *)
Lemma slice0_short n s : (String.length s <= n)%nat -> slice0 n s = s.
Proof.
  unfold slice0. revert n. induction s as [|c s IH]; intros [|n]; simpl; try done; try lia.
  intros H. rewrite IH; [done | lia].
Qed.

Lemma slice0_long n s :
  (n <= String.length s)%nat ->
  String.length (slice0 n s) = n /\ exists rest, s = slice0 n s +:+ rest.
Proof.
  unfold slice0. revert n. induction s as [|c s IH]; intros [|n]; simpl; try lia.
  - intros _. split; [done | by exists ""].
  - intros _. split; [done | by exists (String c s)].
  - intros H. destruct (IH n) as (Hl & rest & Hrest); [lia|].
    split; [by rewrite Hl|]. exists rest.
    change (String c s = String c (substring 0 n s +:+ rest)). by f_equal.
Qed.

Lemma splitDots_nonempty s : splitDots s <> [].
Proof.
  destruct s as [|c s]; simpl; [done|].
  destruct (Ascii.eqb c "."); [done|]. by destruct (splitDots s).
Qed.

Lemma splitDots_app a b : splitDots (a +:+ "." +:+ b) = splitDots a ++ splitDots b.
Proof.
  induction a as [|c a IH]; [reflexivity|].
  change (String c a +:+ "." +:+ b) with (String c (a +:+ "." +:+ b)).
  simpl. rewrite IH. destruct (Ascii.eqb c "."); [done|].
  pose proof (splitDots_nonempty a). by destruct (splitDots a).
Qed.

Lemma endsWith_suffix s p : endsWith s p = true -> exists a, s = a +:+ p.
Proof.
  induction s as [|c s IH]; cbn [endsWith].
  - destruct (String.eqb "" p) eqn:E; [|done]. apply String.eqb_eq in E as <-. by exists "".
  - destruct (String.eqb (String c s) p) eqn:E.
    + apply String.eqb_eq in E as <-. by exists "".
    + intros H. destruct (IH H) as [a ->]. by exists (String c a).
Qed.

(** The extension that [file.split('.').pop()] gives for a path that
    ends with a dot and an extension without dots. *)
Lemma extension_of dir stem ext :
  splitDots ext = [ext] -> List.last (splitDots (dir +:+ stem +:+ "." +:+ ext)) "" = ext.
Proof.
  intros Hext. rewrite <- append_assoc, splitDots_app, Hext. apply last_last.
Qed.

(** X4.  [excerpt], the cut that the report applies to the description
    and the solution of a finding: a text of at most 200 code units is
    rendered whole; a longer text is rendered as its first 200 code
    units followed by three dots, 203 code units in all. *)
Theorem excerpt_bounds (text : string) :
  ((String.length text <= 200)%nat -> excerpt text = text) /\
  ((200 < String.length text)%nat ->
   exists kept rest,
     text = kept +:+ rest /\ String.length kept = 200%nat /\
     excerpt text = kept +:+ "..." /\ String.length (excerpt text) = 203%nat).
Proof.
  unfold excerpt. split; intros H.
  - rewrite slice0_short by done.
    destruct (200 <? String.length text)%nat eqn:E; [apply Nat.ltb_lt in E; lia|].
    clear. induction text as [|c t IH]; [done|].
    change (String c (t +:+ "") = String c t). by f_equal.
  - destruct (slice0_long 200 text) as (Hl & rest & Hrest); [lia|].
    exists (slice0 200 text), rest.
    destruct (200 <? String.length text)%nat eqn:E; [|apply Nat.ltb_ge in E; lia].
    split_and!; try done. rewrite length_append, Hl. done.
Qed.

Lemma excerpt_bounds_witness :
  excerpt "Missing header" = "Missing header" /\
  String.length
    (excerpt ("0123456789012345678901234567890123456789012345678901234567890123456789"
              +:+ "0123456789012345678901234567890123456789012345678901234567890123456789"
              +:+ "0123456789012345678901234567890123456789012345678901234567890123456789"))
  = 203%nat.
Proof.
  split.
  - apply (excerpt_bounds "Missing header"). vm_compute. lia.
  - destruct (proj2 (excerpt_bounds
        ("0123456789012345678901234567890123456789012345678901234567890123456789"
         +:+ "0123456789012345678901234567890123456789012345678901234567890123456789"
         +:+ "0123456789012345678901234567890123456789012345678901234567890123456789")))
      as (kept & rest & _ & _ & _ & Hlen); [vm_compute; lia | exact Hlen].
Defined.

(** X5.  Every report file that [generateMarkdownReport] lists is a
    file of the batch directory whose name contains the run identifier,
    under the path [artifacts/<batch>/<file>], and its line in the Tool
    Reports section is labelled JSON Report or HTML Report: the label
    [Report] of [generateMarkdownContent] is never used for it. *)
Theorem listed_reports_are_labelled (batchId runId : string) (listing : list string)
    (toolName : option string) (path : string) :
  path ∈ Artifacts.reportFilesOf batchId runId listing ->
  exists file kind,
    file ∈ listing /\ includes file runId = true /\
    path = "artifacts/" +:+ batchId +:+ "/" +:+ file /\
    kind ∈ ["JSON Report"; "HTML Report"] /\
    reportFileLine toolName path
    = "- " +:+ backtick +:+ path +:+ backtick +:+ " - " +:+ orElse toolName "Tool"
      +:+ " " +:+ kind +:+ nl.
Proof.
  unfold Artifacts.reportFilesOf, Artifacts.isToolReport. intros Hin.
  apply list_elem_of_fmap in Hin as (file & -> & Hfile).
  apply list_elem_of_filter in Hfile as (Hkeep & Hfile).
  apply andb_true_iff in Hkeep as (Hid & Hext).
  assert (Hpath : forall stem ext,
            "artifacts/" +:+ batchId +:+ "/" +:+ stem +:+ "." +:+ ext
            = ("artifacts/" +:+ batchId +:+ "/") +:+ stem +:+ "." +:+ ext).
  { intros stem ext. by rewrite !append_assoc. }
  apply orb_true_iff in Hext as [Hjson|Hhtml].
  - exists file, "JSON Report". split_and!; try done; [set_solver|].
    apply endsWith_suffix in Hjson as [stem ->].
    unfold reportFileLine.
    change (stem +:+ ".json") with (stem +:+ "." +:+ "json").
    rewrite Hpath, (extension_of _ stem "json") by done. done.
  - exists file, "HTML Report". split_and!; try done; [set_solver|].
    apply endsWith_suffix in Hhtml as [stem ->].
    unfold reportFileLine.
    change (stem +:+ ".html") with (stem +:+ "." +:+ "html").
    rewrite Hpath, (extension_of _ stem "html") by done. done.
Qed.

Lemma listed_reports_are_labelled_witness :
  exists file kind,
    file ∈ ["b_run_0_raw.txt"; "b_run_0_zap.json"; "b_run_1_zap.json"] /\
    includes file "b_run_0" = true /\
    "artifacts/b/b_run_0_zap.json" = "artifacts/" +:+ "b" +:+ "/" +:+ file /\
    kind ∈ ["JSON Report"; "HTML Report"] /\
    reportFileLine (Some "zap") "artifacts/b/b_run_0_zap.json"
    = "- " +:+ backtick +:+ "artifacts/b/b_run_0_zap.json" +:+ backtick +:+ " - "
      +:+ orElse (Some "zap") "Tool" +:+ " " +:+ kind +:+ nl.
Proof.
  apply (listed_reports_are_labelled "b" "b_run_0"
           ["b_run_0_raw.txt"; "b_run_0_zap.json"; "b_run_1_zap.json"]).
  vm_compute. set_solver.
Defined.

End ReportProps.

(** ** Event bus: who receives a broadcast *)

Module BusProps.
Import Js Engine SegmentFacts StepFacts Ledger.

(** The [forEach] of [broadcastToBatch] over the clients [l]. *)
Lemma fanout_fold data s (l : list Ws) : forall s0,
  sockets s0 = sockets s ->
  outbox (foldl (fun s ws => if decide (readyStateOf ws s = Some WS_OPEN)
                             then send ws data s else s) s0 l)
  = outbox s0
    ++ ((fun ws => (ws, data)) <$> filter (fun ws => readyStateOf ws s = Some WS_OPEN) l).
Proof.
  induction l as [|ws l IH]; intros s0 Hs; simpl; [by rewrite app_nil_r|].
  assert (Hrs : readyStateOf ws s0 = readyStateOf ws s) by (unfold readyStateOf; by rewrite Hs).
  rewrite filter_cons. rewrite Hrs.
  destruct (decide (readyStateOf ws s = Some WS_OPEN)) as [Ho|Hn].
  - rewrite IH by done. simpl. by rewrite <- app_assoc.
  - by rewrite IH.
Qed.

(** The scheduler's stretches leave the clients of the batch alone. *)
Lemma catch_clients now batchId i message b :
  Batch.clients (scheduleRun_catch now batchId i message b).1 = Batch.clients b.
Proof. unfold scheduleRun_catch. simpl. by destruct (Batch.runStatuses b !! i). Qed.

Lemma check_clients now cap batchId i b :
  Batch.clients (scheduleRun_check now cap batchId i b).1.1 = Batch.clients b.
Proof.
  unfold scheduleRun_check, scheduleRun_admit, scheduleRun_catch, scheduleRun_finally.
  simpl. destruct (_ >=? _); [done|]. by destruct (Batch.runStatuses b !! i).
Qed.

Lemma resume_clients now batchId i r b :
  Batch.clients (scheduleRun_resume now batchId i r b).1 = Batch.clients b.
Proof.
  unfold scheduleRun_resume, scheduleRun_try, scheduleRun_catch, scheduleRun_finally.
  destruct r as [res|e]; simpl.
  - destruct (Batch.runStatuses b !! i); simpl; [done|].
    by destruct (Batch.runStatuses b !! i).
  - by destruct (Batch.runStatuses b !! i).
Qed.

Lemma spawn_clients now cap batchId count : forall first b,
  Batch.clients (spawnRuns now cap batchId first count b).1.1 = Batch.clients b.
Proof.
  induction count as [|count IH]; intros first b; simpl; [done|].
  pose proof (check_clients now cap batchId first b) as Hc.
  destruct (scheduleRun_check now cap batchId first b) as [[b1 ev1] pc].
  specialize (IH (S first) b1).
  destruct (spawnRuns now cap batchId (S first) count b1) as [[b2 ev2] pcs].
  simpl in *. congruence.
Qed.

(** Events published to a batch without clients reach nobody. *)
Lemma publish_no_clients batchId events : forall s b,
  batches s !! batchId = Some b -> Batch.clients b = [] ->
  publish batchId events s = s.
Proof.
  unfold publish. induction events as [|e events IH]; intros s b Hb Hc; simpl; [done|].
  assert (He : broadcastToBatch batchId e s = s).
  { unfold broadcastToBatch. rewrite Hb, Hc. done. }
  rewrite He. by apply (IH s b).
Qed.

(** X6.  A broadcast to a registered batch sends the message once to
    each client of the batch whose connection is OPEN, in the order in
    which the clients subscribed, and to nobody else; it leaves the
    batches, the connections and the files as they are. *)
Theorem broadcast_fanout (batchId : string) (data : Msg) (s : State) (b : Batch.t) :
  batches s !! batchId = Some b ->
  outbox (broadcastToBatch batchId data s)
  = outbox s ++ ((fun ws => (ws, data)) <$> recipients b s) /\
  batches (broadcastToBatch batchId data s) = batches s /\
  sockets (broadcastToBatch batchId data s) = sockets s /\
  fs (broadcastToBatch batchId data s) = fs s.
Proof.
  intros Hb. destruct (broadcast_frame batchId data s) as (Hbs & _ & Hfs & Hso & _).
  split_and!; try done.
  unfold broadcastToBatch, recipients. rewrite Hb. by apply fanout_fold.
Qed.

Lemma broadcast_fanout_witness :
  exists b,
    batches (Samples.after Samples.crashingBatch) !! Samples.zapId = Some b /\
    outbox (broadcastToBatch Samples.zapId (batch_completed Samples.zapId)
              (Samples.after Samples.crashingBatch))
    = outbox (Samples.after Samples.crashingBatch)
      ++ ((fun ws => (ws, batch_completed Samples.zapId))
            <$> recipients b (Samples.after Samples.crashingBatch)).
Proof.
  destruct (batches (Samples.after Samples.crashingBatch) !! Samples.zapId) as [b|] eqn:E;
    [|vm_compute in E; discriminate].
  exists b. split; [reflexivity|].
  exact (proj1 (broadcast_fanout Samples.zapId (batch_completed Samples.zapId)
                  (Samples.after Samples.crashingBatch) b E)).
Defined.

(** X7.  Creating a batch and starting it, as the page does before it
    opens its connection, sends no message: the [batch_started] event
    and the [run_started] events of the runs admitted at the start are
    published while the batch has no client.  The start endpoint
    answers with success and the batch is running. *)
Theorem start_after_create_reaches_nobody (cfg : Config.t) (now now' : Z) (rand : string)
    (s : State) :
  exists batchId s1 s2 b,
    Api.createEndpoint cfg now rand s
    = (Api.Created batchId
         ("Batch created with " +:+ pretty (Config.repetitions cfg) +:+ " runs"), s1) /\
    Api.startEndpoint batchId now' s1 = (Api.Started ("Batch " +:+ batchId +:+ " started"), s2) /\
    outbox s2 = outbox s /\
    batches s2 !! batchId = Some b /\ Batch.status b = BatchRunning /\
    Batch.clients b = [].
Proof.
  set (id := batchIdOf now rand cfg). set (s1 := (createBatch cfg now rand s).2).
  assert (Hb1 : batches s1 !! id = Some (newBatch now rand cfg))
    by apply lookup_insert_eq.
  assert (Ho1 : outbox s1 = outbox s) by done.
  pose proof (spawn_clients now' (maxConcurrent s1) id
                (Z.to_nat (Config.repetitions (Batch.config (newBatch now rand cfg)))) 0%nat
                (Batch.markRunning now' (newBatch now rand cfg))) as Hcl.
  pose proof (spawn_spec now' (maxConcurrent s1) id
                (Z.to_nat (Config.repetitions (Batch.config (newBatch now rand cfg)))) 0%nat
                (Batch.markRunning now' (newBatch now rand cfg))) as Hsp.
  assert (Hstart : exists s2 b, startBatch id now' s1 = Normal s2 /\ outbox s2 = outbox s /\
                     batches s2 !! id = Some b /\ Batch.status b = BatchRunning /\
                     Batch.clients b = []).
  { unfold startBatch. rewrite Hb1. clearbody s1.
    destruct (spawnRuns _ _ _ _ _ _) as [[b' events] pcs].
    destruct (Hsp b' events pcs eq_refl) as ((_ & Hst & _) & _). simpl in Hcl, Hst.
    eexists _, b'. split; [reflexivity|]. unfold commit.
    rewrite (publish_no_clients id _ _ b') by (simpl; try apply lookup_insert_eq; done).
    simpl. split_and!; try done. apply lookup_insert_eq. }
  destruct Hstart as (s2 & b & Hs2 & Ho2 & Hb2 & Hst2 & Hc2).
  exists id, s1, s2, b. split_and!; try done.
  unfold Api.startEndpoint. by rewrite Hs2.
Qed.

End BusProps.

(** ** The batch endpoints and the page *)

Module ClientProps.
Import Js Engine.

(** X8.  For an identifier that is not registered, the status endpoint
    answers 404 with a message that names the batch, while the start
    endpoint answers with success and changes nothing: the rejection of
    [startBatch] is only logged. *)
Theorem unknown_batch_endpoints (batchId : string) (now : Z) (s : State) :
  batches s !! batchId = None ->
  Registry.getBatchStatus batchId s = None /\
  Api.statusEndpoint batchId s = Api.NotFound ("Batch " +:+ batchId +:+ " not found") /\
  startBatch batchId now s = Throw ("Batch " +:+ batchId +:+ " not found") /\
  Api.startEndpoint batchId now s = (Api.Started ("Batch " +:+ batchId +:+ " started"), s).
Proof.
  intros Hb. unfold Api.statusEndpoint, Api.startEndpoint, Registry.getBatchStatus, startBatch.
  rewrite Hb. done.
Qed.

Lemma unknown_batch_endpoints_witness :
  Api.statusEndpoint "batch_0_unknown_zap" (Samples.after Samples.tenRuns)
  = Api.NotFound "Batch batch_0_unknown_zap not found" /\
  Api.startEndpoint "batch_0_unknown_zap" 1700000002000 (Samples.after Samples.tenRuns)
  = (Api.Started "Batch batch_0_unknown_zap started", Samples.after Samples.tenRuns).
Proof.
  assert (H : batches (Samples.after Samples.tenRuns) !! "batch_0_unknown_zap" = None)
    by (vm_compute; reflexivity).
  pose proof (unknown_batch_endpoints "batch_0_unknown_zap" 1700000002000
                (Samples.after Samples.tenRuns) H) as (_ & H1 & _ & H2).
  split; [exact H1 | exact H2].
Defined.

(** X9.  The progress of the page after any sequence of messages: its
    completed and failed counters are those it had plus the number of
    [run_completed] and of [run_failed] messages received, and its
    running counter is the one it had.  The counters carried by a
    [batch_status] message are not taken over. *)
Theorem page_counts_messages (prev : Ui.Progress) (messages : list Msg) :
  Ui.completed (Ui.receive prev messages)
  = Ui.completed prev
    + Z.of_nat (length (filter (fun m => Ui.isRunCompleted m = true) messages)) /\
  Ui.failed (Ui.receive prev messages)
  = Ui.failed prev + Z.of_nat (length (filter (fun m => Ui.isRunFailed m = true) messages)) /\
  Ui.running (Ui.receive prev messages) = Ui.running prev.
Proof.
  unfold Ui.receive. revert prev.
  induction messages as [|m messages IH]; intros prev; simpl; [split_and!; lia|].
  destruct (IH (Ui.onMessage prev m)) as (-> & -> & ->).
  rewrite !filter_cons. destruct m; simpl; split_and!; lia.
Qed.

End ClientProps.

(** ** Batch manager: what a turn does to a batch *)

Module TurnFacts.
Import Js Engine SegmentFacts StepFacts CountFacts InvariantFacts Ledger.

Lemma setClients_same b : Batch.setClients (Batch.clients b) b = b.
Proof. by destruct b. Qed.

Lemma env_same s s' : calls s' = calls s -> batches s' = batches s -> turn s s'.
Proof.
  intros Hc Hb. apply turn_env; [done|]. intros id. rewrite Hb.
  destruct (batches s !! id) as [b|]; constructor.
  exists (Batch.clients b). split; [by rewrite setClients_same | done].
Qed.

Lemma filter_idem (ws : Ws) (l : list Ws) :
  filter (fun w => w ≠ ws) (filter (fun w => w ≠ ws) l) = filter (fun w => w ≠ ws) l.
Proof.
  induction l as [|a l IH]; [done|]. rewrite filter_cons.
  destruct (decide (a ≠ ws)); [|done].
  rewrite filter_cons, decide_True by done. by rewrite IH.
Qed.

(** The ['close'] handlers of a connection: each deletes the connection
    from the clients of its batch, and from those only. *)
Lemma close_fold (ws : Ws) (hs : list string) : forall s0 id,
  option_Forall2
    (fun b b' => b' = Batch.setClients
                        (if decide (id ∈ hs)
                         then filter (fun w => w ≠ ws) (Batch.clients b)
                         else Batch.clients b) b)
    (batches s0 !! id)
    (batches (foldl (fun s batchId =>
                       setBatches
                         (alter (fun b => Batch.setClients
                                            (filter (fun w => w ≠ ws) (Batch.clients b)) b)
                                batchId (batches s)) s) s0 hs) !! id).
Proof.
  induction hs as [|h hs IH]; intros s0 id; cbn [foldl].
  - destruct (batches s0 !! id) as [b|]; constructor.
    rewrite decide_False by set_solver. by rewrite setClients_same.
  - specialize (IH (setBatches
                      (alter (fun b => Batch.setClients
                                         (filter (fun w => w ≠ ws) (Batch.clients b)) b)
                             h (batches s0)) s0) id).
    cbn [batches setBatches] in IH. rewrite lookup_alter in IH.
    destruct (decide (h = id)) as [->|Hne].
    + destruct (batches s0 !! id) as [b|]; cbn [fmap option_fmap option_map] in IH;
        inversion IH; subst; constructor.
      rewrite (decide_True (P := id ∈ id :: hs)) by set_solver.
      destruct (decide (id ∈ hs)); cbn [Batch.setClients Batch.clients];
        [by rewrite filter_idem | done].
    + destruct (batches s0 !! id) as [b|]; inversion IH; subst; constructor.
      destruct (decide (id ∈ hs)); [rewrite (decide_True (P := id ∈ h :: hs)) by set_solver
                                   | rewrite (decide_False (P := id ∈ h :: hs)) by set_solver];
        done.
Qed.

Lemma closeSocket_turn ws s : turn s (closeSocket ws s).
Proof.
  destruct (closeSocket_frame ws s) as (_ & Hc & _).
  apply turn_env; [done|]. intros id.
  unfold closeSocket. destruct (sockets s !! ws) as [k|].
  2:{ destruct (batches s !! id) as [b|]; constructor.
      exists (Batch.clients b). split; [by rewrite setClients_same | done]. }
  pose proof (close_fold ws (Socket.closeHandlers k)
                (setSockets (<[ws := {| Socket.readyState := WS_CLOSED;
                                        Socket.closeHandlers := Socket.closeHandlers k |}]>
                               (sockets s)) s) id) as Hf.
  simpl in Hf. destruct (batches s !! id) as [b|]; inversion Hf; subst; constructor.
  eexists. split; [reflexivity|]. intros Hnd.
  destruct (decide (id ∈ Socket.closeHandlers k)); [by apply NoDup_filter | done].
Qed.

Lemma NoDup_addClient ws l : NoDup l -> NoDup (addClient ws l).
Proof.
  unfold addClient. intros Hnd. case_decide; [done|].
  apply NoDup_app. split_and!; [done | set_solver | apply NoDup_singleton].
Qed.

(** Every turn of the event loop, with the batch functions it applies. *)
Lemma step_turn s s' : step s s' -> turn s s'.
Proof.
  destruct 1.
  - (* createBatch *)
    by apply (turn_create _ _ cfg now rand).
  - (* startBatch *)
    unfold startBatch in H. destruct (batches s !! batchId) as [b|] eqn:Eb; [|done].
    destruct (spawnRuns _ _ _ _ _ _) as [[b' events] pcs] eqn:Es.
    inversion H; subst s'; clear H.
    destruct (commit_frame batchId (b', batch_started batchId
                (Config.repetitions (Batch.config b)) :: events) s)
      as (Hb' & _ & _ & _ & Hc').
    eapply (turn_start _ _ batchId now b b' events pcs); simpl; try done;
      try (by rewrite Hc').
  - (* timer *)
    apply taskAt_Some in H as (k & Hk & <- & Hi & Hb).
    pose proof (tt_timer (maxConcurrent s) (cbatch k) i b now) as Ht.
    destruct (scheduleRun_check _ _ _ _ _) as [[b' events] pc] eqn:Ec.
    destruct (commit_frame (cbatch k) (b', events) s) as (Hb' & _ & _ & _ & Hc').
    eapply (turn_task _ _ c i k Waiting pc b b'); simpl; try done; try (by rewrite Hc').
  - (* stdout *)
    apply taskAt_Some in H as (k & Hk & <- & Hi & Hb).
    destruct (broadcast_frame (cbatch k)
                (stdout_line (runIdOf (cbatch k) i) (trim chunk) now) s)
      as (Hb' & _ & _ & _ & Hc').
    unfold onStdout.
    eapply (turn_task _ _ c i k _ (Scanning startTime scriptRunId (out +:+ chunk) err) b b);
      simpl; try done; try apply tt_data; try (by rewrite Hc');
      try (rewrite Hb'; symmetry; by apply insert_id).
  - (* stderr *)
    apply taskAt_Some in H as (k & Hk & <- & Hi & Hb).
    destruct (broadcast_frame (cbatch k)
                (stderr_line (runIdOf (cbatch k) i) (trim chunk) now) s)
      as (Hb' & _ & _ & _ & Hc').
    unfold onStderr.
    eapply (turn_task _ _ c i k _ (Scanning startTime scriptRunId out (err +:+ chunk)) b b);
      simpl; try done; try apply tt_data; try (by rewrite Hc');
      try (rewrite Hb'; symmetry; by apply insert_id).
  - (* settle *)
    apply taskAt_Some in H as (k & Hk & <- & Hi & Hb).
    destruct (runScan_settle _ _ _ _ _ _ _ _ _) as [r files].
    eapply (turn_task _ _ c i k _ (Returned r) b b); simpl; try done;
      try apply tt_settle; try (symmetry; by apply insert_id).
  - (* resume *)
    apply taskAt_Some in H as (k & Hk & <- & Hi & Hb).
    destruct (commit_frame (cbatch k) (scheduleRun_resume now (cbatch k) i r b) s)
      as (Hb' & _ & _ & _ & Hc').
    eapply (turn_task _ _ c i k (Returned r) Done b _); simpl; try done;
      try apply (tt_resume _ _ _ _ now r); try (by rewrite Hc').
  - (* finalize *)
    destruct (commit_frame (cbatch k) (finalizeBatch_begin now b) s)
      as (Hb' & _ & _ & _ & Hc').
    eapply (turn_finalize _ _ c k b now); simpl; try done; try (by rewrite Hc').
  - (* reports *)
    destruct (commit_frame (cbatch k) (finalizeBatch_end (cbatch k) failure b)
                (setFs files s)) as (Hb' & _ & _ & _ & Hc').
    eapply (turn_reports _ _ c k b); simpl; try done; try (by rewrite Hc').
  - (* subscribe *)
    unfold subscribeClient. destruct (batches s !! batchId) as [b|] eqn:Eb.
    2:{ by apply env_same. }
    apply turn_env; simpl; try done.
    intros id. rewrite lookup_insert. case_decide; [subst|].
    + rewrite Eb. constructor. eexists. split; [reflexivity|]. apply NoDup_addClient.
    + destruct (batches s !! id) as [b0|]; constructor.
      exists (Batch.clients b0). split; [by rewrite setClients_same | done].
  - (* close *)
    apply closeSocket_turn.
  - by apply env_same.
  - by apply env_same.
  - by apply env_same.
Qed.

(** *** What no turn changes in a batch *)

Lemma sameSlot_refl rs : sameSlot rs rs.
Proof. done. Qed.

Lemma slots_refl (l : list RunStatus.t) : Forall2 sameSlot l l.
Proof. induction l; constructor; done. Qed.

Lemma slots_alter (f : RunStatus.t -> RunStatus.t) i (l0 l : list RunStatus.t) :
  (forall rs, sameSlot rs (f rs)) ->
  Forall2 sameSlot l0 l -> Forall2 sameSlot l0 (alter f i l).
Proof.
  intros Hf H. apply Forall2_alter_r; [done|].
  intros x y _ _ [H1 H2]. destruct (Hf y) as [H3 H4]. split; congruence.
Qed.

Lemma evolves_refl b : evolves b b.
Proof. unfold evolves. split_and!; try done. apply slots_refl. Qed.

Lemma evolves_trans b1 b2 b3 : evolves b1 b2 -> evolves b2 b3 -> evolves b1 b3.
Proof.
  unfold evolves. intros (?&?&?&?&Hs1&?&?) (?&?&?&?&Hs2&?&?).
  split_and!; try congruence; try (by etrans); try tauto.
  eapply Forall2_trans; [|exact Hs1|exact Hs2].
  intros x y z [? ?] [? ?]. split; congruence.
Qed.

Lemma evolves_setClients l b :
  (NoDup (Batch.clients b) -> NoDup l) -> evolves b (Batch.setClients l b).
Proof. intros Hl. unfold evolves. simpl. split_and!; try done. apply slots_refl. Qed.

Lemma evolves_markRunning now b : evolves b (Batch.markRunning now b).
Proof. unfold evolves. simpl. split_and!; try done. apply slots_refl. Qed.

Lemma evolves_markCompleted now b : evolves b (Batch.markCompleted now b).
Proof. unfold evolves. simpl. split_and!; try done. apply slots_refl. Qed.

Lemma evolves_updProgress f b :
  Progress.total (f (Batch.progress b)) = Progress.total (Batch.progress b) ->
  evolves b (updProgress f b).
Proof. intros Hf. unfold evolves. simpl. split_and!; try done. apply slots_refl. Qed.

Lemma evolves_updRunStatus i f b :
  (forall rs, sameSlot rs (f rs)) -> evolves b (updRunStatus i f b).
Proof.
  intros Hf. unfold evolves. simpl. split_and!; try done.
  apply slots_alter; [done | apply slots_refl].
Qed.

Lemma evolves_pushRun r b : evolves b (Batch.pushRun r b).
Proof.
  unfold evolves. simpl. split_and!; try done; [apply slots_refl|].
  by apply prefix_app_r.
Qed.

Lemma catch_evolves now batchId i message b :
  evolves b (scheduleRun_catch now batchId i message b).1.
Proof.
  unfold scheduleRun_catch.
  assert (H1 : evolves b (updProgress Progress.incrFailed b))
    by (by apply evolves_updProgress).
  destruct (Batch.runStatuses (updProgress Progress.incrFailed b) !! i); simpl; [|done].
  eapply evolves_trans; [exact H1|].
  eapply evolves_trans; [|apply evolves_pushRun].
  by apply evolves_updRunStatus.
Qed.

Lemma finally_evolves b : evolves b (scheduleRun_finally b).
Proof. by apply evolves_updProgress. Qed.

Lemma admit_evolves now batchId i b : evolves b (scheduleRun_admit now batchId i b).1.1.
Proof.
  unfold scheduleRun_admit.
  assert (H1 : evolves b (updProgress Progress.incrRunning b))
    by (by apply evolves_updProgress).
  destruct (Batch.runStatuses (updProgress Progress.incrRunning b) !! i).
  - simpl. eapply evolves_trans; [exact H1|]. by apply evolves_updRunStatus.
  - pose proof (catch_evolves now batchId i typeError (updProgress Progress.incrRunning b)) as H2.
    destruct (scheduleRun_catch _ _ _ _ _) as [b2 ev]. simpl in *.
    eapply evolves_trans; [exact H1|]. eapply evolves_trans; [exact H2|].
    apply finally_evolves.
Qed.

Lemma check_evolves now cap batchId i b :
  evolves b (scheduleRun_check now cap batchId i b).1.1.
Proof.
  unfold scheduleRun_check. destruct (_ >=? _); [apply evolves_refl | apply admit_evolves].
Qed.

Lemma try_evolves now batchId i r b : evolves b (scheduleRun_try now batchId i r b).1.1.
Proof.
  unfold scheduleRun_try. destruct r as [res|e]; [|apply evolves_refl].
  set (b1 := Batch.pushRun _ b).
  assert (H1 : evolves b b1) by apply evolves_pushRun.
  destruct (Batch.runStatuses b1 !! i); simpl; [|done].
  eapply evolves_trans; [exact H1|].
  eapply evolves_trans; [by apply (evolves_updRunStatus i (RunStatus.complete now res))|].
  by apply evolves_updProgress.
Qed.

Lemma resume_evolves now batchId i r b : evolves b (scheduleRun_resume now batchId i r b).1.
Proof.
  unfold scheduleRun_resume.
  pose proof (try_evolves now batchId i r b) as H1.
  destruct (scheduleRun_try now batchId i r b) as [[b1 ev1] thrown]. simpl in H1.
  destruct thrown as [message|].
  - pose proof (catch_evolves now batchId i message b1) as H2.
    destruct (scheduleRun_catch now batchId i message b1) as [b2 ev2]. simpl in *.
    eapply evolves_trans; [exact H1|]. eapply evolves_trans; [exact H2|].
    apply finally_evolves.
  - simpl. eapply evolves_trans; [exact H1 | apply finally_evolves].
Qed.

Lemma spawn_evolves now cap batchId count : forall first b,
  evolves b (spawnRuns now cap batchId first count b).1.1.
Proof.
  induction count as [|count IH]; intros first b; simpl; [apply evolves_refl|].
  pose proof (check_evolves now cap batchId first b) as H1.
  destruct (scheduleRun_check now cap batchId first b) as [[b1 ev1] pc].
  specialize (IH (S first) b1).
  destruct (spawnRuns now cap batchId (S first) count b1) as [[b2 ev2] pcs].
  simpl in *. by eapply evolves_trans.
Qed.

Lemma taskTurn_evolves cap batchId i b pc pc' b' :
  taskTurn cap batchId i b pc pc' b' -> evolves b b'.
Proof.
  destruct 1; [apply check_evolves | apply evolves_refl | apply evolves_refl
               | apply resume_evolves].
Qed.

(** A turn keeps every registered batch, and a batch that appears was
    just created. *)
Lemma turn_evolves s s' id b :
  turn s s' -> batches s !! id = Some b ->
  exists b', batches s' !! id = Some b' /\ evolves b b'.
Proof.
  intros Ht Hb. destruct Ht as [Hc He|cfg now rand Hc Hn Hbs|c i k pc pc' b0 b1 Hk Hi Hb0 Htt Hc Hbs
                               |id0 now b0 b1 events pcs Hb0 Hsp Hc Hbs|c k b0 now Hk Hpc Hb0 Hc Hbs
                               |c k b0 Hk Hpc Hb0 Hc Hbs].
  - specialize (He id). rewrite Hb in He. inversion He as [? b' (l & -> & Hl)|]; subst.
    exists (Batch.setClients l b). split; [done | by apply evolves_setClients].
  - rewrite Hbs. destruct (decide (batchIdOf now rand cfg = id)) as [<-|Hne]; [congruence|].
    rewrite lookup_insert_ne by done. eauto using evolves_refl.
  - rewrite Hbs. destruct (decide (cbatch k = id)) as [<-|Hne].
    + rewrite lookup_insert_eq. rewrite Hb0 in Hb. inversion Hb; subst.
      eauto using taskTurn_evolves.
    + rewrite lookup_insert_ne by done. eauto using evolves_refl.
  - rewrite Hbs. destruct (decide (id0 = id)) as [<-|Hne].
    + rewrite lookup_insert_eq. rewrite Hb0 in Hb. inversion Hb; subst.
      eexists. split; [done|].
      pose proof (spawn_evolves now (maxConcurrent s) id0
                    (Z.to_nat (Config.repetitions (Batch.config b))) 0%nat
                    (Batch.markRunning now b)) as He.
      rewrite Hsp in He. simpl in He.
      eapply evolves_trans; [apply evolves_markRunning | exact He].
    + rewrite lookup_insert_ne by done. eauto using evolves_refl.
  - rewrite Hbs. destruct (decide (cbatch k = id)) as [<-|Hne].
    + rewrite lookup_insert_eq. rewrite Hb0 in Hb. inversion Hb; subst.
      eauto using evolves_markCompleted.
    + rewrite lookup_insert_ne by done. eauto using evolves_refl.
  - rewrite Hbs. destruct (decide (cbatch k = id)) as [<-|Hne].
    + rewrite lookup_insert_eq. rewrite Hb0 in Hb. inversion Hb; subst.
      eauto using evolves_refl.
    + rewrite lookup_insert_ne by done. eauto using evolves_refl.
Qed.

Lemma turn_new s s' id b' :
  turn s s' -> batches s !! id = None -> batches s' !! id = Some b' ->
  exists cfg now rand, id = batchIdOf now rand cfg /\ b' = newBatch now rand cfg.
Proof.
  intros Ht Hn Hb'. destruct Ht as [Hc He|cfg now rand Hc Hn0 Hbs|c i k pc pc' b0 b1 Hk Hi Hb0 Htt Hc Hbs
                               |id0 now b0 b1 events pcs Hb0 Hsp Hc Hbs|c k b0 now Hk Hpc Hb0 Hc Hbs
                               |c k b0 Hk Hpc Hb0 Hc Hbs].
  - specialize (He id). rewrite Hn, Hb' in He. inversion He.
  - rewrite Hbs in Hb'. destruct (decide (batchIdOf now rand cfg = id)) as [<-|Hne].
    + rewrite lookup_insert_eq in Hb'. inversion Hb'; subst. eauto.
    + rewrite lookup_insert_ne in Hb' by done. congruence.
  - rewrite Hbs in Hb'. destruct (decide (cbatch k = id)) as [<-|Hne]; [congruence|].
    rewrite lookup_insert_ne in Hb' by done. congruence.
  - rewrite Hbs in Hb'. destruct (decide (id0 = id)) as [<-|Hne]; [congruence|].
    rewrite lookup_insert_ne in Hb' by done. congruence.
  - rewrite Hbs in Hb'. destruct (decide (cbatch k = id)) as [<-|Hne]; [congruence|].
    rewrite lookup_insert_ne in Hb' by done. congruence.
  - rewrite Hbs in Hb'. destruct (decide (cbatch k = id)) as [<-|Hne]; [congruence|].
    rewrite lookup_insert_ne in Hb' by done. congruence.
Qed.

Lemma wellKept_new now rand cfg : wellKept (batchIdOf now rand cfg) (newBatch now rand cfg).
Proof.
  unfold wellKept. simpl. split_and!; try done; [apply NoDup_nil_2|].
  intros i rs Hi. unfold initialRunStatuses in Hi.
  rewrite list_lookup_fmap in Hi.
  destruct (seq 0 (Z.to_nat (Config.repetitions cfg)) !! i) as [j|] eqn:Ej; [|done].
  apply lookup_seq in Ej as [-> _]. simpl in Hi. inversion Hi; subst. done.
Qed.

Lemma wellKept_evolves id b b' : wellKept id b -> evolves b b' -> wellKept id b'.
Proof.
  unfold wellKept, evolves. intros (Hid & Ht & Hnd & Hs) (Hid' & Hc' & _ & Ht' & Hs' & Hnd' & _).
  split_and!; try congruence; [tauto|].
  intros i rs' Hi.
  destruct (Batch.runStatuses b !! i) as [rs|] eqn:Ei.
  - destruct (Forall2_lookup_lr _ _ _ _ _ _ Hs' Ei Hi) as [H1 H2].
    destruct (Hs i rs Ei). split; congruence.
  - apply Forall2_length in Hs'. apply lookup_ge_None in Ei.
    apply lookup_lt_Some in Hi. lia.
Qed.

Lemma wellKept_reachable s : reachable s ->
  forall id b, batches s !! id = Some b -> wellKept id b.
Proof.
  revert s. apply (reachable_ind (fun s => forall id b, batches s !! id = Some b -> wellKept id b)).
  - intros files conns id b Hb. simpl in Hb. by rewrite lookup_empty in Hb.
  - intros s s' _ IH Hstep id b' Hb'. apply step_turn in Hstep.
    destruct (batches s !! id) as [b|] eqn:Eb.
    + destruct (turn_evolves s s' id b Hstep Eb) as (b1 & Hb1 & He).
      rewrite Hb' in Hb1. inversion Hb1; subst. eapply wellKept_evolves; eauto.
    + destruct (turn_new s s' id b' Hstep Eb Hb') as (cfg & now & rand & -> & ->).
      apply wellKept_new.
Qed.

End TurnFacts.

(** ** Batch manager: the status of a batch and its records *)

Module LedgerFacts.
Import Js Engine SegmentFacts StepFacts CountFacts InvariantFacts RunFacts ProgressFacts
  Ledger TurnFacts.

Lemma filter_none {A} (P : A -> Prop) `{forall x, Decision (P x)} (l : list A) :
  (forall x, x ∈ l -> ~ P x) -> filter P l = [].
Proof.
  induction l as [|a l IH]; intros Hl; [done|].
  rewrite filter_cons, decide_False by (apply Hl; set_solver).
  apply IH. intros x Hx. apply Hl. set_solver.
Qed.

Lemma filter_nil_none {A} (P : A -> Prop) `{forall x, Decision (P x)} (l : list A) x :
  filter P l = [] -> x ∈ l -> ~ P x.
Proof. intros Hf Hx HP. by eapply filter_nil_not_elem_of. Qed.

Lemma callsOn_nil_alter id (f : StartCall -> StartCall) c (l : list StartCall) :
  (forall k, cbatch (f k) = cbatch k) ->
  filter (fun k => cbatch k = id) l = [] ->
  filter (fun k => cbatch k = id) (alter f c l) = [].
Proof.
  intros Hf Hnil. apply filter_none. intros x Hx. simpl. intros Hid.
  apply list_elem_of_lookup in Hx as [j Hj].
  rewrite list_lookup_alter in Hj.
  destruct (decide (c = j)) as [->|Hne].
  - destruct (l !! j) as [k|] eqn:Ek; simpl in Hj; [|done]. injection Hj as <-.
    rewrite Hf in Hid. eapply (filter_nil_none _ l k Hnil); [|done].
    by eapply list_elem_of_lookup_2.
  - eapply (filter_nil_none _ l x Hnil); [|done]. by eapply list_elem_of_lookup_2.
Qed.

Lemma awaiting_kept (f : StartCall -> StartCall) c (l : list StartCall) c0 k0 :
  l !! c0 = Some k0 -> cpc k0 = AwaitingAll ->
  (forall k, cbatch (f k) = cbatch k) ->
  (forall k, l !! c = Some k -> cpc k = AwaitingAll -> cbatch k = cbatch k0 ->
             cpc (f k) = AwaitingAll) ->
  exists c1 k1, alter f c l !! c1 = Some k1 /\ cbatch k1 = cbatch k0 /\ cpc k1 = AwaitingAll.
Proof.
  intros Hk0 Hpc Hf Hkeep. exists c0. rewrite list_lookup_alter.
  destruct (decide (c = c0)) as [->|Hne]; [|eauto].
  rewrite Hk0. simpl. exists (f k0). split_and!; [done | apply Hf | by apply Hkeep].
Qed.

Lemma taskTurn_status cap batchId i b pc pc' b' :
  taskTurn cap batchId i b pc pc' b' -> Batch.status b' = Batch.status b.
Proof.
  destruct 1; try done.
  - destruct (scheduleRun_check now cap batchId i b) as [[b1 ev] pc1] eqn:E.
    apply check_spec in E as ((_ & Hst & _) & _). done.
  - destruct (scheduleRun_resume now batchId i r b) as [b1 ev] eqn:E.
    apply resume_spec in E as ((_ & Hst & _) & _). done.
Qed.

(** The status of a batch follows the calls made on it. *)
Lemma statusKept_reachable s : reachable s -> statusKept s.
Proof.
  revert s. apply reachable_ind.
  { intros files conns id b Hb. simpl in Hb. by rewrite lookup_empty in Hb. }
  intros s s' Hr IH Hstep id b' Hb'.
  pose proof (accountInv_reachable s Hr) as Hinv.
  apply step_turn in Hstep.
  destruct Hstep as [Hc He|cfg now rand Hc Hn Hbs|c i k pc pc' b0 b1 Hk Hi Hb0 Htt Hc Hbs
                    |id0 now b0 b1 events pcs Hb0 Hsp Hc Hbs|c k b0 now Hk Hpc Hb0 Hc Hbs
                    |c k b0 Hk Hpc Hb0 Hc Hbs].
  - (* environment *)
    specialize (He id). rewrite Hb' in He. inversion He as [b ? (l & -> & _) Hb|]; subst.
    symmetry in Hb. specialize (IH id b Hb). unfold callsOn in *. simpl. by rewrite Hc.
  - (* createBatch *)
    rewrite Hbs in Hb'. unfold callsOn. rewrite Hc.
    destruct (decide (batchIdOf now rand cfg = id)) as [<-|Hne].
    + rewrite lookup_insert_eq in Hb'. inversion Hb'; subst. simpl.
      apply filter_none. intros k Hin. simpl. intros Hid.
      apply list_elem_of_lookup in Hin as [j Hj].
      destruct (inv_registered s Hinv j k Hj) as [b Hb]. congruence.
    + rewrite lookup_insert_ne in Hb' by done. apply (IH id b' Hb').
  - (* a turn of a task *)
    rewrite Hbs in Hb'. unfold callsOn. rewrite Hc.
    assert (Hsurvive : forall b, batches s !! id = Some b -> Batch.status b' = Batch.status b ->
              match Batch.status b' with
              | BatchCreated =>
                  filter (fun k => cbatch k = id) (alter (withRunPc i pc') c (calls s)) = []
              | BatchRunning =>
                  exists c1 k1, alter (withRunPc i pc') c (calls s) !! c1 = Some k1 /\
                                cbatch k1 = id /\ cpc k1 = AwaitingAll
              | BatchCompleted => True
              end).
    { intros b Hb Hst. specialize (IH id b Hb). rewrite <- Hst in IH.
      destruct (Batch.status b'); [|  |done].
      - by apply callsOn_nil_alter.
      - destruct IH as (c0 & k0 & Hk0 & <- & Hpc0). by eapply awaiting_kept. }
    destruct (decide (cbatch k = id)) as [<-|Hne].
    + rewrite lookup_insert_eq in Hb'. inversion Hb'; subst.
      apply (Hsurvive b0 Hb0). by eapply taskTurn_status.
    + rewrite lookup_insert_ne in Hb' by done. by apply (Hsurvive b' Hb').
  - (* startBatch *)
    rewrite Hbs in Hb'. unfold callsOn. rewrite Hc.
    destruct (decide (id0 = id)) as [<-|Hne].
    + rewrite lookup_insert_eq in Hb'. inversion Hb'; subst.
      apply spawn_spec in Hsp as ((_ & Hst & _) & _). rewrite Hst. simpl.
      exists (length (calls s)), {| cbatch := id0; runPromises := pcs; cpc := AwaitingAll |}.
      split_and!; try done. by rewrite lookup_app_r, Nat.sub_diag by lia.
    + rewrite lookup_insert_ne in Hb' by done. specialize (IH id b' Hb').
      destruct (Batch.status b'); [| |done].
      * rewrite filter_app. unfold callsOn in IH. rewrite IH. simpl.
        rewrite filter_cons, decide_False by done. done.
      * destruct IH as (c0 & k0 & Hk0 & Hid0 & Hpc0). exists c0, k0.
        split_and!; try done. by apply lookup_app_l_Some.
  - (* finalizeBatch begins *)
    rewrite Hbs in Hb'. unfold callsOn. rewrite Hc.
    destruct (decide (cbatch k = id)) as [<-|Hne].
    + rewrite lookup_insert_eq in Hb'. inversion Hb'; subst. done.
    + rewrite lookup_insert_ne in Hb' by done. specialize (IH id b' Hb').
      destruct (Batch.status b'); [| |done].
      * by apply callsOn_nil_alter.
      * destruct IH as (c0 & k0 & Hk0 & <- & Hpc0). eapply awaiting_kept; try done.
        intros k1 Hk1 _ Hid. rewrite Hk in Hk1. inversion Hk1; subst. done.
  - (* finalizeBatch ends *)
    rewrite Hbs in Hb'. unfold callsOn. rewrite Hc.
    assert (Hb : batches s !! id = Some b').
    { destruct (decide (cbatch k = id)) as [<-|Hne].
      - rewrite lookup_insert_eq in Hb'. congruence.
      - by rewrite lookup_insert_ne in Hb' by done. }
    specialize (IH id b' Hb).
    destruct (Batch.status b'); [| |done].
    * by apply callsOn_nil_alter.
    * destruct IH as (c0 & k0 & Hk0 & <- & Hpc0). eapply awaiting_kept; try done.
      intros k1 Hk1 Hpc1 _. rewrite Hk in Hk1. inversion Hk1; subst. congruence.
Qed.

(** *** The run records against the result counters *)

Lemma countRuns_push p r b :
  countRuns p (Batch.pushRun r b) = countRuns p b + (if p r then 1 else 0).
Proof.
  unfold countRuns. simpl. rewrite filter_app, length_app, filter_cons.
  destruct (p r); simpl; lia.
Qed.

Lemma tallied_same b b' :
  Batch.runs b' = Batch.runs b ->
  completed b' = completed b -> failed b' = failed b -> tallied b -> tallied b'.
Proof.
  unfold tallied, countRuns. intros -> -> ->. done.
Qed.

Lemma tallied_result b b' r :
  Batch.runs b' = Batch.runs (Batch.pushRun r b) ->
  hasResult r = true -> hasError r = false ->
  completed b' = completed b + 1 -> failed b' = failed b -> tallied b -> tallied b'.
Proof.
  intros Hruns Hres Herr Hc Hf (H1 & H2 & H3).
  pose proof (countRuns_push hasResult r b) as P1.
  pose proof (countRuns_push hasError r b) as P2.
  rewrite Hres in P1. rewrite Herr in P2.
  unfold tallied, countRuns in *. rewrite Hruns. split_and!; try lia.
  simpl. apply Forall_app. split; [done|]. apply Forall_singleton. by rewrite Hres, Herr.
Qed.

Lemma tallied_error b b' r :
  Batch.runs b' = Batch.runs (Batch.pushRun r b) ->
  hasResult r = false -> hasError r = true ->
  completed b' = completed b -> failed b' = failed b + 1 -> tallied b -> tallied b'.
Proof.
  intros Hruns Hres Herr Hc Hf (H1 & H2 & H3).
  pose proof (countRuns_push hasResult r b) as P1.
  pose proof (countRuns_push hasError r b) as P2.
  rewrite Hres in P1. rewrite Herr in P2.
  unfold tallied, countRuns in *. rewrite Hruns. split_and!; try lia.
  simpl. apply Forall_app. split; [done|]. apply Forall_singleton. by rewrite Hres, Herr.
Qed.

Lemma check_tallied now cap batchId i b :
  is_Some (Batch.runStatuses b !! i) ->
  tallied b -> tallied (scheduleRun_check now cap batchId i b).1.1.
Proof.
  intros [rs Hrs] Ht. unfold scheduleRun_check. destruct (_ >=? _); [done|].
  unfold scheduleRun_admit. simpl. rewrite Hrs. simpl.
  by apply (tallied_same b).
Qed.

Lemma resume_tallied now batchId i r b :
  is_Some (Batch.runStatuses b !! i) ->
  tallied b -> tallied (scheduleRun_resume now batchId i r b).1.
Proof.
  intros [rs Hrs] Ht.
  unfold scheduleRun_resume, scheduleRun_try, scheduleRun_catch, scheduleRun_finally.
  destruct r as [res|e]; simpl; rewrite Hrs; simpl.
  - eapply tallied_result; [| | | | |exact Ht]; simpl; reflexivity.
  - eapply tallied_error; [| | | | |exact Ht]; simpl; reflexivity.
Qed.

Lemma check_slots now cap batchId i b :
  length (Batch.runStatuses (scheduleRun_check now cap batchId i b).1.1)
  = length (Batch.runStatuses b).
Proof.
  destruct (scheduleRun_check now cap batchId i b) as [[b1 ev] pc] eqn:E.
  apply check_spec in E as ((_ & _ & Hl & _) & _). done.
Qed.

Lemma spawn_tallied now cap batchId count : forall first b,
  (first + count <= length (Batch.runStatuses b))%nat ->
  tallied b -> tallied (spawnRuns now cap batchId first count b).1.1.
Proof.
  induction count as [|count IH]; intros first b Hlen Ht; simpl; [done|].
  pose proof (check_tallied now cap batchId first b) as H1.
  pose proof (check_slots now cap batchId first b) as H2.
  destruct (scheduleRun_check now cap batchId first b) as [[b1 ev1] pc].
  specialize (IH (S first) b1).
  destruct (spawnRuns now cap batchId (S first) count b1) as [[b2 ev2] pcs].
  simpl in *. apply IH; [lia|]. apply H1; [|done].
  apply lookup_lt_is_Some_2. lia.
Qed.

Lemma taskTurn_tallied cap batchId i b pc pc' b' :
  is_Some (Batch.runStatuses b !! i) ->
  taskTurn cap batchId i b pc pc' b' -> tallied b -> tallied b'.
Proof.
  intros Hi Htt Ht. destruct Htt; try done; [by apply check_tallied | by apply resume_tallied].
Qed.

Lemma tallied_reachable s : reachable s ->
  forall id b, batches s !! id = Some b -> tallied b.
Proof.
  revert s. apply (reachable_ind (fun s => forall id b, batches s !! id = Some b -> tallied b)).
  { intros files conns id b Hb. simpl in Hb. by rewrite lookup_empty in Hb. }
  intros s s' Hr IH Hstep id b' Hb'.
  pose proof (accountInv_reachable s Hr) as Hinv.
  apply step_turn in Hstep.
  destruct Hstep as [Hc He|cfg now rand Hc Hn Hbs|c i k pc pc' b0 b1 Hk Hi Hb0 Htt Hc Hbs
                    |id0 now b0 b1 events pcs Hb0 Hsp Hc Hbs|c k b0 now Hk Hpc Hb0 Hc Hbs
                    |c k b0 Hk Hpc Hb0 Hc Hbs].
  - specialize (He id). rewrite Hb' in He. inversion He as [b ? (l & -> & _) Hb|]; subst.
    symmetry in Hb. by apply (tallied_same b), (IH id).
  - rewrite Hbs in Hb'. destruct (decide (batchIdOf now rand cfg = id)) as [<-|Hne].
    + rewrite lookup_insert_eq in Hb'. inversion Hb'; subst.
      unfold tallied, countRuns. simpl. split_and!; try done.
    + rewrite lookup_insert_ne in Hb' by done. by apply (IH id).
  - rewrite Hbs in Hb'. destruct (decide (cbatch k = id)) as [<-|Hne].
    + rewrite lookup_insert_eq in Hb'. inversion Hb'; subst.
      eapply taskTurn_tallied; [|exact Htt|by apply (IH (cbatch k))].
      apply lookup_lt_is_Some_2. apply lookup_lt_Some in Hi.
      rewrite (inv_slots s Hinv (cbatch k) b0 Hb0).
      by rewrite <- (inv_size s Hinv c k b0 Hk Hb0).
    + rewrite lookup_insert_ne in Hb' by done. by apply (IH id).
  - rewrite Hbs in Hb'. destruct (decide (id0 = id)) as [<-|Hne].
    + rewrite lookup_insert_eq in Hb'. inversion Hb'; subst.
      pose proof (spawn_tallied now (maxConcurrent s) id0
                    (Z.to_nat (Config.repetitions (Batch.config b0))) 0%nat
                    (Batch.markRunning now b0)) as Hs.
      rewrite Hsp in Hs. simpl in Hs. apply Hs.
      * rewrite (inv_slots s Hinv id0 b0 Hb0). lia.
      * by apply (tallied_same b0), (IH id0).
    + rewrite lookup_insert_ne in Hb' by done. by apply (IH id).
  - rewrite Hbs in Hb'. destruct (decide (cbatch k = id)) as [<-|Hne].
    + rewrite lookup_insert_eq in Hb'. inversion Hb'; subst.
      by apply (tallied_same b0), (IH (cbatch k)).
    + rewrite lookup_insert_ne in Hb' by done. by apply (IH id).
  - rewrite Hbs in Hb'. destruct (decide (cbatch k = id)) as [<-|Hne].
    + rewrite lookup_insert_eq in Hb'. inversion Hb'; subst. by apply (IH (cbatch k)).
    + rewrite lookup_insert_ne in Hb' by done. by apply (IH id).
Qed.

Lemma countRuns_nonneg p b : 0 <= countRuns p b.
Proof. unfold countRuns. lia. Qed.

(** A batch on which no call was made has its counters at zero. *)
Lemma created_counters s id b :
  reachable s -> batches s !! id = Some b -> Batch.status b = BatchCreated ->
  running b = 0 /\ completed b = 0 /\ failed b = 0.
Proof.
  intros Hr Hb Hst.
  pose proof (accountInv_reachable s Hr) as Hinv.
  pose proof (statusKept_reachable s Hr id b Hb) as Hk. rewrite Hst in Hk.
  pose proof (tallied_reachable s Hr id b Hb) as (H1 & H2 & _).
  pose proof (countRuns_nonneg hasResult b). pose proof (countRuns_nonneg hasError b).
  assert (Hnone : forall p, countTasks p id (calls s) = 0).
  { intros p. apply countTasks_none. intros c k Hc Hid.
    eapply (filter_nil_none _ (calls s) k Hk); [|done]. by eapply list_elem_of_lookup_2. }
  pose proof (inv_running s Hinv id b Hb) as Hrun. rewrite Hnone in Hrun.
  pose proof (inv_finished s Hinv id b Hb) as Hfin. rewrite Hnone in Hfin.
  lia.
Qed.



(** X11.  In every state a manager can reach, a batch is registered
    under its own [id], its [progress.total] is the [repetitions] of
    its configuration, a connection is among its clients at most once,
    and its run slot [i] has [runIndex] [i] and [runId]
    [<batch id>_run_<i>]. *)
Theorem batches_are_well_kept (s : State) (batchId : string) (b : Batch.t) :
  reachable s -> batches s !! batchId = Some b -> wellKept batchId b.
Proof. intros Hr Hb. by apply (wellKept_reachable s Hr). Qed.

Lemma batches_are_well_kept_witness :
  exists b,
    batches (Samples.after Samples.crashingBatch) !! Samples.zapId = Some b /\
    wellKept Samples.zapId b.
Proof.
  destruct (batches (Samples.after Samples.crashingBatch) !! Samples.zapId) as [b|] eqn:E;
    [|vm_compute in E; discriminate].
  exists b. split; [reflexivity|].
  assert (Hreach : reachable (Samples.after Samples.crashingBatch)).
  { apply after_reachable. vm_compute. reflexivity. }
  exact (batches_are_well_kept _ _ b Hreach E).
Defined.

(** X12.  What [getBatchStatus] returns in a reachable state: the [id]
    of the snapshot is the identifier asked for, its [progress.total]
    is the [repetitions] of its configuration, its [completed] and
    [failed] counters are not negative, and while the batch is in
    status created all three counters are zero. *)
Theorem status_snapshot_consistent (s : State) (batchId : string) (snap : BatchSnapshot.t) :
  reachable s -> Registry.getBatchStatus batchId s = Some snap ->
  BatchSnapshot.id snap = batchId /\
  Progress.total (BatchSnapshot.progress snap)
  = Config.repetitions (BatchSnapshot.config snap) /\
  0 <= Progress.completed (BatchSnapshot.progress snap) /\
  0 <= Progress.failed (BatchSnapshot.progress snap) /\
  (BatchSnapshot.status snap = BatchCreated ->
   Progress.running (BatchSnapshot.progress snap) = 0 /\
   Progress.completed (BatchSnapshot.progress snap) = 0 /\
   Progress.failed (BatchSnapshot.progress snap) = 0).
Proof.
  intros Hr. unfold Registry.getBatchStatus.
  destruct (batches s !! batchId) as [b|] eqn:Hb; [|done]. intros [= <-]. simpl.
  destruct (wellKept_reachable s Hr batchId b Hb) as (Hid & Ht & _).
  pose proof (tallied_reachable s Hr batchId b Hb) as (H1 & H2 & _).
  pose proof (countRuns_nonneg hasResult b). pose proof (countRuns_nonneg hasError b).
  split_and!; try done; try lia.
  intros Hst. by apply (created_counters s batchId b).
Qed.

Lemma status_snapshot_consistent_witness :
  exists snap,
    Registry.getBatchStatus Samples.zapId (Samples.after Samples.tenRuns) = Some snap /\
    BatchSnapshot.id snap = Samples.zapId /\
    Progress.total (BatchSnapshot.progress snap)
    = Config.repetitions (BatchSnapshot.config snap).
Proof.
  destruct (Registry.getBatchStatus Samples.zapId (Samples.after Samples.tenRuns))
    as [snap|] eqn:E; [|vm_compute in E; discriminate].
  exists snap. split; [reflexivity|].
  assert (Hreach : reachable (Samples.after Samples.tenRuns)).
  { apply after_reachable. vm_compute. reflexivity. }
  pose proof (status_snapshot_consistent _ _ snap Hreach E) as (H1 & H2 & _).
  exact (conj H1 H2).
Defined.

(** X13.  A batch in status running can always be brought to status
    completed: from every reachable state in which it is running there
    are turns of the event loop that end with the batch completed. *)
Theorem running_batch_can_complete (s : State) (batchId : string) (b : Batch.t) :
  reachable s -> batches s !! batchId = Some b -> Batch.status b = BatchRunning ->
  exists s' b', rtc step s s' /\ batches s' !! batchId = Some b' /\
                Batch.status b' = BatchCompleted.
Proof.
  intros Hr Hb Hst.
  pose proof (statusKept_reachable s Hr batchId b Hb) as Hk. rewrite Hst in Hk.
  destruct Hk as (c & k & Hk & <- & Hpc).
  by apply (awaiting_call_can_complete s c k).
Qed.

Lemma running_batch_can_complete_witness :
  exists s' b',
    rtc step (Samples.after Samples.tenRuns) s' /\
    batches s' !! Samples.zapId = Some b' /\ Batch.status b' = BatchCompleted.
Proof.
  destruct (batches (Samples.after Samples.tenRuns) !! Samples.zapId) as [b|] eqn:E;
    [|vm_compute in E; discriminate].
  assert (Hst : Batch.status b = BatchRunning).
  { vm_compute in E. inversion E; subst. reflexivity. }
  assert (Hreach : reachable (Samples.after Samples.tenRuns)).
  { apply after_reachable. vm_compute. reflexivity. }
  exact (running_batch_can_complete _ _ b Hreach E Hst).
Defined.

(** X14.  In every reachable state the run records of a batch account
    for its result counters: [progress.completed] is the number of
    records that carry a result, [progress.failed] the number of
    records that carry an error, and every record carries exactly one
    of the two. *)
Theorem records_match_counters (s : State) (batchId : string) (b : Batch.t) :
  reachable s -> batches s !! batchId = Some b ->
  tallied b /\
  Z.of_nat (length (Batch.runs b))
  = Progress.completed (Batch.progress b) + Progress.failed (Batch.progress b).
Proof.
  intros Hr Hb. pose proof (tallied_reachable s Hr batchId b Hb) as Ht.
  split; [done|]. destruct Ht as (H1 & H2 & H3). rewrite <- H1, <- H2.
  unfold countRuns. clear H1 H2. induction H3 as [|r l Hr' _ IH]; [done|].
  rewrite !filter_cons. simpl length.
  destruct (hasResult r), (hasError r); simpl in *; try done; lia.
Qed.

Lemma records_match_counters_witness :
  exists b,
    batches (Samples.after Samples.crashingBatch) !! Samples.zapId = Some b /\
    tallied b /\
    Z.of_nat (length (Batch.runs b))
    = Progress.completed (Batch.progress b) + Progress.failed (Batch.progress b).
Proof.
  destruct (batches (Samples.after Samples.crashingBatch) !! Samples.zapId) as [b|] eqn:E;
    [|vm_compute in E; discriminate].
  exists b. split; [reflexivity|].
  assert (Hreach : reachable (Samples.after Samples.crashingBatch)).
  { apply after_reachable. vm_compute. reflexivity. }
  exact (records_match_counters _ _ b Hreach E).
Defined.

End LedgerFacts.

(** ** Run scheduler: run slots and tasks *)

Module SlotFacts.
Import Js Engine SegmentFacts StepFacts CountFacts InvariantFacts RunFacts ProgressFacts
  Ledger TurnFacts LedgerFacts.

(** *** The calls on a batch under an update of one call *)

Section CallsOn.
Context (id : string) (f : StartCall -> StartCall).
Hypothesis f_cbatch : forall k, cbatch (f k) = cbatch k.

Abbreviation onId := (fun k : StartCall => cbatch k = id).

Lemma alter_0 (a : StartCall) l : alter f 0%nat (a :: l) = f a :: l.
Proof. done. Qed.

Lemma alter_S (a : StartCall) l c : alter f (S c) (a :: l) = a :: alter f c l.
Proof. done. Qed.

Lemma filter_alter_other c (l : list StartCall) k :
  l !! c = Some k -> cbatch k <> id -> filter onId (alter f c l) = filter onId l.
Proof.
  revert c. induction l as [|a l IH]; intros [|c] Hk Hne; try done.
  - injection Hk as ->. rewrite alter_0, !filter_cons, !decide_False; [done | done |].
    by rewrite f_cbatch.
  - rewrite alter_S, !filter_cons. by rewrite (IH c Hk Hne).
Qed.

Lemma filter_alter_rel c (l : list StartCall) :
  Forall2 (fun k k' => k' = k \/ k' = f k) (filter onId l) (filter onId (alter f c l)).
Proof.
  assert (Hrefl : forall l0 : list StartCall,
            Forall2 (fun k k' => k' = k \/ k' = f k) l0 l0).
  { intros l0. induction l0; constructor; auto. }
  revert c. induction l as [|a l IH]; intros c; [constructor|].
  destruct c as [|c].
  - rewrite alter_0, !filter_cons. rewrite f_cbatch.
    destruct (decide (cbatch a = id)); [constructor; [by right|]|]; apply Hrefl.
  - rewrite alter_S, !filter_cons.
    destruct (decide (cbatch a = id)); [constructor; [by left|]|]; apply IH.
Qed.

Lemma filter_single c (l : list StartCall) k :
  l !! c = Some k -> cbatch k = id -> (length (filter onId l) <= 1)%nat ->
  filter onId l = [k] /\ filter onId (alter f c l) = [f k].
Proof.
  revert c. induction l as [|a l IH]; intros [|c] Hk Hid Hlen; try done.
  - injection Hk as ->. rewrite alter_0, !filter_cons, f_cbatch in *.
    rewrite !decide_True in * by done. simpl in Hlen.
    destruct (filter onId l); [done | simpl in Hlen; lia].
  - rewrite alter_S, !filter_cons in *. destruct (decide (cbatch a = id)) as [Ha|Ha].
    + simpl in Hlen. assert (Hin : k ∈ filter onId l).
      { apply list_elem_of_filter. split; [done|]. by eapply list_elem_of_lookup_2. }
      destruct (filter onId l); [by apply elem_of_nil in Hin | simpl in Hlen; lia].
    + by apply (IH c).
Qed.

End CallsOn.

Lemma withRunPc_cbatch i pc k : cbatch (withRunPc i pc k) = cbatch k.
Proof. done. Qed.

Lemma withCallPc_cbatch pc k : cbatch (withCallPc pc k) = cbatch k.
Proof. done. Qed.

(** A turn of a call keeps the tasks of every batch. *)
Lemma taskOf_withCallPc id i pc c s s' :
  calls s' = alter (withCallPc pc) c (calls s) ->
  taskOf id i s' = taskOf id i s /\ length (callsOn id s') = length (callsOn id s).
Proof.
  intros Hc. unfold taskOf, callsOn. rewrite Hc.
  pose proof (filter_alter_rel id (withCallPc pc) (withCallPc_cbatch pc) c (calls s)) as Hrel.
  split; [|symmetry; by eapply Forall2_length].
  destruct Hrel as [|k k' l l' [->| ->] _]; done.
Qed.

(** *** The run slots under the stretches of a task *)

Lemma check_slot now cap batchId i b rs :
  Batch.runStatuses b !! i = Some rs ->
  (scheduleRun_check now cap batchId i b).2 = Waiting /\
  (scheduleRun_check now cap batchId i b).1.1 = b \/
  isScanning (scheduleRun_check now cap batchId i b).2 = true /\
  Batch.runStatuses (scheduleRun_check now cap batchId i b).1.1
  = alter (RunStatus.start now) i (Batch.runStatuses b).
Proof.
  intros Hrs. unfold scheduleRun_check. destruct (_ >=? _); [by left|].
  right. unfold scheduleRun_admit. simpl. rewrite Hrs. done.
Qed.

Lemma resume_slot now batchId i r b rs :
  Batch.runStatuses b !! i = Some rs ->
  exists g, Batch.runStatuses (scheduleRun_resume now batchId i r b).1
            = alter g i (Batch.runStatuses b) /\
            (RunStatus.status (g rs) = RunCompleted \/ RunStatus.status (g rs) = RunFailed).
Proof.
  intros Hrs.
  unfold scheduleRun_resume, scheduleRun_try, scheduleRun_catch, scheduleRun_finally.
  destruct r as [res|e]; simpl; rewrite Hrs; simpl.
  - exists (RunStatus.complete now res). split; [done | by left].
  - exists (RunStatus.fail now e). split; [done | by right].
Qed.

Lemma spawn_slots now cap batchId count : forall first b,
  (forall j rs, (first <= j)%nat -> Batch.runStatuses b !! j = Some rs ->
                RunStatus.status rs = RunPending) ->
  (first + count <= length (Batch.runStatuses b))%nat ->
  forall j rs',
    Batch.runStatuses (spawnRuns now cap batchId first count b).1.1 !! j = Some rs' ->
    ((j < first)%nat -> Batch.runStatuses b !! j = Some rs') /\
    ((first <= j)%nat ->
     slotMatches ((spawnRuns now cap batchId first count b).2 !! (j - first)%nat)
       (RunStatus.status rs')).
Proof.
  induction count as [|count IH]; intros first b Hpend Hlen j rs'; simpl.
  { intros Hj. split; [done|]. intros Hle. simpl. eauto. }
  destruct (lookup_lt_is_Some_2 (Batch.runStatuses b) first) as [rs Hrs]; [lia|].
  pose proof (check_slot now cap batchId first b rs Hrs) as Hck.
  pose proof (check_slots now cap batchId first b) as Hsz.
  destruct (scheduleRun_check now cap batchId first b) as [[b1 ev1] pc]. simpl in Hck, Hsz.
  assert (Hother : forall j0, j0 <> first ->
            Batch.runStatuses b1 !! j0 = Batch.runStatuses b !! j0).
  { intros j0 Hj0. destruct Hck as [[_ ->]|[_ ->]]; [done|].
    by rewrite list_lookup_alter_ne. }
  specialize (IH (S first) b1).
  destruct (spawnRuns now cap batchId (S first) count b1) as [[b2 ev2] pcs]. simpl in *.
  intros Hj. destruct (IH) with (j := j) (rs' := rs') as [IH1 IH2]; try done.
  { intros j0 rs0 Hj0 H0. rewrite Hother in H0 by lia. apply (Hpend j0); [lia | done]. }
  { lia. }
  split.
  - intros Hlt. rewrite <- Hother by lia. apply IH1. lia.
  - intros Hle. destruct (decide (j = first)) as [->|Hne].
    + rewrite Nat.sub_diag. simpl. specialize (IH1 ltac:(lia)).
      destruct Hck as [[-> ->]|[Hsc Hst]].
      * simpl. by apply (Hpend first).
      * rewrite Hst, list_lookup_alter_eq, Hrs in IH1. simpl in IH1. inversion IH1; subst.
        destruct pc; done.
    + replace (j - first)%nat with (S (j - S first)) by lia. simpl. apply IH2. lia.
Qed.


Lemma new_batch_uncalled s now rand cfg :
  accountInv s -> batches s !! batchIdOf now rand cfg = None ->
  callsOn (batchIdOf now rand cfg) s = [].
Proof.
  intros Hinv Hn. unfold callsOn. apply filter_none. intros k Hin. simpl. intros Hid.
  apply list_elem_of_lookup in Hin as [j Hj].
  destruct (inv_registered s Hinv j k Hj) as [b Hb]. congruence.
Qed.

Lemma slotsFollowTasks_reachable s : reachable s -> slotsFollowTasks s.
Proof.
  revert s. apply reachable_ind.
  { intros files conns id b Hb. simpl in Hb. by rewrite lookup_empty in Hb. }
  intros s s' Hr IH Hstep id b' Hb' Hlen j rs' Hrs'.
  pose proof (accountInv_reachable s Hr) as Hinv.
  apply step_turn in Hstep.
  destruct Hstep as [Hc He|cfg now rand Hc Hn Hbs|c i k pc pc' b0 b1 Hk Hi Hb0 Htt Hc Hbs
                    |id0 now b0 b1 events pcs Hb0 Hsp Hc Hbs|c k b0 now Hk Hpc Hb0 Hc Hbs
                    |c k b0 Hk Hpc Hb0 Hc Hbs].
  - (* environment *)
    specialize (He id). rewrite Hb' in He. inversion He as [b ? (l & -> & _) Hb|]; subst.
    symmetry in Hb. unfold taskOf, callsOn in *. rewrite Hc in *. by apply (IH id b Hb).
  - (* createBatch *)
    rewrite Hbs in Hb'.
    destruct (decide (batchIdOf now rand cfg = id)) as [<-|Hne].
    + rewrite lookup_insert_eq in Hb'. inversion Hb'; subst.
      pose proof (new_batch_uncalled s now rand cfg Hinv Hn) as Hnil.
      unfold taskOf, callsOn in *. rewrite Hc, Hnil. simpl.
      simpl in Hrs'. unfold initialRunStatuses in Hrs'. rewrite list_lookup_fmap in Hrs'.
      destruct (seq 0 (Z.to_nat (Config.repetitions cfg)) !! j); simpl in Hrs'; [|done].
      by inversion Hrs'.
    + rewrite lookup_insert_ne in Hb' by done.
      unfold taskOf, callsOn in *. rewrite Hc in *. by apply (IH id b' Hb').
  - (* a turn of a task *)
    rewrite Hbs in Hb'.
    destruct (decide (cbatch k = id)) as [<-|Hne].
    2:{ rewrite lookup_insert_ne in Hb' by done.
        unfold taskOf, callsOn in *. rewrite Hc in *.
        rewrite (filter_alter_other id _ (withRunPc_cbatch i pc') c (calls s) k Hk Hne) in *.
        by apply (IH id b' Hb'). }
    rewrite lookup_insert_eq in Hb'. inversion Hb'; subst b1. clear Hb'.
    assert (Hlen0 : (length (callsOn (cbatch k) s) <= 1)%nat).
    { unfold callsOn in *. rewrite Hc in Hlen.
      pose proof (filter_alter_rel (cbatch k) _ (withRunPc_cbatch i pc') c (calls s)) as Hrel.
      apply Forall2_length in Hrel. lia. }
    destruct (filter_single (cbatch k) _ (withRunPc_cbatch i pc') c (calls s) k Hk eq_refl Hlen0)
      as [Hone Hone'].
    assert (IHb : forall j0 rs0, Batch.runStatuses b0 !! j0 = Some rs0 ->
                    slotMatches (runPromises k !! j0) (RunStatus.status rs0)).
    { intros j0 rs0 H0. specialize (IH (cbatch k) b0 Hb0 Hlen0 j0 rs0 H0).
      unfold taskOf, callsOn in IH. by rewrite Hone in IH. }
    unfold taskOf, callsOn. rewrite Hc, Hone'. simpl.
    destruct (lookup_lt_is_Some_2 (Batch.runStatuses b0) i) as [rsi Hrsi].
    { apply lookup_lt_Some in Hi. rewrite (inv_slots s Hinv (cbatch k) b0 Hb0).
      by rewrite <- (inv_size s Hinv c k b0 Hk Hb0). }
    pose proof (lookup_lt_Some _ _ _ Hi) as Hilt.
    inversion Htt; subst.
    + (* the admission loop *)
      destruct (check_slot now (maxConcurrent s) (cbatch k) i b0 rsi Hrsi)
        as [[Hw Hsame]|[Hsc Hst]].
      * rewrite Hw. rewrite Hsame in Hrs'. rewrite list_insert_id by done. by apply IHb.
      * rewrite Hst in Hrs'. destruct (decide (j = i)) as [->|Hji].
        -- rewrite list_lookup_insert_eq by done.
           rewrite list_lookup_alter_eq, Hrsi in Hrs'. inversion Hrs'; subst. simpl.
           by destruct (scheduleRun_check now (maxConcurrent s) (cbatch k) i b0).2.
        -- rewrite list_lookup_insert_ne by done.
           rewrite list_lookup_alter_ne in Hrs' by done. by apply IHb.
    + (* output *)
      destruct (decide (j = i)) as [->|Hji].
      * rewrite list_lookup_insert_eq by done.
        specialize (IHb i rs' Hrs'). by rewrite Hi in IHb.
      * rewrite list_lookup_insert_ne by done. by apply IHb.
    + (* the executor settles *)
      destruct (decide (j = i)) as [->|Hji].
      * rewrite list_lookup_insert_eq by done.
        specialize (IHb i rs' Hrs'). by rewrite Hi in IHb.
      * rewrite list_lookup_insert_ne by done. by apply IHb.
    + (* the end of the task *)
      destruct (resume_slot now (cbatch k) i r b0 rsi Hrsi) as (g & Hg & Hst).
      rewrite Hg in Hrs'. destruct (decide (j = i)) as [->|Hji].
      * rewrite list_lookup_insert_eq by done.
        rewrite list_lookup_alter_eq, Hrsi in Hrs'. inversion Hrs'; subst. done.
      * rewrite list_lookup_insert_ne by done.
        rewrite list_lookup_alter_ne in Hrs' by done. by apply IHb.
  - (* startBatch *)
    rewrite Hbs in Hb'. unfold taskOf, callsOn in *. rewrite Hc in *.
    rewrite filter_app, filter_cons in *. simpl in *.
    destruct (decide (id0 = id)) as [<-|Hne].
    + rewrite lookup_insert_eq in Hb'. inversion Hb'; subst b1. clear Hb'.
      rewrite length_app in Hlen. simpl in Hlen.
      destruct (filter (fun k => cbatch k = id0) (calls s)) as [|k0 l0] eqn:Ef;
        [|simpl in Hlen; lia].
      simpl.
      pose proof (spawn_slots now (maxConcurrent s) id0
                    (Z.to_nat (Config.repetitions (Batch.config b0))) 0%nat
                    (Batch.markRunning now b0)) as Hs.
      rewrite Hsp in Hs. simpl in Hs.
      destruct (Hs) with (j := j) (rs' := rs') as [_ Hm]; try done.
      * intros j0 rs0 _ H0.
        assert (Hl0 : (length (callsOn id0 s) <= 1)%nat) by (unfold callsOn; rewrite Ef; simpl; lia).
        specialize (IH id0 b0 Hb0 Hl0 j0 rs0 H0).
        unfold taskOf, callsOn in IH. by rewrite Ef in IH.
      * rewrite (inv_slots s Hinv id0 b0 Hb0). lia.
      * rewrite Nat.sub_0_r in Hm. apply Hm. lia.
    + rewrite lookup_insert_ne in Hb' by done. rewrite app_nil_r in *.
      by apply (IH id b' Hb').
  - (* finalizeBatch begins *)
    destruct (taskOf_withCallPc id j Reporting c s s' Hc) as [-> Hl]. rewrite Hl in Hlen.
    rewrite Hbs in Hb'. destruct (decide (cbatch k = id)) as [<-|Hne].
    + rewrite lookup_insert_eq in Hb'. inversion Hb'; subst. by apply (IH (cbatch k) b0 Hb0).
    + rewrite lookup_insert_ne in Hb' by done. by apply (IH id b' Hb').
  - (* finalizeBatch ends *)
    destruct (taskOf_withCallPc id j Finished c s s' Hc) as [-> Hl]. rewrite Hl in Hlen.
    rewrite Hbs in Hb'. destruct (decide (cbatch k = id)) as [<-|Hne].
    + rewrite lookup_insert_eq in Hb'. inversion Hb'; subst. by apply (IH (cbatch k) b' Hb0).
    + rewrite lookup_insert_ne in Hb' by done. by apply (IH id b' Hb').
Qed.




(** X16.  In every reachable state, in a batch that was started at
    most once the state of each run slot follows the place of its task:
    the run is pending while no task exists or the task waits for a
    slot, running from its admission until its task resumes after the
    scan, and completed or failed once the task has ended. *)
Theorem run_slots_follow_tasks (s : State) (batchId : string) (b : Batch.t) (i : nat)
    (rs : RunStatus.t) :
  reachable s -> batches s !! batchId = Some b ->
  (length (callsOn batchId s) <= 1)%nat ->
  Batch.runStatuses b !! i = Some rs ->
  slotMatches (taskOf batchId i s) (RunStatus.status rs).
Proof. intros Hr Hb Hlen Hrs. by apply (slotsFollowTasks_reachable s Hr batchId b Hb Hlen). Qed.

Lemma run_slots_follow_tasks_witness :
  exists b rs,
    batches (Samples.after Samples.tenRuns) !! Samples.zapId = Some b /\
    Batch.runStatuses b !! 3%nat = Some rs /\
    slotMatches (taskOf Samples.zapId 3 (Samples.after Samples.tenRuns)) (RunStatus.status rs).
Proof.
  destruct (batches (Samples.after Samples.tenRuns) !! Samples.zapId) as [b|] eqn:E;
    [|vm_compute in E; discriminate].
  destruct (Batch.runStatuses b !! 3%nat) as [rs|] eqn:Ers.
  2:{ vm_compute in E. inversion E; subst. vm_compute in Ers. discriminate. }
  exists b, rs. split; [reflexivity|]. split; [exact Ers|].
  assert (Hreach : reachable (Samples.after Samples.tenRuns)).
  { apply after_reachable. vm_compute. reflexivity. }
  assert (Hone : (length (callsOn Samples.zapId (Samples.after Samples.tenRuns)) <= 1)%nat).
  { vm_compute. lia. }
  exact (run_slots_follow_tasks _ _ b 3%nat rs Hreach E Hone Ers).
Defined.



End SlotFacts.

(** ** Process supervisor and finalization *)

Module SupervisorProps.
Import Js Engine SegmentFacts StepFacts CountFacts InvariantFacts RunFacts ProgressFacts
  Ledger TurnFacts LedgerFacts SlotFacts ReportProps.






(** X19.  A batch whose configuration asks for no repetition, or for a
    negative number of them, is started without any task: the call
    awaits nothing, and its finalization completes the batch with the
    counters and the run records it had. *)
Theorem batch_without_runs_completes (s : State) (batchId : string) (b : Batch.t)
    (now now' : Z) (failure : string -> option string) (files : Fs.t) :
  batches s !! batchId = Some b -> Config.repetitions (Batch.config b) <= 0 ->
  exists s1 s2 s3 b3,
    fire (EvStartBatch batchId now) s = Some s1 /\
    calls s1 = calls s ++ [ {| cbatch := batchId; runPromises := []; cpc := AwaitingAll |} ] /\
    fire (EvFinalize (length (calls s)) now') s1 = Some s2 /\
    fire (EvReports (length (calls s)) failure files) s2 = Some s3 /\
    batches s3 !! batchId = Some b3 /\ Batch.status b3 = BatchCompleted /\
    Batch.progress b3 = Batch.progress b /\ Batch.runs b3 = Batch.runs b /\
    Batch.runStatuses b3 = Batch.runStatuses b.
Proof.
  intros Hb Hrep.
  assert (Hz : Z.to_nat (Config.repetitions (Batch.config b)) = 0%nat) by lia.
  set (k := {| cbatch := batchId; runPromises := []; cpc := AwaitingAll |}).
  set (e1 := (Batch.markRunning now b,
              [batch_started batchId (Config.repetitions (Batch.config b))])).
  set (s1 := setCalls (calls (commit batchId e1 s) ++ [k]) (commit batchId e1 s)).
  destruct (commit_frame batchId e1 s) as (Hb1 & _ & _ & _ & Hc1).
  assert (Hk1 : calls s1 !! length (calls s) = Some k).
  { change (calls s1) with (calls (commit batchId e1 s) ++ [k]).
    rewrite Hc1. by rewrite lookup_app_r, Nat.sub_diag by lia. }
  assert (Hbs1 : batches s1 !! batchId = Some (Batch.markRunning now b)).
  { change (batches s1) with (batches (commit batchId e1 s)).
    rewrite Hb1. apply lookup_insert_eq. }
  set (e2 := finalizeBatch_begin now' (Batch.markRunning now b)).
  set (s2 := setCallPc (length (calls s)) Reporting (commit batchId e2 s1)).
  destruct (commit_frame batchId e2 s1) as (Hb2 & _ & _ & _ & Hc2).
  assert (Hk2 : calls s2 !! length (calls s) = Some (withCallPc Reporting k)).
  { change (calls s2)
      with (alter (withCallPc Reporting) (length (calls s)) (calls (commit batchId e2 s1))).
    by rewrite Hc2, list_lookup_alter_eq, Hk1. }
  assert (Hbs2 : batches s2 !! batchId
                 = Some (Batch.markCompleted now' (Batch.markRunning now b))).
  { change (batches s2) with (batches (commit batchId e2 s1)).
    rewrite Hb2. apply lookup_insert_eq. }
  set (e3 := finalizeBatch_end batchId failure
               (Batch.markCompleted now' (Batch.markRunning now b))).
  set (s3 := setCallPc (length (calls s)) Finished (commit batchId e3 (setFs files s2))).
  destruct (commit_frame batchId e3 (setFs files s2)) as (Hb3 & _ & _ & _ & Hc3).
  exists s1, s2, s3, (Batch.markCompleted now' (Batch.markRunning now b)).
  split_and!; try done.
  - cbn [fire]. unfold startBatch. rewrite Hb, Hz. done.
  - change (calls s1) with (calls (commit batchId e1 s) ++ [k]). by rewrite Hc1.
  - cbn [fire]. rewrite Hk1. cbn [cpc cbatch k]. rewrite Hbs1. done.
  - cbn [fire]. rewrite Hk2. cbn [cpc cbatch k withCallPc]. rewrite Hbs2. done.
  - change (batches s3) with (batches (commit batchId e3 (setFs files s2))).
    rewrite Hb3. apply lookup_insert_eq.
Qed.

Lemma batch_without_runs_completes_witness :
  exists s3 b3,
    run [EvStartBatch Samples.zapId 1700000000005; EvFinalize 0 1700000000006;
         EvReports 0 (fun _ => None) Samples.emptyFs]
      (createBatch (Samples.zapConfig 0) 1700000000000 "k3j9x2m1q" Samples.fresh).2
    = Some s3 /\
    batches s3 !! Samples.zapId = Some b3 /\ Batch.status b3 = BatchCompleted /\
    Batch.runs b3 = [].
Proof.
  destruct (batch_without_runs_completes
              (createBatch (Samples.zapConfig 0) 1700000000000 "k3j9x2m1q" Samples.fresh).2
              Samples.zapId (newBatch 1700000000000 "k3j9x2m1q" (Samples.zapConfig 0))
              1700000000005 1700000000006 (fun _ => None) Samples.emptyFs)
    as (s1 & s2 & s3 & b3 & H1 & _ & H3 & H4 & H5 & H6 & _ & H8 & _);
    [apply lookup_insert_eq | simpl; lia |].
  exists s3, b3. split_and!; [|exact H5|exact H6|exact H8].
  cbn [run]. rewrite H1. cbn [length calls createBatch snd Samples.fresh newManager
    ensureBatchDirectory setFs setBatches] in H3, H4. rewrite H3, H4. reflexivity.
Defined.



End SupervisorProps.

(** ** Event bus: a connection that closes *)

Module CloseProps.
Import Js Engine StepFacts Ledger TurnFacts.

Lemma close_fold_sockets (ws : Ws) (hs : list string) : forall s0,
  sockets (foldl (fun s batchId =>
                    setBatches
                      (alter (fun b => Batch.setClients
                                         (filter (fun w => w ≠ ws) (Batch.clients b)) b)
                             batchId (batches s)) s) s0 hs) = sockets s0.
Proof. induction hs as [|h hs IH]; intros s0; simpl; [done | by rewrite IH]. Qed.

(** X21.  A connection that subscribes to a registered batch is among
    its clients; when the connection closes, its ['close'] handler
    takes it out again and leaves the other clients of the batch as
    they were; the connection is then CLOSED. *)
Theorem closed_client_is_removed (batchId : string) (ws : Ws) (s : State) (k : Socket.t)
    (b : Batch.t) :
  sockets s !! ws = Some k -> batches s !! batchId = Some b ->
  exists b1 b2,
    batches (subscribeClient batchId ws s) !! batchId = Some b1 /\
    ws ∈ Batch.clients b1 /\
    batches (closeSocket ws (subscribeClient batchId ws s)) !! batchId = Some b2 /\
    (ws ∉ Batch.clients b2) /\
    (forall w, w ≠ ws -> w ∈ Batch.clients b2 <-> w ∈ Batch.clients b) /\
    readyStateOf ws (closeSocket ws (subscribeClient batchId ws s)) = Some WS_CLOSED.
Proof.
  intros Hk Hb.
  set (b1 := Batch.setClients (addClient ws (Batch.clients b)) b).
  set (k1 := {| Socket.readyState := Socket.readyState k;
                Socket.closeHandlers := Socket.closeHandlers k ++ [batchId] |}).
  assert (Hb1 : batches (subscribeClient batchId ws s) !! batchId = Some b1).
  { unfold subscribeClient. rewrite Hb. simpl. apply lookup_insert_eq. }
  assert (Hk1 : sockets (subscribeClient batchId ws s) !! ws = Some k1).
  { unfold subscribeClient. rewrite Hb. simpl. by rewrite lookup_alter_eq, Hk. }
  set (s1 := subscribeClient batchId ws s) in *. clearbody s1.
  unfold closeSocket, readyStateOf. rewrite Hk1.
  set (s2 := setSockets _ s1).
  pose proof (close_fold ws (Socket.closeHandlers k1) s2 batchId) as Hf.
  rewrite close_fold_sockets.
  change (batches s2) with (batches s1) in Hf. rewrite Hb1 in Hf.
  inversion Hf as [? b2 Hb2 E1 E2|]; subst.
  rewrite decide_True in * by (simpl; set_solver).
  exists b1, (Batch.setClients (filter (fun w => w ≠ ws) (Batch.clients b1)) b1).
  assert (Hadd : forall w, w ∈ addClient ws (Batch.clients b) <-> w = ws \/ w ∈ Batch.clients b).
  { intros w. unfold addClient. destruct (decide (ws ∈ Batch.clients b)) as [Hin|Hin].
    - split; [auto | intros [Heq|?]; [by rewrite Heq | done]].
    - rewrite elem_of_app, list_elem_of_singleton. tauto. }
  split_and!; try done.
  - simpl. apply Hadd. by left.
  - simpl. rewrite list_elem_of_filter. tauto.
  - intros w Hw. simpl. rewrite list_elem_of_filter, Hadd. tauto.
  - simpl. by rewrite lookup_insert_eq.
Qed.

Lemma closed_client_is_removed_witness :
  exists b2,
    batches (closeSocket 7%nat
               (subscribeClient Samples.zapId 7%nat
                  (Samples.after (take 2 Samples.crashingBatch)))) !! Samples.zapId
    = Some b2 /\
    7%nat ∉ Batch.clients b2.
Proof.
  destruct (closed_client_is_removed Samples.zapId 7%nat
              (Samples.after (take 2 Samples.crashingBatch))
              {| Socket.readyState := WS_OPEN; Socket.closeHandlers := [] |}
              (newBatch 1700000000000 "k3j9x2m1q" (Samples.zapConfig 2)))
    as (b1 & b2 & _ & _ & H3 & H4 & _);
    [vm_compute; reflexivity | vm_compute; reflexivity |].
  exists b2. split; [exact H3 | exact H4].
Defined.

End CloseProps.
